(** * Hypergraph conversation model (convokit/hyperconvo.py)

    A shallow embedding of the [Hypergraph] class and of the
    [HyperConvo] feature extractor, together with the properties of
    the multigraph store, of the graph builder and of the motif
    enumerators.

    Python objects are modelled as follows.
    - a [dict] is an association list in insertion order (iteration
      order of a Python dict); assigning an existing key replaces the
      value in place, assigning a new key appends;
    - a [set] is a duplicate-free list of its elements in insertion
      order; the iteration order of a Python set is not specified, so
      every iteration over a set goes through [set_iter], an arbitrary
      permutation supplied by the class [SetOrder];
    - a [User] object is its name, the only thing its equality and its
      hash read; numpy's [argsort] and scipy's [entropy] are taken as
      given;
    - an exception is a value of [exn]; a method that mutates the graph
      is a computation in the state-and-exception monad [ST], so the
      graph left behind by a raising call is part of the result. *)

From Stdlib Require Import ZArith Sorted.
From stdpp Require Import base list strings.

Open Scope Z_scope.
Open Scope nat_scope.

(** ** Exceptions and the two monads *)

Inductive exn :=
  | AssertionError | KeyError | AttributeError | ValueError | RuntimeError.

Inductive result (A : Type) :=
  | Ok (a : A)
  | Raise (e : exn).
Arguments Ok {A} a.
Arguments Raise {A} e.

#[export] Instance result_ret : MRet result := fun A a => Ok a.
#[export] Instance result_bind : MBind result := fun A B f r =>
  match r with Ok a => f a | Raise e => Raise e end.
#[export] Instance result_fmap : FMap result := fun A B f r =>
  match r with Ok a => Ok (f a) | Raise e => Raise e end.

(** [for x in l] over a body that may raise: left to right, stopping at
    the first exception. *)
Fixpoint traverse {A B} (f : A -> result B) (l : list A) : result (list B) :=
  match l with
  | [] => Ok []
  | x :: l' => y ← f x; ys ← traverse f l'; Ok (y :: ys)
  end.

(** A comprehension clause [... for x in l ...] whose remainder yields a
    list of items. *)
Fixpoint for_each {A B} (l : list A) (f : A -> result (list B))
  : result (list B) :=
  match l with
  | [] => Ok []
  | x :: l' => ys ← f x; rest ← for_each l' f; Ok (ys ++ rest)
  end.

(** State and exceptions: the state reached when the exception is
    raised is kept. *)
Definition ST (S A : Type) : Type := S -> result A * S.

#[export] Instance ST_ret {S} : MRet (ST S) := fun A a s => (Ok a, s).
#[export] Instance ST_bind {S} : MBind (ST S) := fun A B f m s =>
  match m s with
  | (Ok a, s') => f a s'
  | (Raise e, s') => (Raise e, s')
  end.

Definition get_state {S} : ST S S := fun s => (Ok s, s).
Definition modify {S} (f : S -> S) : ST S unit := fun s => (Ok tt, f s).
Definition raise {S A} (e : exn) : ST S A := fun s => (Raise e, s).
Definition lift {S A} (r : result A) : ST S A := fun s => (r, s).
Definition py_assert {S} (b : bool) : ST S unit :=
  if b then mret tt else raise AssertionError.

Fixpoint for_ {S A} (l : list A) (body : A -> ST S unit) : ST S unit :=
  match l with
  | [] => mret tt
  | x :: l' => body x;; for_ l' body
  end.

(** ** Python dictionaries and sets *)

Section PyDict.
Context {K V : Type} `{EqDecision K}.

Fixpoint dict_get (k : K) (d : list (K * V)) : option V :=
  match d with
  | [] => None
  | (k', v) :: d' => if decide (k = k') then Some v else dict_get k d'
  end.

(** [k in d] *)
Definition dict_mem (k : K) (d : list (K * V)) : bool :=
  match dict_get k d with Some _ => true | None => false end.

(** [d[k] = v] *)
Fixpoint dict_set (k : K) (v : V) (d : list (K * V)) : list (K * V) :=
  match d with
  | [] => [(k, v)]
  | (k', v') :: d' =>
      if decide (k = k') then (k', v) :: d' else (k', v') :: dict_set k v d'
  end.

(** [d[k]] as an expression: [KeyError] when the key is missing. *)
Definition getitem (k : K) (d : list (K * V)) : result V :=
  match dict_get k d with Some v => Ok v | None => Raise KeyError end.

Definition dict_keys (d : list (K * V)) : list K := d.*1.
End PyDict.

Section PySet.
Context {A : Type} `{EqDecision A}.

(** [x in s] *)
Definition set_mem (x : A) (s : list A) : bool := bool_decide (x ∈ s).

(** [s.add(x)] *)
Definition set_add (x : A) (s : list A) : list A :=
  if set_mem x s then s else s ++ [x].

(** [set(l)] *)
Definition set_of_list (l : list A) : list A :=
  foldl (fun s x => set_add x s) [] l.

(** [s - t] *)
Definition set_diff (s t : list A) : list A :=
  filter (fun x => x ∉ t) s.
End PySet.

(** The order in which a Python set hands out its elements. *)
Class SetOrder (A : Type) := {
  set_iter : list A -> list A;
  set_iter_perm : forall s, set_iter s ≡ₚ s
}.

(** ** Payloads *)

Inductive pyval :=
  | PNone
  | PInt (z : Z)
  | PStr (s : string).

#[export] Instance pyval_eq_dec : EqDecision pyval.
Proof. solve_decision. Defined.

(** A metadata blob: a dict with string keys. *)
Definition Info : Type := list (string * pyval).

(** ** class Hypergraph *)

Section Hypergraph.
Context {K : Type} `{EqDecision K}.

Record Hypergraph := mkHypergraph {
  nodes : list (K * Info);
  hypernodes : list (K * list K);
  adj_out : list (K * list (K * list Info));
  adj_in : list (K * list (K * list Info))
}.

(** [__init__] *)
Definition init : Hypergraph :=
  {| nodes := []; hypernodes := []; adj_out := []; adj_in := [] |}.

Definition set_nodes f G :=
  {| nodes := f (nodes G); hypernodes := hypernodes G;
     adj_out := adj_out G; adj_in := adj_in G |}.
Definition set_hypernodes f G :=
  {| nodes := nodes G; hypernodes := f (hypernodes G);
     adj_out := adj_out G; adj_in := adj_in G |}.
Definition set_adj_out f G :=
  {| nodes := nodes G; hypernodes := hypernodes G;
     adj_out := f (adj_out G); adj_in := adj_in G |}.
Definition set_adj_in f G :=
  {| nodes := nodes G; hypernodes := hypernodes G;
     adj_out := adj_out G; adj_in := f (adj_in G) |}.

Definition info_or_empty (info : option Info) : Info :=
  match info with Some i => i | None => [] end.

Definition add_node (u : K) (info : option Info) : ST Hypergraph unit :=
  modify (set_nodes (dict_set u (info_or_empty info)));;
  modify (set_adj_out (dict_set u []));;
  modify (set_adj_in (dict_set u [])).

(** The [info] argument is accepted and dropped, as in the source. *)
Definition add_hypernode (name : K) (members : list K) (info : option Info)
  : ST Hypergraph unit :=
  modify (set_hypernodes (dict_set name (set_of_list members)));;
  modify (set_adj_out (dict_set name []));;
  modify (set_adj_in (dict_set name [])).

(** [self.adj[u][v] = []] unless [v in self.adj[u]] *)
Definition ensure_slot (u v : K) (adj : list (K * list (K * list Info)))
  : result (list (K * list (K * list Info))) :=
  d ← getitem u adj;
  if dict_mem v d then Ok adj else Ok (dict_set u (dict_set v [] d) adj).

(** [self.adj[u][v].append(info)] *)
Definition append_edge (u v : K) (info : Info)
    (adj : list (K * list (K * list Info)))
  : result (list (K * list (K * list Info))) :=
  d ← getitem u adj;
  l ← getitem v d;
  Ok (dict_set u (dict_set v (l ++ [info]) d) adj).

Definition add_edge (u v : K) (info : option Info) : ST Hypergraph unit :=
  G ← get_state;
  py_assert (dict_mem u (nodes G) || dict_mem u (hypernodes G));;
  py_assert (dict_mem v (nodes G) || dict_mem v (hypernodes G));;
  (if dict_mem u (hypernodes G) && dict_mem v (hypernodes G) then
     match info with
     | None => raise AttributeError
     | Some i => py_assert (bool_decide (0 < length (dict_keys i)))
     end
   else mret tt);;
  out ← lift (ensure_slot u v (adj_out G));
  modify (set_adj_out (fun _ => out));;
  inn ← lift (ensure_slot v u (adj_in G));
  modify (set_adj_in (fun _ => inn));;
  let info := info_or_empty info in
  out ← lift (append_edge u v info out);
  modify (set_adj_out (fun _ => out));;
  inn ← lift (append_edge v u info inn);
  modify (set_adj_in (fun _ => inn)).

(** [self.hypernodes if hyper else self.nodes], as far as membership and
    iteration see it. *)
Definition tier (G : Hypergraph) (hyper : bool) : list K :=
  if hyper then dict_keys (hypernodes G) else dict_keys (nodes G).

Definition in_tier (G : Hypergraph) (hyper : bool) (k : K) : bool :=
  if hyper then dict_mem k (hypernodes G) else dict_mem k (nodes G).

Definition neighbours (adj : list (K * list (K * list Info)))
    (G : Hypergraph) (hyper : bool) (u : K)
  : result (list (K * list Info)) :=
  if dict_mem u adj then
    d ← getitem u adj;
    Ok (filter (fun kv => in_tier G hyper kv.1 = true) d)
  else Raise AssertionError.

Definition outgoing_nodes G u := neighbours (adj_out G) G false u.
Definition outgoing_hypernodes G u := neighbours (adj_out G) G true u.
Definition incoming_nodes G v := neighbours (adj_in G) G false v.
Definition incoming_hypernodes G v := neighbours (adj_in G) G true v.

(** [sum([len(l) for v, l in d.items() if v in tier])] *)
Definition degree (G : Hypergraph) (hyper : bool)
    (d : list (K * list Info)) : nat :=
  sum_list (map (fun kv => length kv.2)
              (filter (fun kv => in_tier G hyper kv.1 = true) d)).

Definition outdegrees (G : Hypergraph) (from_hyper to_hyper : bool)
  : result (list nat) :=
  traverse (fun u => d ← getitem u (adj_out G); Ok (degree G to_hyper d))
           (tier G from_hyper).

Definition indegrees (G : Hypergraph) (from_hyper to_hyper : bool)
  : result (list nat) :=
  traverse (fun v => d ← getitem v (adj_in G); Ok (degree G from_hyper d))
           (tier G to_hyper).

(** [self.adj_out[a][b]] *)
Definition out_edges (G : Hypergraph) (a b : K) : result (list Info) :=
  d ← getitem a (adj_out G); getitem b d.

Definition reciprocity_motifs `{!SetOrder K} (G : Hypergraph)
  : result (list (K * K * K * Info * Info)) :=
  for_each (hypernodes G) (fun '(C1, c1_nodes) =>
    for_each (set_iter c1_nodes) (fun c1 =>
      inc ← getitem c1 (adj_in G);
      for_each (dict_keys inc) (fun c2 =>
        if dict_mem c2 (nodes G) then
          outC1 ← getitem C1 (adj_out G);
          if dict_mem c2 outC1 then
            es1 ← out_edges G C1 c2;
            for_each es1 (fun e1 =>
              es2 ← out_edges G c2 c1;
              for_each es2 (fun e2 => Ok [(C1, c1, c2, e1, e2)]))
          else Ok []
        else Ok []))).

Definition external_reciprocity_motifs `{!SetOrder K} (G : Hypergraph)
  : result (list (K * K * K * Info * Info)) :=
  for_each (dict_keys (hypernodes G)) (fun C3 =>
    outC3 ← getitem C3 (adj_out G);
    for_each (dict_keys outC3) (fun c2 =>
      if dict_mem c2 (nodes G) then
        outc2 ← getitem c2 (adj_out G);
        members ← getitem C3 (hypernodes G);
        for_each (set_iter (set_diff (set_of_list (dict_keys outc2)) members))
          (fun c1 =>
            if dict_mem c1 (nodes G) then
              es1 ← out_edges G C3 c2;
              for_each es1 (fun e1 =>
                es2 ← out_edges G c2 c1;
                for_each es2 (fun e2 => Ok [(C3, c2, c1, e1, e2)]))
            else Ok [])
      else Ok [])).

Definition dyadic_interaction_motifs (G : Hypergraph)
  : result (list (K * K * Info * Info)) :=
  for_each (dict_keys (hypernodes G)) (fun C1 =>
    outC1 ← getitem C1 (adj_out G);
    for_each (dict_keys outC1) (fun C2 =>
      if dict_mem C2 (hypernodes G) then
        outC2 ← getitem C2 (adj_out G);
        if dict_mem C1 outC2 then
          es1 ← out_edges G C1 C2;
          for_each es1 (fun e1 =>
            es2 ← out_edges G C2 C1;
            for_each es2 (fun e2 => Ok [(C1, C2, e1, e2)]))
        else Ok []
      else Ok [])).

(** [itertools.combinations(l, 2)] *)
Fixpoint combinations2 {A} (l : list A) : list (A * A) :=
  match l with
  | [] => []
  | x :: l' => map (fun y => (x, y)) l' ++ combinations2 l'
  end.

Definition incoming_triad_motifs (G : Hypergraph)
  : result (list (K * K * K * Info * Info)) :=
  for_each (dict_keys (hypernodes G)) (fun C1 =>
    inC1 ← getitem C1 (adj_in G);
    let incoming := dict_keys inC1 in
    for_each (combinations2 incoming) (fun '(C2, C3) =>
      es1 ← out_edges G C2 C1;
      for_each es1 (fun e1 =>
        es2 ← out_edges G C3 C1;
        for_each es2 (fun e2 => Ok [(C1, C2, C3, e1, e2)])))).

Definition outgoing_triad_motifs (G : Hypergraph)
  : result (list (K * K * K * Info * Info)) :=
  for_each (dict_keys (hypernodes G)) (fun C1 =>
    outC1 ← getitem C1 (adj_out G);
    let outgoing := dict_keys outC1 in
    for_each (combinations2 outgoing) (fun '(C2, C3) =>
      es1 ← out_edges G C1 C2;
      for_each es1 (fun e1 =>
        es2 ← out_edges G C1 C3;
        for_each es2 (fun e2 => Ok [(C1, C2, C3, e1, e2)])))).
End Hypergraph.

Arguments Hypergraph K : clear implicits.

(** ** Sorting

    [sorted(xs, key=...)] is stable: an element is placed before the
    first element with a strictly greater key among those that follow it
    in the input. *)

Section Sorting.
Context {A : Type} (key : A -> Z).

Fixpoint insert_by (x : A) (l : list A) : list A :=
  match l with
  | [] => [x]
  | y :: l' => if (key y <? key x)%Z then y :: insert_by x l' else x :: l
  end.

Definition sort_by (l : list A) : list A := foldr insert_by [] l.
End Sorting.

(** ** class HyperConvo: the graph builder *)

(** A participant.  [User] objects compare and hash by their name, so
    as a key of a dict, as an element of a set and as a vertex of the
    graph a [User] is its name: two objects of one name are one
    participant. *)
Record User := mkUser { user_name : string }.

#[export] Instance User_eq_dec : EqDecision User.
Proof. solve_decision. Defined.

(** [u.meta], the [meta] attribute of the object a dict keeps as the
    key [u].  The builder reads it once and passes it on. *)
Class UserMeta := user_meta : User -> Info.

(** An utterance, as far as the builder reads it; [ut_dict] is its
    [__dict__]. *)
Record Utterance := mkUtterance {
  ut_id : string;
  ut_user : User;
  ut_reply_to : option string;
  ut_timestamp : Z;
  ut_dict : Info
}.

(** Vertex identities: utterance ids and participants share the
    dictionaries of one graph and never compare equal. *)
Inductive vertex :=
  | Utt (id : string)
  | Usr (u : User).

#[export] Instance vertex_eq_dec : EqDecision vertex.
Proof. solve_decision. Defined.

(** The local variables of [_make_hypergraph]. *)
Record locals := mkLocals {
  username_to_utt_ids : list (User * list string);
  reply_edges : list (string * string);
  speaker_to_reply_tos : list (User * list string);
  speaker_target_pairs : list (User * User * Z)
}.

Definition no_locals : locals :=
  {| username_to_utt_ids := []; reply_edges := [];
     speaker_to_reply_tos := []; speaker_target_pairs := [] |}.

(** [d[k].append(x)] on a [defaultdict(list)] *)
Definition defaultdict_append {K V} `{EqDecision K} (k : K) (x : V)
    (d : list (K * list V)) : list (K * list V) :=
  match dict_get k d with
  | Some l => dict_set k (l ++ [x]) d
  | None => dict_set k [x] d
  end.

Definition timestamp_payload (t : Z) : Info := [("timestamp"%string, PInt t)].

Section Builder.
Context `{!SetOrder string} `{!SetOrder (User * User * Z)} `{!UserMeta}.

(** The body of the loop over the sorted utterances. *)
Definition node_step (uts : list (string * Utterance))
    (exclude_id : option string) (ut : Utterance) (a : locals)
  : ST (Hypergraph vertex) locals :=
  if bool_decide (Some (ut_id ut) ≠ exclude_id) then
    let u2i :=
      if dict_mem (ut_user ut) (username_to_utt_ids a)
      then username_to_utt_ids a
      else dict_set (ut_user ut) [] (username_to_utt_ids a) in
    ids ← lift (getitem (ut_user ut) u2i);
    let u2i := dict_set (ut_user ut) (set_add (ut_id ut) ids) u2i in
    a' ← match ut_reply_to ut with
         | Some r =>
             if dict_mem r uts && bool_decide (Some r ≠ exclude_id) then
               let re := reply_edges a ++ [(ut_id ut, r)] in
               let s2r :=
                 defaultdict_append (ut_user ut) r (speaker_to_reply_tos a) in
               target ← lift (getitem r uts);
               mret {| username_to_utt_ids := u2i;
                       reply_edges := re;
                       speaker_to_reply_tos := s2r;
                       speaker_target_pairs :=
                         set_add (ut_user ut, ut_user target, ut_timestamp ut)
                                 (speaker_target_pairs a) |}
             else
               mret {| username_to_utt_ids := u2i;
                       reply_edges := reply_edges a;
                       speaker_to_reply_tos := speaker_to_reply_tos a;
                       speaker_target_pairs := speaker_target_pairs a |}
         | None =>
             mret {| username_to_utt_ids := u2i;
                     reply_edges := reply_edges a;
                     speaker_to_reply_tos := speaker_to_reply_tos a;
                     speaker_target_pairs := speaker_target_pairs a |}
         end;
    add_node (Utt (ut_id ut)) (Some (ut_dict ut));;
    mret a'
  else mret a.

Fixpoint node_loop (uts : list (string * Utterance))
    (exclude_id : option string) (sorted : list Utterance) (a : locals)
  : ST (Hypergraph vertex) locals :=
  match sorted with
  | [] => mret a
  | ut :: rest =>
      a' ← node_step uts exclude_id ut a; node_loop uts exclude_id rest a'
  end.

Definition build (uts : list (string * Utterance))
    (exclude_id : option string) : ST (Hypergraph vertex) unit :=
  a ← node_loop uts exclude_id (sort_by ut_timestamp uts.*2) no_locals;
  (* hypernodes *)
  for_ (username_to_utt_ids a) (fun '(u, ids) =>
    add_hypernode (Usr u) (Utt <$> set_iter ids) (Some (user_meta u)));;
  (* reply edges *)
  for_ (reply_edges a) (fun '(u, v) => add_edge (Utt u) (Utt v) None);;
  (* user to utterance response edges *)
  for_ (speaker_to_reply_tos a) (fun '(u, reply_tos) =>
    for_ reply_tos (fun reply_to => add_edge (Usr u) (Utt reply_to) None));;
  (* user to user response edges *)
  for_ (set_iter (speaker_target_pairs a)) (fun '(u, v, timestamp) =>
    add_edge (Usr u) (Usr v) (Some (timestamp_payload timestamp))).

(** [corpus] is the sequence [corpus.iter_utterances()] yields. *)
Definition _make_hypergraph (corpus : option (list Utterance))
    (uts : option (list (string * Utterance)))
    (exclude_id : option string) : result (Hypergraph vertex) :=
  uts ← match uts with
        | Some uts => Ok uts
        | None =>
            match corpus with
            | None => Raise RuntimeError
            | Some c =>
                Ok (foldl (fun d utt => dict_set (ut_id utt) utt d) [] c)
            end
        end;
  match build uts exclude_id init with
  | (Ok _, G) => Ok G
  | (Raise e, _) => Raise e
  end.
End Builder.

(** ** class HyperConvo: degree statistics

    The numpy primitives the statistics use, on integer arrays.  A float
    result is kept symbolic: [NaN], an infinity, or [Quot n d] for the
    float nearest to [n / d]; reductions of an empty array raise
    [ValueError], divisions by zero and the mean of an empty array give
    a float without raising. *)

Inductive npfloat :=
  | NaN
  | PosInf
  | NegInf
  | Quot (n d : Z).

Inductive npval :=
  | NInt (z : Z)
  | NFloat (x : npfloat).

(** [np.max] *)
Definition np_max (l : list Z) : result Z :=
  match l with
  | [] => Raise ValueError
  | x :: l' => Ok (foldl Z.max x l')
  end.

(** [np.argmax]: the first position of the maximum. *)
Fixpoint np_argmax_from (i best_i : nat) (best : Z) (l : list Z) : nat :=
  match l with
  | [] => best_i
  | x :: l' =>
      if (best <? x)%Z then np_argmax_from (S i) i x l'
      else np_argmax_from (S i) best_i best l'
  end.

Definition np_argmax (l : list Z) : result Z :=
  match l with
  | [] => Raise ValueError
  | x :: l' => Ok (Z.of_nat (np_argmax_from 1 0 x l'))
  end.

(** [np.sum] *)
Definition np_sum (l : list Z) : Z := foldr Z.add 0%Z l.

(** [a / b] on numpy integers *)
Definition np_divide (a b : Z) : npfloat :=
  if (b =? 0)%Z then
    if (a =? 0)%Z then NaN else if (0 <? a)%Z then PosInf else NegInf
  else Quot a b.

(** [np.mean] *)
Definition np_mean (l : list Z) : npfloat :=
  match l with
  | [] => NaN
  | _ => Quot (np_sum l) (Z.of_nat (length l))
  end.

(** [np.partition(l, -2)[-2]], for [len(l) > 1] *)
Definition second_largest (l : list Z) : Z :=
  nth (length l - 2) (sort_by (fun x => x) l) 0%Z.

(** [np.argsort] with its default sort, taken as given: the positions
    of the array in an order that sorts it.  The default sort is not
    stable, so which of several equal entries comes first is left to
    the implementation. *)
Class ArgSort := argsort : list Z -> list nat.

(** [(-l).argsort()[1]], for [len(l) > 1] *)
Definition second_argmax `{!ArgSort} (l : list Z) : Z :=
  Z.of_nat (nth 1 (argsort (Z.opp <$> l)) 0).

(** [l[l != 0]] *)
Definition nonzero (l : list Z) : list Z := filter (fun x => x ≠ 0%Z) l.

(** A boolean array, as the integers [np.mean] sees. *)
Definition as_int (b : bool) : Z := if b then 1%Z else 0%Z.

(** A degree vector all of whose entries are zero. *)
Definition all_zero (l : list Z) : Prop := Forall (fun x => x = 0%Z) l.

Definition _node_type_name (b : bool) : string :=
  if b then "C"%string else "c"%string.

Section DegreeFeats.
(** [scipy.stats.entropy], taken as given: it returns a float on every
    integer array, the empty one and the all-zero ones included. *)
Variable entropy : list Z -> npfloat.
Context `{!ArgSort}.

Definition stat_funcs : list (string * (list Z -> result npval)) := [
  ("max", fun l => NInt <$> np_max l);
  ("argmax", fun l => NInt <$> np_argmax l);
  ("norm.max", fun l => m ← np_max l; Ok (NFloat (np_divide m (np_sum l))));
  ("2nd-largest", fun l =>
     if bool_decide (1 < length l) then Ok (NInt (second_largest l))
     else Ok (NFloat NaN));
  ("2nd-argmax", fun l =>
     if bool_decide (1 < length l) then Ok (NInt (second_argmax l))
     else Ok (NFloat NaN));
  ("norm.2nd-largest", fun l =>
     if bool_decide (1 < length l)
     then Ok (NFloat (np_divide (second_largest l) (np_sum l)))
     else Ok (NFloat NaN));
  ("mean", fun l => Ok (NFloat (np_mean l)));
  ("mean-nonzero", fun l => Ok (NFloat (np_mean (nonzero l))));
  ("prop-nonzero", fun l =>
     Ok (NFloat (np_mean (map (fun x => as_int (bool_decide (x ≠ 0%Z))) l))));
  ("prop-multiple", fun l =>
     Ok (NFloat (np_mean (map (fun x => as_int (bool_decide (1 < x)%Z))
                            (nonzero l)))));
  ("entropy", fun l => Ok (NFloat (entropy l)));
  ("2nd-largest / max", fun l =>
     if bool_decide (1 < length l)
     then m ← np_max l; Ok (NFloat (np_divide (second_largest l) m))
     else Ok (NFloat NaN))
]%string.

(** [stat_funcs[name](l)] *)
Definition stat_value (name : string) (l : list Z) : result npval :=
  stat_func ← getitem name stat_funcs; stat_func l.

(** ["{}[{}degree over {}->{} {}responses]".format(...)] *)
Definition feat_name (stat direction : string) (from_hyper to_hyper : bool)
    (name_ext : string) : string :=
  (stat +:+ "[" +:+ direction +:+ "degree over "
     +:+ _node_type_name from_hyper +:+ "->" +:+ _node_type_name to_hyper
     +:+ " " +:+ name_ext +:+ "responses]")%string.

(** A [for] loop that threads a local variable and may raise. *)
Fixpoint fold_result {A B} (f : B -> A -> result B) (l : list A) (b : B)
  : result B :=
  match l with
  | [] => Ok b
  | x :: l' => b' ← f b x; fold_result f l' b'
  end.

(** The loop over [stat_funcs.items()] for one tier combination, on
    the two arrays [np.array(G.outdegrees(..))] and
    [np.array(G.indegrees(..))]. *)
Definition stats_of_degrees (from_hyper to_hyper : bool) (name_ext : string)
    (outdegrees indegrees : list Z) (stats : list (string * npval))
  : result (list (string * npval)) :=
  fold_result (fun stats '(stat, stat_func) =>
      o ← stat_func outdegrees;
      let stats :=
        dict_set (feat_name stat "out" from_hyper to_hyper name_ext) o stats in
      i ← stat_func indegrees;
      Ok (dict_set (feat_name stat "in" from_hyper to_hyper name_ext) i stats))
    stat_funcs stats.

Definition degree_feats_of (G : Hypergraph vertex) (name_ext : string)
  : result (list (string * npval)) :=
  fold_result (fun stats from_hyper =>
    fold_result (fun stats to_hyper =>
        if negb from_hyper && to_hyper then Ok stats  (* skip c -> C *)
        else
          outs ← outdegrees G from_hyper to_hyper;
          ins ← indegrees G from_hyper to_hyper;
          stats_of_degrees from_hyper to_hyper name_ext
            (Z.of_nat <$> outs) (Z.of_nat <$> ins) stats)
      [false; true] stats)
    [false; true] [].

(** When [G] is not given the source passes [uts] in the position of
    [corpus]: a dict has no [iter_utterances]. *)
Definition _degree_feats (uts : option (list (string * Utterance)))
    (G : option (Hypergraph vertex)) (name_ext : string)
    (exclude_id : option string) : result (list (string * npval)) :=
  match uts, G with
  | Some _, Some _ => Raise AssertionError
  | None, None => Raise RuntimeError
  | Some _, None => Raise AttributeError
  | None, Some G => degree_feats_of G name_ext
  end.
End DegreeFeats.

(** ** Graphs reachable through the public operations *)

Section Reachability.
Context {K : Type} `{EqDecision K}.

Inductive op :=
  | AddNode (u : K) (info : option Info)
  | AddHypernode (name : K) (members : list K) (info : option Info)
  | AddEdge (u v : K) (info : option Info).

Definition exec (o : op) : ST (Hypergraph K) unit :=
  match o with
  | AddNode u info => add_node u info
  | AddHypernode name members info => add_hypernode name members info
  | AddEdge u v info => add_edge u v info
  end.

(** [k] is a Node or a Hypernode of [G]. *)
Definition registered (G : Hypergraph K) (k : K) : bool :=
  dict_mem k (nodes G) || dict_mem k (hypernodes G).

(** The operation does not insert an identity the graph already has. *)
Definition inserts_fresh (G : Hypergraph K) (o : op) : Prop :=
  match o with
  | AddNode u _ | AddHypernode u _ _ => registered G u = false
  | AddEdge _ _ _ => True
  end.

(** Any sequence of successful operations. *)
Inductive reachable : Hypergraph K -> Prop :=
  | reachable_init : reachable init
  | reachable_step G o G' :
      reachable G -> exec o G = (Ok tt, G') -> reachable G'.

(** A sequence of successful operations that inserts no identity twice. *)
Inductive reachable_fresh : Hypergraph K -> Prop :=
  | reachable_fresh_init : reachable_fresh init
  | reachable_fresh_step G o G' :
      reachable_fresh G -> inserts_fresh G o ->
      exec o G = (Ok tt, G') -> reachable_fresh G'.

(** The edge-instance list stored under [b] in [adj[a]], if any. *)
Definition stored (adj : list (K * list (K * list Info))) (a b : K)
  : option (list Info) :=
  d ← dict_get a adj; dict_get b d.

Definition edge_list (adj : list (K * list (K * list Info))) (a b : K)
  : list Info :=
  match stored adj a b with Some l => l | None => [] end.

(** The same list, empty when nothing is stored. *)
Definition edges_of (b : K) (d : list (K * list Info)) : list Info :=
  match dict_get b d with Some l => l | None => [] end.

(** The graph a successful [add_edge u v] leaves, [du] and [dv] being
    [adj_out[u]] and [adj_in[v]] before the call. *)
Definition edge_added (u v : K) (i : Info) (du dv : list (K * list Info))
    (G : Hypergraph K) : Hypergraph K :=
  {| nodes := nodes G; hypernodes := hypernodes G;
     adj_out := dict_set u (dict_set v (edges_of v du ++ [i]) du) (adj_out G);
     adj_in := dict_set v (dict_set u (edges_of u dv ++ [i]) dv) (adj_in G) |}.

(** What [add_edge] asserts about the payload. *)
Definition payload_ok (G : Hypergraph K) (u v : K) (info : option Info)
  : Prop :=
  dict_mem u (hypernodes G) && dict_mem v (hypernodes G) = true ->
  exists i, info = Some i /\ i <> [].

(** Every Node and Hypernode has its two adjacency dicts. *)
Definition adj_complete (G : Hypergraph K) : Prop :=
  forall k, registered G k = true ->
    dict_mem k (adj_out G) = true /\ dict_mem k (adj_in G) = true.

(** Keys are stored once, at both levels of the adjacency dicts. *)
Definition keys_once (G : Hypergraph K) : Prop :=
  NoDup (dict_keys (nodes G)) /\ NoDup (dict_keys (hypernodes G)) /\
  NoDup (dict_keys (adj_out G)) /\ NoDup (dict_keys (adj_in G)) /\
  (forall k d, dict_get k (adj_out G) = Some d -> NoDup (dict_keys d)) /\
  (forall k d, dict_get k (adj_in G) = Some d -> NoDup (dict_keys d)).

(** Neighbours stored in an adjacency dict are Nodes or Hypernodes. *)
Definition neighbours_registered (G : Hypergraph K) : Prop :=
  forall a b, (is_Some (stored (adj_out G) a b) \/
               is_Some (stored (adj_in G) a b)) ->
    registered G b = true.

(** The two adjacency dicts store the same lists. *)
Definition mirrored (G : Hypergraph K) : Prop :=
  forall u v, stored (adj_out G) u v = stored (adj_in G) v u.

(** [adj[C]], empty when [C] has no entry. *)
Definition adjacent (adj : list (K * list (K * list Info))) (C : K)
  : list (K * list Info) :=
  match dict_get C adj with Some d => d | None => [] end.

(** The dyadic instances the enumeration yields for the Hypernode [C1]
    and its outgoing neighbour [C2]. *)
Definition dyadic_at (G : Hypergraph K) (C1 C2 : K)
  : list (K * K * Info * Info) :=
  if dict_mem C2 (hypernodes G) && dict_mem C1 (adjacent (adj_out G) C2)
  then flat_map (fun e1 =>
                   flat_map (fun e2 => [(C1, C2, e1, e2)])
                            (edge_list (adj_out G) C2 C1))
                (edge_list (adj_out G) C1 C2)
  else [].

(** A log of inserted edge instances, in insertion order, and what the
    adjacency dicts of a graph store when the graph had no edge before
    the log was inserted. *)
Definition payloads_for (a b : K) (log : list (K * K * Info)) : list Info :=
  omap (fun e => if decide (e.1.1 = a /\ e.1.2 = b) then Some e.2 else None)
       log.

Definition as_stored (l : list Info) : option (list Info) :=
  match l with [] => None | _ => Some l end.

Definition logged (G0 G : Hypergraph K) (log : list (K * K * Info)) : Prop :=
  nodes G = nodes G0 /\ hypernodes G = hypernodes G0 /\ reachable G /\
  forall a b,
    stored (adj_out G) a b = as_stored (payloads_for a b log) /\
    stored (adj_in G) b a = as_stored (payloads_for a b log).

(** The sum a degree vector adds up to: over the vertices of tier
    [src], the edge instances [adj] stores towards tier [nb]. *)
Definition total (G : Hypergraph K) (adj : list (K * list (K * list Info)))
    (src nb : bool) : nat :=
  sum_list (map (fun u => degree G nb
                            (match dict_get u adj with
                             | Some d => d | None => [] end))
                (tier G src)).

Definition out_total (G : Hypergraph K) (from_hyper to_hyper : bool) : nat :=
  total G (adj_out G) from_hyper to_hyper.

Definition in_total (G : Hypergraph K) (from_hyper to_hyper : bool) : nat :=
  total G (adj_in G) to_hyper from_hyper.

(** Running a list of operations, and running it while checking that
    no identity is inserted twice. *)
Definition run (ops : list op) : ST (Hypergraph K) unit := for_ ops exec.

Definition inserts_freshb (G : Hypergraph K) (o : op) : bool :=
  match o with
  | AddNode u _ | AddHypernode u _ _ => negb (registered G u)
  | AddEdge _ _ _ => true
  end.

Fixpoint run_fresh (ops : list op) (G : Hypergraph K)
  : option (Hypergraph K) :=
  match ops with
  | [] => Some G
  | o :: ops' =>
      if inserts_freshb G o then
        match exec o G with
        | (Ok _, G') => run_fresh ops' G'
        | (Raise _, _) => None
        end
      else None
  end.
End Reachability.

(** ** What the builder records

    A reply that the builder turns into edges: the replying utterance
    and its reply-target are both in the collection and neither is the
    excluded one. *)

Definition recorded (uts : list (string * Utterance))
    (exclude_id : option string) (ut : Utterance) (r : string)
    (target : Utterance) : Prop :=
  Some (ut_id ut) <> exclude_id /\ ut_reply_to ut = Some r /\
  dict_get r uts = Some target /\ Some r <> exclude_id.

(** The collection is keyed by utterance id, as
    [{utt.id: utt for utt in ...}] is. *)
Definition keyed_by_id (uts : list (string * Utterance)) : Prop :=
  forall k ut, (k, ut) ∈ uts -> ut_id ut = k.

(** The locals after the utterances [pre] have gone through the loop. *)
Definition locals_ok (uts : list (string * Utterance))
    (exclude_id : option string) (pre : list Utterance) (a : locals) : Prop :=
  (forall ut, ut ∈ pre -> Some (ut_id ut) <> exclude_id ->
     dict_mem (ut_user ut) (username_to_utt_ids a) = true) /\
  (forall u ids i, (u, ids) ∈ username_to_utt_ids a -> i ∈ ids ->
     exists ut, ut ∈ pre /\ Some (ut_id ut) <> exclude_id /\
                ut_user ut = u /\ ut_id ut = i) /\
  (forall i r, (i, r) ∈ reply_edges a ->
     exists ut target, ut ∈ pre /\ recorded uts exclude_id ut r target /\
                       ut_id ut = i) /\
  (forall u rs r, (u, rs) ∈ speaker_to_reply_tos a -> r ∈ rs ->
     exists ut target, ut ∈ pre /\ recorded uts exclude_id ut r target /\
                       ut_user ut = u) /\
  NoDup (speaker_target_pairs a) /\
  (forall x, x ∈ speaker_target_pairs a <->
     exists ut r target, ut ∈ pre /\ recorded uts exclude_id ut r target /\
       x = (ut_user ut, ut_user target, ut_timestamp ut)).

(** The graph after the utterances [pre] have gone through the loop:
    their Nodes and no edge. *)
Definition nodes_ok (exclude_id : option string) (pre : list Utterance)
    (G : Hypergraph vertex) : Prop :=
  hypernodes G = [] /\ reachable G /\
  (forall k, dict_mem k (nodes G) = true <->
     exists ut, ut ∈ pre /\ Some (ut_id ut) <> exclude_id /\
                k = Utt (ut_id ut)) /\
  (forall a b, stored (adj_out G) a b = None /\ stored (adj_in G) a b = None).

(** The edge instances the three edge passes insert, in order. *)
Definition edge_log `{!SetOrder (User * User * Z)} (a : locals)
  : list (vertex * vertex * Info) :=
  map (fun e => (Utt e.1, Utt e.2, [])) (reply_edges a) ++
  flat_map (fun e => map (fun r => (Usr e.1, Utt r, [])) e.2)
           (speaker_to_reply_tos a) ++
  map (fun e => (Usr e.1.1, Usr e.1.2, timestamp_payload e.2))
      (set_iter (speaker_target_pairs a)).

(** The graph after the Hypernode pass over the items [pre] of
    [username_to_utt_ids], started from [G1]. *)
Definition hypernodes_ok `{!SetOrder string} (G1 : Hypergraph vertex)
    (pre : list (User * list string)) (G : Hypergraph vertex) : Prop :=
  nodes G = nodes G1 /\ reachable G /\
  (forall k ms, (k, ms) ∈ hypernodes G ->
     exists u ids, (u, ids) ∈ pre /\ k = Usr u /\
                   ms = set_of_list (Utt <$> set_iter ids)) /\
  (forall u ids, (u, ids) ∈ pre -> dict_mem (Usr u) (hypernodes G) = true) /\
  (forall a b, stored (adj_out G) a b = None /\ stored (adj_in G) a b = None).

(** What [build] leaves: the locals [a] and the graph [G]. *)
Definition built `{!SetOrder string} `{!SetOrder (User * User * Z)}
    (uts : list (string * Utterance)) (exclude_id : option string)
    (a : locals) (G : Hypergraph vertex) : Prop :=
  locals_ok uts exclude_id (sort_by ut_timestamp uts.*2) a /\
  reachable G /\
  (forall k, dict_mem k (nodes G) = true <->
     exists ut, ut ∈ sort_by ut_timestamp uts.*2 /\
                Some (ut_id ut) <> exclude_id /\ k = Utt (ut_id ut)) /\
  (forall k ms, (k, ms) ∈ hypernodes G ->
     exists u ids, (u, ids) ∈ username_to_utt_ids a /\ k = Usr u /\
                   ms = set_of_list (Utt <$> set_iter ids)) /\
  (forall u ids, (u, ids) ∈ username_to_utt_ids a ->
     dict_mem (Usr u) (hypernodes G) = true) /\
  (forall x y,
     stored (adj_out G) x y = as_stored (payloads_for x y (edge_log a)) /\
     stored (adj_in G) y x = as_stored (payloads_for x y (edge_log a))).

(** ** Sample graphs and threads *)

Module Samples.
Open Scope string_scope.

(** Every set is iterated in insertion order. *)
Definition insertion_order (A : Type) : SetOrder A :=
  {| set_iter := fun s => s; set_iter_perm := fun s => reflexivity s |}.

(** The graph a list of operations leaves when run from [Hypergraph()]. *)
Definition graph_of (ops : list (@op string)) : Hypergraph string :=
  (run ops init).2.

(** Two Nodes and one edge between them. *)
Definition ops_ab : list (@op string) :=
  [AddNode "a" None; AddNode "b" None; AddEdge "a" "b" None].

(** The same, and then Node ["a"] inserted a second time. *)
Definition ops_ab_again : list (@op string) :=
  (ops_ab ++ [AddNode "a" None])%list.

(** Two Hypernodes, no edge. *)
Definition ops_AB : list (@op string) :=
  [AddHypernode "A" [] None; AddHypernode "B" [] None].

(** A Hypernode with incoming edges from two Nodes. *)
Definition ops_nodes_into_hypernode : list (@op string) :=
  [AddHypernode "A" [] None; AddNode "n1" None; AddNode "n2" None;
   AddEdge "n1" "A" None; AddEdge "n2" "A" None].

Definition alice : User := mkUser "alice".
Definition bob : User := mkUser "bob".

(** Every participant has an empty [meta]. *)
#[export] Instance no_meta : UserMeta := fun _ => [].

(** [np.argsort] as a stable sort. *)
#[export] Instance stable_argsort : ArgSort :=
  fun l => sort_by (fun i => nth i l 0%Z) (seq 0 (length l)).

(** [_make_hypergraph(uts=uts)] with every set iterated in insertion
    order. *)
Definition make (uts : list (string * Utterance))
  : result (Hypergraph vertex) :=
  @_make_hypergraph (insertion_order _) (insertion_order _) no_meta
    None (Some uts) None.

(** alice posts, bob replies. *)
Definition thread_ab : list (string * Utterance) :=
  [("m1", mkUtterance "m1" alice None 1 []);
   ("m2", mkUtterance "m2" bob (Some "m1") 2 [])].

(** alice posts and replies to herself. *)
Definition thread_self : list (string * Utterance) :=
  [("m1", mkUtterance "m1" alice None 1 []);
   ("m2", mkUtterance "m2" alice (Some "m1") 2 [])].

(** alice posts and replies to herself twice. *)
Definition thread_self_twice : list (string * Utterance) :=
  [("m1", mkUtterance "m1" alice None 1 []);
   ("m2", mkUtterance "m2" alice (Some "m1") 2 []);
   ("m3", mkUtterance "m3" alice (Some "m2") 3 [])].

(** bob posts; alice replies three times, twice at the same time. *)
Definition thread_same_ts : list (string * Utterance) :=
  [("m1", mkUtterance "m1" bob None 1 []);
   ("m2", mkUtterance "m2" alice (Some "m1") 5 []);
   ("m3", mkUtterance "m3" alice (Some "m1") 5 []);
   ("m4", mkUtterance "m4" alice (Some "m1") 7 [])].

(** The default [name_ext], the empty suffix of the full thread. *)
Definition no_ext : string := EmptyString.

(** A stand-in for [scipy.stats.entropy] where its value plays no
    part. *)
Definition no_entropy (pk : list Z) : npfloat := NaN.
End Samples.

(** ** The remaining methods of Hypergraph *)

Section HypergraphEdges.
Context {K : Type} `{EqDecision K}.

(** [dict(items)]: later items win over earlier ones with the same key. *)
Definition dict_of {A V} `{EqDecision A} (items : list (A * V))
  : list (A * V) :=
  foldl (fun d kv => dict_set kv.1 kv.2 d) [] items.

(** [((u, v), lst) for u, d in adj.items() for v, lst in d.items()] *)
Definition edge_items (adj : list (K * list (K * list Info)))
  : list ((K * K) * list Info) :=
  flat_map (fun ud => map (fun vl => ((ud.1, vl.1), vl.2)) ud.2) adj.

Definition edges (G : Hypergraph K) : list ((K * K) * list Info) :=
  dict_of (edge_items (adj_out G)).
End HypergraphEdges.

(** ** What the builder records, exactly *)

(** The reply the builder records for an utterance, if any: the id of
    its reply-target and the target utterance. *)
Definition reply_of (uts : list (string * Utterance))
    (exclude_id : option string) (ut : Utterance)
  : option (string * Utterance) :=
  if bool_decide (Some (ut_id ut) <> exclude_id) then
    match ut_reply_to ut with
    | Some r =>
        if dict_mem r uts && bool_decide (Some r <> exclude_id) then
          match dict_get r uts with
          | Some target => Some (r, target)
          | None => None
          end
        else None
    | None => None
    end
  else None.

(** The id of the recorded reply-target. *)
Definition replies_to (uts : list (string * Utterance))
    (exclude_id : option string) (ut : Utterance) : option string :=
  fst <$> reply_of uts exclude_id ut.

(** The utterances that are not the excluded one. *)
Definition included (exclude_id : option string) (l : list Utterance)
  : list Utterance :=
  filter (fun ut => Some (ut_id ut) <> exclude_id) l.

(** The locals after the utterances [pre] have gone through the loop,
    entry by entry and in order. *)
Definition locals_exact (uts : list (string * Utterance))
    (exclude_id : option string) (pre : list Utterance) (a : locals) : Prop :=
  dict_keys (username_to_utt_ids a) =
    set_of_list (ut_user <$> included exclude_id pre) /\
  (forall u ids, dict_get u (username_to_utt_ids a) = Some ids ->
     ids = set_of_list
             (ut_id <$> filter (fun ut => ut_user ut = u)
                               (included exclude_id pre))) /\
  reply_edges a =
    omap (fun ut => r ← replies_to uts exclude_id ut; Some (ut_id ut, r)) pre /\
  NoDup (dict_keys (speaker_to_reply_tos a)) /\
  (forall u,
     match dict_get u (speaker_to_reply_tos a) with
     | Some rs => rs
     | None => []
     end =
     omap (fun ut => if decide (ut_user ut = u)
                     then replies_to uts exclude_id ut else None) pre).

(** The Nodes after the utterances [pre] have gone through the loop, in
    order. *)
Definition nodes_order (exclude_id : option string) (pre : list Utterance)
    (G : Hypergraph vertex) : Prop :=
  dict_keys (nodes G) =
    set_of_list (Utt <$> (ut_id <$> included exclude_id pre)).

(** ** class HyperConvo: motif features and feature retrieval *)

(** A feature value: a degree statistic, a Python [bool] or an [int]. *)
Inductive featval :=
  | FStat (v : npval)
  | FBool (b : bool)
  | FInt (n : nat).

(** The two statistics of [_motif_feats], on the list a motif function
    returned. *)
Definition motif_stat_funcs {A} : list (string * (list A -> featval)) := [
  ("is-present", fun l => FBool (bool_decide (0 < length l)));
  ("count", fun l => FInt (length l))
]%string.

(** ["{}[{}{}]".format(stat, motif, name_ext)] *)
Definition motif_feat_name (stat motif name_ext : string) : string :=
  (stat +:+ "[" +:+ motif +:+ name_ext +:+ "]")%string.

(** One round of the loop over the motif functions: the call and the
    loop over [stat_funcs.items()]. *)
Definition motif_stats {A} (motif : string) (motif_func : result (list A))
    (name_ext : string) (stats : list (string * featval))
  : result (list (string * featval)) :=
  motifs ← motif_func;
  Ok (foldl (fun stats '(stat, stat_func) =>
               dict_set (motif_feat_name stat motif name_ext)
                        (stat_func motifs) stats)
            stats motif_stat_funcs).

Section FeatureRetrieval.
Context `{!SetOrder string} `{!SetOrder (User * User * Z)} `{!UserMeta}.
Context `{!SetOrder vertex}.
Variable entropy : list Z -> npfloat.
Context `{!ArgSort}.

Definition motif_feats_of (G : Hypergraph vertex) (name_ext : string)
  : result (list (string * featval)) :=
  stats ← motif_stats "reciprocity motif" (reciprocity_motifs G) name_ext [];
  stats ← motif_stats "external reciprocity motif"
            (external_reciprocity_motifs G) name_ext stats;
  stats ← motif_stats "dyadic interaction motif"
            (dyadic_interaction_motifs G) name_ext stats;
  stats ← motif_stats "incoming triads" (incoming_triad_motifs G)
            name_ext stats;
  motif_stats "outgoing triads" (outgoing_triad_motifs G) name_ext stats.

(** Here [uts] is passed by keyword, so a graph is built from it when
    [G] is not given. *)
Definition _motif_feats (uts : option (list (string * Utterance)))
    (G : option (Hypergraph vertex)) (name_ext : string)
    (exclude_id : option string) : result (list (string * featval)) :=
  match uts, G with
  | Some _, Some _ => Raise AssertionError
  | _, Some G => motif_feats_of G name_ext
  | _, None =>
      G ← _make_hypergraph None uts exclude_id; motif_feats_of G name_ext
  end.

(** [for k, v in d.items(): stats[k] = v] *)
Definition update_all {V W} (f : V -> W) (d : list (string * V))
    (stats : list (string * W)) : list (string * W) :=
  foldl (fun stats '(k, v) => dict_set k (f v) stats) stats d.

(** The body of the loop of [retrieve_feats] for a thread that is long
    enough. *)
Definition thread_stats (root : string) (thread : list (string * Utterance))
  : result (list (string * featval)) :=
  G ← _make_hypergraph None (Some thread) None;
  G_mid ← _make_hypergraph None (Some thread) (Some root);
  d ← _degree_feats entropy None (Some G) EmptyString None;
  let stats := update_all FStat d [] in
  m ← _motif_feats None (Some G) EmptyString None;
  let stats := update_all (fun v => v) m stats in
  d ← _degree_feats entropy None (Some G_mid) "mid-thread " None;
  let stats := update_all FStat d stats in
  m ← _motif_feats None (Some G_mid) " over mid-thread" None;
  Ok (update_all (fun v => v) m stats).

(** [threads] is the dict
    [corpus.utterance_threads(prefix_len=.., include_root=..)] returns,
    from the id of a thread's root to the utterances of the thread
    keyed by id. *)
Definition retrieve_feats
    (threads : list (string * list (string * Utterance)))
    (min_thread_len : Z)
  : result (list (string * list (string * featval))) :=
  fold_result (fun threads_stats '(root, thread) =>
      if (Z.of_nat (length thread) <? min_thread_len)%Z then Ok threads_stats
      else
        stats ← thread_stats root thread;
        Ok (dict_set root stats threads_stats))
    threads [].
End FeatureRetrieval.

(** ** Further sample graphs and threads *)

Module MoreSamples.
Import Samples.
Open Scope string_scope.

(** A Hypernode with one member, an edge from the Hypernode to a
    second Node and an edge from that Node to the member. *)
Definition ops_reciprocity : list (@op string) :=
  [AddNode "n1" None; AddNode "n2" None; AddHypernode "A" ["n1"] None;
   AddEdge "A" "n2" None; AddEdge "n2" "n1" None].

(** A Hypernode whose member was never added. *)
Definition ops_ghost_member : list (@op string) :=
  [AddHypernode "A" ["ghost"] None].

(** A Hypernode with edges to two Nodes. *)
Definition ops_hypernode_out : list (@op string) :=
  [AddHypernode "A" [] None; AddNode "n1" None; AddNode "n2" None;
   AddEdge "A" "n1" None; AddEdge "A" "n2" None].

(** Two Hypernodes with an edge in each direction. *)
Definition ops_dyadic : list (@op string) :=
  [AddHypernode "A" [] None; AddHypernode "B" [] None;
   AddEdge "A" "B" (Some (timestamp_payload 1));
   AddEdge "B" "A" (Some (timestamp_payload 2))].

(** A Hypernode with an edge to its member, and an edge from the
    member to a Node outside the Hypernode. *)
Definition ops_external : list (@op string) :=
  [AddNode "n1" None; AddNode "n2" None; AddHypernode "A" ["n2"] None;
   AddEdge "A" "n2" None; AddEdge "n2" "n1" None].

(** bob's utterance and two replies of alice to it, on the vertices of
    the builder. *)
Definition ops_replies : list (@op vertex) :=
  [AddNode (Utt "m1") None; AddNode (Utt "m2") None;
   AddNode (Utt "m3") None;
   AddHypernode (Usr bob) [Utt "m1"] None;
   AddHypernode (Usr alice) [Utt "m2"; Utt "m3"] None;
   AddEdge (Utt "m2") (Utt "m1") None; AddEdge (Utt "m3") (Utt "m1") None;
   AddEdge (Usr alice) (Utt "m1") None; AddEdge (Usr alice) (Utt "m1") None;
   AddEdge (Usr alice) (Usr bob) (Some (timestamp_payload 5))].

Definition graph_replies : Hypergraph vertex := (run ops_replies init).2.

(** A thread made of its root only. *)
Definition thread_root_only : list (string * Utterance) :=
  [("m1", mkUtterance "m1" alice None 1 [])].

(** The threads of a corpus with one conversation. *)
Definition threads_ab : list (string * list (string * Utterance)) :=
  [("m1", thread_ab)].
End MoreSamples.

(** * Properties *)

(** ** Dictionaries *)

Section PyDictFacts.
Context {K V : Type} `{EqDecision K}.
Implicit Types (k : K) (v : V) (d : list (K * V)).

Lemma dict_get_set_eq k v d : dict_get k (dict_set k v d) = Some v.
Proof.
  induction d as [|[k' v'] d IH]; simpl.
  - by rewrite decide_True.
  - destruct (decide (k = k')) as [->|Hne]; simpl.
    + by rewrite decide_True.
    + by rewrite decide_False.
Qed.

Lemma dict_get_set_ne k k' v d :
  k <> k' -> dict_get k' (dict_set k v d) = dict_get k' d.
Proof.
  intros Hne. induction d as [|[k0 v0] d IH]; simpl.
  - by rewrite decide_False.
  - destruct (decide (k = k0)) as [->|Hne0]; simpl.
    + by rewrite !decide_False.
    + by rewrite IH.
Qed.

Lemma dict_get_set k k' v d :
  dict_get k' (dict_set k v d) =
  if decide (k = k') then Some v else dict_get k' d.
Proof.
  case_decide; subst; auto using dict_get_set_eq, dict_get_set_ne.
Qed.

Lemma dict_mem_true k d : dict_mem k d = true <-> is_Some (dict_get k d).
Proof.
  unfold dict_mem. destruct (dict_get k d); split; intros HH; eauto.
  - discriminate.
  - by destruct HH.
Qed.

Lemma dict_mem_false k d : dict_mem k d = false <-> dict_get k d = None.
Proof. unfold dict_mem. destruct (dict_get k d); split; congruence. Qed.

Lemma dict_mem_set k k' v d :
  dict_mem k' (dict_set k v d) = bool_decide (k = k') || dict_mem k' d.
Proof.
  unfold dict_mem. rewrite dict_get_set.
  case_decide.
  - by rewrite bool_decide_eq_true_2.
  - by rewrite bool_decide_eq_false_2.
Qed.

Lemma dict_get_Some_elem k v d : dict_get k d = Some v -> (k, v) ∈ d.
Proof.
  induction d as [|[k' v'] d IH]; simpl; [done|].
  case_decide; intros; simplify_eq; [left | right; auto].
Qed.

Lemma dict_mem_keys k d : dict_mem k d = true <-> k ∈ dict_keys d.
Proof.
  unfold dict_mem, dict_keys.
  induction d as [|[k' v'] d IH]; simpl.
  - split; [done | by intros ?%elem_of_nil].
  - case_decide; subst.
    + split; [left | done].
    + rewrite IH. split; [by right | by intros [?|?]%elem_of_cons].
Qed.

Lemma dict_not_mem_keys k d : dict_mem k d = false <-> k ∉ dict_keys d.
Proof.
  rewrite <- dict_mem_keys. destruct (dict_mem k d); split; congruence.
Qed.

Lemma dict_set_absent k v d :
  dict_mem k d = false -> dict_set k v d = d ++ [(k, v)].
Proof.
  unfold dict_mem.
  induction d as [|[k' v'] d IH]; simpl; [done|].
  case_decide; [done|]. intros Hd. by rewrite IH.
Qed.

Lemma dict_keys_set_present k v d :
  dict_mem k d = true -> dict_keys (dict_set k v d) = dict_keys d.
Proof.
  unfold dict_mem, dict_keys.
  induction d as [|[k' v'] d IH]; simpl; [done|].
  case_decide; [done|]. intros Hd. simpl. f_equal. by apply IH.
Qed.

Lemma dict_keys_set k v d :
  dict_keys (dict_set k v d) =
  if dict_mem k d then dict_keys d else dict_keys d ++ [k].
Proof.
  destruct (dict_mem k d) eqn:Hm.
  - by apply dict_keys_set_present.
  - rewrite dict_set_absent by done. unfold dict_keys. by rewrite fmap_app.
Qed.

Lemma dict_set_NoDup k v d :
  NoDup (dict_keys d) -> NoDup (dict_keys (dict_set k v d)).
Proof.
  intros Hnd. rewrite dict_keys_set.
  destruct (dict_mem k d) eqn:Hm; [done|].
  apply NoDup_app. split_and!; [done| |apply NoDup_singleton].
  intros x Hx ->%list_elem_of_singleton.
  apply dict_mem_keys in Hx. congruence.
Qed.

Lemma dict_set_set k v v' d :
  dict_set k v (dict_set k v' d) = dict_set k v d.
Proof.
  induction d as [|[k0 v0] d IH]; simpl.
  - by rewrite decide_True.
  - destruct (decide (k = k0)) as [->|Hne]; simpl.
    + by rewrite decide_True.
    + by rewrite decide_False, IH.
Qed.

Lemma getitem_Ok k d v : getitem k d = Ok v <-> dict_get k d = Some v.
Proof. unfold getitem. destruct (dict_get k d); split; congruence. Qed.
End PyDictFacts.

(** ** The multigraph store: what each operation computes *)

Section StoreFacts.
Context {K : Type} `{EqDecision K}.
Implicit Types (G : Hypergraph K) (u v k : K) (info : option Info).

Lemma add_node_eq u info G :
  add_node u info G =
  (Ok tt, {| nodes := dict_set u (info_or_empty info) (nodes G);
             hypernodes := hypernodes G;
             adj_out := dict_set u [] (adj_out G);
             adj_in := dict_set u [] (adj_in G) |}).
Proof. reflexivity. Qed.

Lemma add_hypernode_eq u members info G :
  add_hypernode u members info G =
  (Ok tt, {| nodes := nodes G;
             hypernodes := dict_set u (set_of_list members) (hypernodes G);
             adj_out := dict_set u [] (adj_out G);
             adj_in := dict_set u [] (adj_in G) |}).
Proof. reflexivity. Qed.

Lemma add_edge_unregistered u v info G :
  registered G u && registered G v = false ->
  add_edge u v info G = (Raise AssertionError, G).
Proof.
  unfold registered, add_edge, mbind, ST_bind, get_state, py_assert.
  intros Hr.
  destruct (dict_mem u (nodes G) || dict_mem u (hypernodes G)); simpl;
    [|done].
  simpl in Hr. by rewrite Hr.
Qed.

Lemma ensure_append u v i adj d :
  dict_get u adj = Some d ->
  (out ← ensure_slot u v adj; append_edge u v i out) =
  Ok (dict_set u (dict_set v (edges_of v d ++ [i]) d) adj).
Proof.
  intros Hd. unfold ensure_slot, append_edge, getitem, edges_of, dict_mem.
  rewrite Hd. simpl.
  destruct (dict_get v d) as [l|] eqn:Hv; simpl.
  - rewrite Hd. simpl. by rewrite Hv.
  - rewrite dict_get_set_eq. simpl. rewrite dict_get_set_eq. simpl.
    by rewrite !dict_set_set.
Qed.

Lemma ensure_slot_Ok u v adj d :
  dict_get u adj = Some d -> exists adj', ensure_slot u v adj = Ok adj'.
Proof.
  intros Hd. unfold ensure_slot, getitem. rewrite Hd. simpl.
  destruct (dict_mem v d); eauto.
Qed.

Lemma add_edge_ok u v info G du dv :
  registered G u = true -> registered G v = true ->
  payload_ok G u v info ->
  dict_get u (adj_out G) = Some du -> dict_get v (adj_in G) = Some dv ->
  add_edge u v info G =
  (Ok tt, edge_added u v (info_or_empty info) du dv G).
Proof.
  intros Hu Hv Hp Hdu Hdv.
  pose proof (ensure_append u v (info_or_empty info) _ _ Hdu) as Hout.
  pose proof (ensure_append v u (info_or_empty info) _ _ Hdv) as Hin.
  unfold registered in Hu, Hv. unfold payload_ok in Hp.
  unfold add_edge, mbind at 1 2 3, ST_bind, get_state, py_assert.
  rewrite Hu, Hv. simpl.
  assert (Hpay :
    (if dict_mem u (hypernodes G) && dict_mem v (hypernodes G)
     then match info with
          | Some i => if bool_decide (0 < length (dict_keys i))
                      then mret tt else raise AssertionError
          | None => raise AttributeError
          end
     else mret tt) G = (Ok tt, G)).
  { destruct (dict_mem u (hypernodes G) && dict_mem v (hypernodes G));
      [|done].
    destruct Hp as (i & -> & Hi); [done|].
    rewrite bool_decide_eq_true_2; [done|].
    destruct i; [done|]. unfold dict_keys. simpl. lia. }
  unfold mbind at 1, ST_bind. rewrite Hpay.
  unfold mbind, ST_bind, lift, modify.
  destruct (ensure_slot u v (adj_out G)) as [out|] eqn:Ho;
    simpl in Hout; [|done].
  destruct (ensure_slot v u (adj_in G)) as [inn|] eqn:Hi;
    simpl in Hin; [|done].
  rewrite Hout, Hin. reflexivity.
Qed.

Lemma add_edge_inv u v info G G' :
  add_edge u v info G = (Ok tt, G') ->
  registered G u = true /\ registered G v = true /\
  payload_ok G u v info /\
  exists du dv,
    dict_get u (adj_out G) = Some du /\ dict_get v (adj_in G) = Some dv /\
    G' = edge_added u v (info_or_empty info) du dv G.
Proof.
  intros Hrun.
  destruct (registered G u) eqn:Hu;
    [|by rewrite add_edge_unregistered in Hrun by (by rewrite Hu)].
  destruct (registered G v) eqn:Hv;
    [|by rewrite add_edge_unregistered in Hrun by (by rewrite Hu, Hv)].
  assert (Hp : payload_ok G u v info).
  { intros Hhh. revert Hrun.
    unfold add_edge, mbind at 1 2 3, ST_bind, get_state, py_assert.
    unfold registered in Hu, Hv. rewrite Hu, Hv. simpl. rewrite Hhh.
    unfold mbind at 1, ST_bind.
    destruct info as [i|]; [|done].
    destruct i as [|x i]; [done|]. intros _. by exists (x :: i). }
  split_and!; [done..|].
  destruct (dict_get u (adj_out G)) as [du|] eqn:Hdu.
  - destruct (dict_get v (adj_in G)) as [dv|] eqn:Hdv.
    + exists du, dv. split_and!; [done..|].
      rewrite (add_edge_ok u v info G du dv) in Hrun by done. congruence.
    + exfalso. revert Hrun.
      unfold add_edge, mbind at 1 2 3, ST_bind, get_state, py_assert.
      unfold registered in Hu, Hv. rewrite Hu, Hv. simpl.
      unfold mbind at 1, ST_bind.
      destruct (_ : ST (Hypergraph K) unit) as [[[]|e] G1]; [|done].
      unfold mbind, ST_bind, lift, modify.
      destruct (ensure_slot_Ok u v _ _ Hdu) as [o ->].
      unfold ensure_slot at 1, getitem. rewrite Hdv. done.
  - exfalso. revert Hrun.
    unfold add_edge, mbind at 1 2 3, ST_bind, get_state, py_assert.
    unfold registered in Hu, Hv. rewrite Hu, Hv. simpl.
    unfold mbind at 1, ST_bind.
    destruct (_ : ST (Hypergraph K) unit) as [[[]|e] G1]; [|done].
    unfold mbind, ST_bind, lift, modify.
    unfold ensure_slot at 1, getitem. rewrite Hdu. done.
Qed.
End StoreFacts.

(** ** Invariants of reachable graphs *)

Section Invariants.
Context {K : Type} `{EqDecision K}.
Implicit Types (G : Hypergraph K) (u v k a b : K) (info : option Info).
Implicit Types (adj : list (K * list (K * list Info))).

Lemma stored_set adj u d a b :
  stored (dict_set u d adj) a b =
  if decide (u = a) then dict_get b d else stored adj a b.
Proof.
  unfold stored. rewrite dict_get_set. by case_decide.
Qed.

Lemma stored_Some_get adj a b l :
  stored adj a b = Some l ->
  exists d, dict_get a adj = Some d /\ dict_get b d = Some l.
Proof.
  unfold stored. destruct (dict_get a adj) as [d|]; simpl; [eauto|done].
Qed.

Lemma inner_NoDup_set adj u d :
  (forall k d', dict_get k adj = Some d' -> NoDup (dict_keys d')) ->
  NoDup (dict_keys d) ->
  forall k d', dict_get k (dict_set u d adj) = Some d' ->
               NoDup (dict_keys d').
Proof.
  intros Hadj Hd k d'. rewrite dict_get_set.
  case_decide; [congruence | apply Hadj].
Qed.

Lemma exec_adj_complete G o G' :
  adj_complete G -> exec o G = (Ok tt, G') -> adj_complete G'.
Proof.
  intros Hc Hrun. destruct o as [u info|u ms info|u v info]; simpl in Hrun.
  - rewrite add_node_eq in Hrun. injection Hrun as <-.
    intros k. unfold registered. simpl. rewrite !dict_mem_set.
    destruct (bool_decide (u = k)); [done|]. apply Hc.
  - rewrite add_hypernode_eq in Hrun. injection Hrun as <-.
    intros k. unfold registered. simpl. rewrite !dict_mem_set.
    destruct (bool_decide (u = k)); simpl.
    + by rewrite ?orb_true_r.
    + apply Hc.
  - apply add_edge_inv in Hrun as (_ & _ & _ & du & dv & _ & _ & ->).
    intros k Hk. unfold edge_added. simpl. rewrite !dict_mem_set.
    destruct (Hc k Hk) as [-> ->]. by rewrite !orb_true_r.
Qed.

Lemma exec_keys_once G o G' :
  keys_once G -> exec o G = (Ok tt, G') -> keys_once G'.
Proof.
  intros (Hn & Hh & Ho & Hi & Hoo & Hii) Hrun.
  destruct o as [u info|u ms info|u v info]; simpl in Hrun.
  - rewrite add_node_eq in Hrun. injection Hrun as <-.
    unfold keys_once; simpl.
    split_and!; try (by apply dict_set_NoDup); try done;
      by (apply inner_NoDup_set; [|apply NoDup_nil]).
  - rewrite add_hypernode_eq in Hrun. injection Hrun as <-.
    unfold keys_once; simpl.
    split_and!; try (by apply dict_set_NoDup); try done;
      by (apply inner_NoDup_set; [|apply NoDup_nil]).
  - apply add_edge_inv in Hrun as (_ & _ & _ & du & dv & Hdu & Hdv & ->).
    unfold keys_once, edge_added; simpl.
    split_and!; try (by apply dict_set_NoDup); try done.
    + apply inner_NoDup_set; [done|]. apply dict_set_NoDup. eauto.
    + apply inner_NoDup_set; [done|]. apply dict_set_NoDup. eauto.
Qed.

Lemma init_adj_complete : adj_complete (@init K).
Proof. intros k. by unfold registered. Qed.

Lemma init_keys_once : keys_once (@init K).
Proof.
  unfold keys_once; simpl. split_and!; try apply NoDup_nil; done.
Qed.

Lemma reachable_adj_complete G : reachable G -> adj_complete G.
Proof.
  induction 1; eauto using init_adj_complete, exec_adj_complete.
Qed.

Lemma reachable_keys_once G : reachable G -> keys_once G.
Proof. induction 1; eauto using init_keys_once, exec_keys_once. Qed.

Lemma reachable_fresh_reachable G : reachable_fresh G -> reachable G.
Proof. induction 1; eauto using reachable. Qed.

Lemma registered_mono G o G' k :
  exec o G = (Ok tt, G') -> registered G k = true -> registered G' k = true.
Proof.
  intros Hrun Hk. destruct o as [u info|u ms info|u v info]; simpl in Hrun.
  - rewrite add_node_eq in Hrun. injection Hrun as <-.
    unfold registered in *. simpl. rewrite dict_mem_set.
    destruct (bool_decide (u = k)); [done|]. done.
  - rewrite add_hypernode_eq in Hrun. injection Hrun as <-.
    unfold registered in *. simpl. rewrite dict_mem_set.
    destruct (bool_decide (u = k)); [by rewrite orb_true_r|]. done.
  - by apply add_edge_inv in Hrun as (_ & _ & _ & du & dv & _ & _ & ->).
Qed.

Lemma exec_neighbours_registered G o G' :
  neighbours_registered G -> exec o G = (Ok tt, G') ->
  neighbours_registered G'.
Proof.
  intros Hnr Hrun a b Hab.
  destruct o as [u info|u ms info|u v info].
  - eapply registered_mono; [done|].
    simpl in Hrun. rewrite add_node_eq in Hrun. injection Hrun as <-.
    simpl in Hab. rewrite !stored_set in Hab. apply (Hnr a b).
    case_decide; [|done]. by destruct Hab as [[? ?]|[? ?]].
  - eapply registered_mono; [done|].
    simpl in Hrun. rewrite add_hypernode_eq in Hrun. injection Hrun as <-.
    simpl in Hab. rewrite !stored_set in Hab. apply (Hnr a b).
    case_decide; [|done]. by destruct Hab as [[? ?]|[? ?]].
  - simpl in Hrun.
    apply add_edge_inv in Hrun as (Hu & Hv & _ & du & dv & Hdu & Hdv & ->).
    unfold edge_added in *. simpl in Hab. rewrite !stored_set in Hab.
    change (registered G b = true).
    destruct Hab as [Hab|Hab].
    + case_decide as Hua; [subst a|by eauto].
      rewrite dict_get_set in Hab. case_decide; [by subst|].
      apply (Hnr u b). left. unfold stored. by rewrite Hdu.
    + case_decide as Hva; [subst a|by eauto].
      rewrite dict_get_set in Hab. case_decide; [by subst|].
      apply (Hnr v b). right. unfold stored. by rewrite Hdv.
Qed.

Lemma fresh_not_stored G u a :
  neighbours_registered G -> registered G u = false ->
  stored (adj_out G) a u = None /\ stored (adj_in G) a u = None.
Proof.
  intros Hnr Hu.
  split; apply eq_None_not_Some; intros Hs.
  - rewrite (Hnr a u) in Hu by auto. done.
  - rewrite (Hnr a u) in Hu by auto. done.
Qed.

Lemma exec_mirrored G o G' :
  neighbours_registered G -> mirrored G -> inserts_fresh G o ->
  exec o G = (Ok tt, G') -> mirrored G'.
Proof.
  intros Hnr Hm Hf Hrun a b.
  destruct o as [u info|u ms info|u v info]; simpl in Hrun, Hf.
  - rewrite add_node_eq in Hrun. injection Hrun as <-. simpl.
    rewrite !stored_set.
    destruct (decide (u = a)) as [<-|Ha], (decide (u = b)) as [<-|Hb];
      try done.
    + symmetry. by apply fresh_not_stored.
    + by apply fresh_not_stored.
  - rewrite add_hypernode_eq in Hrun. injection Hrun as <-. simpl.
    rewrite !stored_set.
    destruct (decide (u = a)) as [<-|Ha], (decide (u = b)) as [<-|Hb];
      try done.
    + symmetry. by apply fresh_not_stored.
    + by apply fresh_not_stored.
  - apply add_edge_inv in Hrun as (_ & _ & _ & du & dv & Hdu & Hdv & ->).
    unfold edge_added. simpl. rewrite !stored_set, !dict_get_set.
    assert (Huv : dict_get v du = dict_get u dv).
    { specialize (Hm u v). unfold stored in Hm.
      by rewrite Hdu, Hdv in Hm. }
    destruct (decide (u = a)) as [<-|Ha], (decide (v = b)) as [<-|Hb];
      try done.
    + unfold edges_of. by rewrite Huv.
    + specialize (Hm u b). unfold stored in Hm at 1. by rewrite Hdu in Hm.
    + specialize (Hm a v). unfold stored in Hm at 2. by rewrite Hdv in Hm.
Qed.

Lemma reachable_fresh_invariants G :
  reachable_fresh G -> neighbours_registered G /\ mirrored G.
Proof.
  induction 1 as [|G o G' _ [IHn IHm] Hf Hrun].
  - split; [|done]. intros a b [[? ?]|[? ?]]; done.
  - eauto using exec_neighbours_registered, exec_mirrored.
Qed.
End Invariants.

(** ** Degree vectors and their sums *)

Section Degrees.
Context {K : Type} `{EqDecision K}.
Implicit Types (G : Hypergraph K) (u v k a b : K) (info : option Info).
Implicit Types (adj : list (K * list (K * list Info))).
Implicit Types (d : list (K * list Info)).

Lemma in_tier_tier G h k : in_tier G h k = true <-> k ∈ tier G h.
Proof. destruct h; apply dict_mem_keys. Qed.

Lemma in_tier_registered G h k :
  in_tier G h k = true -> registered G k = true.
Proof.
  unfold registered. destruct h; simpl; intros ->; [|done].
  by rewrite orb_true_r.
Qed.

Lemma run_reachable ops G G' :
  reachable G -> run ops G = (Ok tt, G') -> reachable G'.
Proof.
  unfold run. revert G. induction ops as [|o ops IH]; intros G HG; simpl.
  - intros [= <-]. done.
  - unfold mbind, ST_bind.
    destruct (exec o G) as [[[]|e] G1] eqn:Ho; [|done].
    intros Hrest. eapply IH; [|done]. by eapply reachable_step.
Qed.

Lemma run_fresh_reachable ops G G' :
  reachable_fresh G -> run_fresh ops G = Some G' -> reachable_fresh G'.
Proof.
  revert G. induction ops as [|o ops IH]; intros G HG; simpl.
  - intros [= <-]. done.
  - destruct (inserts_freshb G o) eqn:Hf; [|done].
    destruct (exec o G) as [[[]|e] G1] eqn:Ho; [|done].
    intros Hrest. eapply IH; [|done].
    eapply reachable_fresh_step; [done| |done].
    destruct o; simpl in *; try done; by apply negb_true_iff.
Qed.

Lemma traverse_Ok {A B} (f : A -> result B) (g : A -> B) (l : list A) :
  (forall x, x ∈ l -> f x = Ok (g x)) -> traverse f l = Ok (map g l).
Proof.
  induction l as [|x l IH]; intros Hf; simpl; [done|].
  rewrite Hf by left. simpl. rewrite IH; [done|].
  intros y Hy. apply Hf. by right.
Qed.

Lemma degrees_of_complete G adj src nb :
  (forall k, registered G k = true -> dict_mem k adj = true) ->
  traverse (fun u => d ← getitem u adj; Ok (degree G nb d)) (tier G src) =
  Ok (map (fun u => degree G nb (match dict_get u adj with
                                 | Some d => d | None => [] end))
          (tier G src)).
Proof.
  intros Hc. apply traverse_Ok. intros x Hx.
  apply in_tier_tier, in_tier_registered, Hc, dict_mem_true in Hx
    as [d Hd].
  unfold getitem. by rewrite Hd.
Qed.

Lemma outdegrees_complete G fh th :
  adj_complete G ->
  exists outs, outdegrees G fh th = Ok outs /\
               sum_list outs = out_total G fh th.
Proof.
  intros Hc. eexists. split; [|reflexivity].
  apply degrees_of_complete. intros k Hk. by apply Hc.
Qed.

Lemma indegrees_complete G fh th :
  adj_complete G ->
  exists ins, indegrees G fh th = Ok ins /\
              sum_list ins = in_total G fh th.
Proof.
  intros Hc. eexists. split; [|reflexivity].
  apply degrees_of_complete. intros k Hk. by apply Hc.
Qed.

Lemma degree_ext G G' h d :
  (forall k, k ∈ dict_keys d -> in_tier G' h k = in_tier G h k) ->
  degree G' h d = degree G h d.
Proof.
  unfold degree, dict_keys.
  induction d as [|[k l] d IH]; intros Hk; [done|].
  rewrite !filter_cons. simpl.
  rewrite (Hk k) by (simpl; left).
  assert (IH' := IH (fun k' Hk' => Hk k' (list_elem_of_further _ _ _ Hk'))).
  destruct (decide (in_tier G h k = true)); simpl; by rewrite IH'.
Qed.

Lemma degree_set G h v i d :
  degree G h (dict_set v (edges_of v d ++ [i]) d) =
  degree G h d + (if in_tier G h v then 1 else 0).
Proof.
  unfold degree, edges_of.
  induction d as [|[k l] d IH]; simpl.
  - rewrite filter_cons. simpl.
    case_decide as Hd; [|apply not_true_is_false in Hd]; by rewrite Hd.
  - destruct (decide (v = k)) as [->|Hne].
    + rewrite !filter_cons. simpl.
      case_decide as Hd; [|apply not_true_is_false in Hd]; rewrite Hd;
        simpl; [|lia].
      rewrite length_app. simpl. lia.
    + rewrite !filter_cons. simpl.
      case_decide; simpl; rewrite IH; lia.
Qed.

Lemma sum_map_update (f f' : K -> nat) (u : K) (n : nat) (l : list K) :
  NoDup l ->
  (forall w, w <> u -> f' w = f w) -> f' u = f u + n ->
  sum_list (map f' l) =
  sum_list (map f l) + (if decide (u ∈ l) then n else 0).
Proof.
  intros Hnd Hother Hu.
  induction Hnd as [|x l Hx Hnd IH].
  - destruct (decide (u ∈ [])) as [Hin|_]; [|done].
    by apply elem_of_nil in Hin.
  - cbn [map sum_list]. rewrite IH.
    destruct (decide (u ∈ l)) as [Hin|Hin],
             (decide (u ∈ x :: l)) as [Hin'|Hin'].
    + assert (x <> u) by (by intros ->). rewrite Hother by done. unfold id; lia.
    + exfalso. apply Hin'. by right.
    + apply elem_of_cons in Hin' as [<-|?]; [|done]. rewrite Hu. unfold id; lia.
    + assert (x <> u) by (intros ->; apply Hin'; left).
      rewrite Hother by done. unfold id; lia.
Qed.

Lemma total_same_tiers G G' adj src nb :
  nodes G' = nodes G -> hypernodes G' = hypernodes G ->
  total G' adj src nb = total G adj src nb.
Proof.
  intros Hn Hh. unfold total, degree, tier, in_tier. by rewrite Hn, Hh.
Qed.

Lemma total_edge G adj u v i d src nb :
  NoDup (tier G src) -> dict_get u adj = Some d ->
  total G (dict_set u (dict_set v (edges_of v d ++ [i]) d) adj) src nb =
  total G adj src nb + (if in_tier G src u && in_tier G nb v then 1 else 0).
Proof.
  intros Hnd Hd. unfold total.
  rewrite (sum_map_update
             (fun w => degree G nb (match dict_get w adj with
                                    | Some d => d | None => [] end))
             _ u (if in_tier G nb v then 1 else 0) _ Hnd).
  - f_equal. destruct (in_tier G src u) eqn:Hu; simpl.
    + rewrite decide_True; [done|]. by apply in_tier_tier.
    + rewrite decide_False; [done|]. rewrite <- in_tier_tier. congruence.
  - intros w Hw. by rewrite dict_get_set_ne.
  - rewrite dict_get_set_eq, Hd. apply degree_set.
Qed.

Lemma total_fresh G G' adj u src nb :
  (forall a b, is_Some (stored adj a b) -> registered G b = true) ->
  registered G u = false ->
  (forall h k, k <> u -> in_tier G' h k = in_tier G h k) ->
  (forall h, tier G' h = tier G h \/ tier G' h = tier G h ++ [u]) ->
  total G' (dict_set u [] adj) src nb = total G adj src nb.
Proof.
  intros Hnr Hu Hin Htier. unfold total.
  assert (Hold : forall w, w ∈ tier G src ->
    degree G' nb (match dict_get w (dict_set u [] adj) with
                  | Some d => d | None => [] end) =
    degree G nb (match dict_get w adj with Some d => d | None => [] end)).
  { intros w Hw.
    assert (w <> u) as Hne.
    { intros ->. apply in_tier_tier, in_tier_registered in Hw. congruence. }
    rewrite dict_get_set_ne by done.
    destruct (dict_get w adj) as [d|] eqn:Hd; [|done].
    apply degree_ext. intros k Hk. apply Hin. intros ->.
    apply dict_mem_keys, dict_mem_true in Hk.
    rewrite (Hnr w u) in Hu; [done|]. unfold stored. by rewrite Hd. }
  assert (Hmap :
    map (fun w => degree G' nb (match dict_get w (dict_set u [] adj) with
                                | Some d => d | None => [] end)) (tier G src)
    = map (fun w => degree G nb (match dict_get w adj with
                                 | Some d => d | None => [] end))
          (tier G src)).
  { apply map_ext_in. intros w Hw. apply Hold. by apply list_elem_of_In. }
  destruct (Htier src) as [->| ->].
  - by rewrite Hmap.
  - rewrite map_app, sum_list_with_app, Hmap. simpl.
    rewrite dict_get_set_eq. unfold degree. simpl. lia.
Qed.

Lemma totals_step G o G' fh th :
  keys_once G -> neighbours_registered G -> inserts_fresh G o ->
  exec o G = (Ok tt, G') ->
  out_total G fh th = in_total G fh th ->
  out_total G' fh th = in_total G' fh th.
Proof.
  intros (Hn & Hh & _) Hnr Hf Hrun Heq. unfold out_total, in_total in *.
  destruct o as [u i|u ms i|u v i]; simpl in Hrun, Hf.
  - rewrite add_node_eq in Hrun. injection Hrun as <-. simpl.
    assert (Hu : dict_mem u (nodes G) = false).
    { unfold registered in Hf. by apply orb_false_iff in Hf as [? ?]. }
    rewrite !(total_fresh G _ _ u); try done.
    + intros a b Hab. apply (Hnr a b). by right.
    + intros [] k Hk; simpl; [done|].
      rewrite dict_mem_set. by rewrite bool_decide_eq_false_2.
    + intros []; simpl; [by left|]. rewrite dict_keys_set, Hu. by right.
    + intros a b Hab. apply (Hnr a b). by left.
    + intros [] k Hk; simpl; [done|].
      rewrite dict_mem_set. by rewrite bool_decide_eq_false_2.
    + intros []; simpl; [by left|]. rewrite dict_keys_set, Hu. by right.
  - rewrite add_hypernode_eq in Hrun. injection Hrun as <-. simpl.
    assert (Hu : dict_mem u (hypernodes G) = false).
    { unfold registered in Hf. by apply orb_false_iff in Hf as [? ?]. }
    rewrite !(total_fresh G _ _ u); try done.
    + intros a b Hab. apply (Hnr a b). by right.
    + intros [] k Hk; simpl; [|done].
      rewrite dict_mem_set. by rewrite bool_decide_eq_false_2.
    + intros []; simpl; [|by left]. rewrite dict_keys_set, Hu. by right.
    + intros a b Hab. apply (Hnr a b). by left.
    + intros [] k Hk; simpl; [|done].
      rewrite dict_mem_set. by rewrite bool_decide_eq_false_2.
    + intros []; simpl; [|by left]. rewrite dict_keys_set, Hu. by right.
  - apply add_edge_inv in Hrun as (_ & _ & _ & du & dv & Hdu & Hdv & ->).
    unfold edge_added. simpl.
    rewrite !(total_same_tiers G (mkHypergraph _ _ _ _)) by done.
    rewrite !total_edge; try done.
    + rewrite Heq. f_equal. by rewrite andb_comm.
    + by destruct th.
    + by destruct fh.
Qed.

Lemma reachable_fresh_totals G fh th :
  reachable_fresh G -> out_total G fh th = in_total G fh th.
Proof.
  induction 1 as [|G o G' HG IH Hf Hrun].
  - by destruct fh, th.
  - eapply totals_step; eauto.
    + by apply reachable_keys_once, reachable_fresh_reachable.
    + by apply reachable_fresh_invariants.
Qed.
End Degrees.

(** ** Claims about the multigraph store *)

Section StoreClaims.
Context {K : Type} `{EqDecision K}.
Implicit Types (G : Hypergraph K) (u v k a b : K) (info : option Info).

Lemma dict_get_filter_key {V} (f : K -> bool) k (d : list (K * V)) :
  dict_get k (filter (fun kv => f kv.1 = true) d) =
  if f k then dict_get k d else None.
Proof.
  induction d as [|[k' x] d IH]; simpl.
  - by destruct (f k).
  - rewrite filter_cons. simpl.
    destruct (decide (k = k')) as [->|Hne].
    + case_decide as Hf; [|apply not_true_is_false in Hf]; rewrite Hf.
      * simpl. by rewrite decide_True.
      * rewrite IH. by rewrite Hf.
    + case_decide as Hf; [simpl; rewrite decide_False by done|]; apply IH.
Qed.

Lemma add_edge_hypernodes_no_payload G C1 C2 :
  dict_mem C1 (hypernodes G) = true -> dict_mem C2 (hypernodes G) = true ->
  add_edge C1 C2 None G = (Raise AttributeError, G) /\
  add_edge C1 C2 (Some []) G = (Raise AssertionError, G).
Proof.
  intros H1 H2.
  split.
  - unfold add_edge, mbind at 1 2 3, ST_bind, get_state, py_assert.
    rewrite H1, H2, !orb_true_r. simpl. reflexivity.
  - unfold add_edge, mbind at 1 2 3, ST_bind, get_state, py_assert.
    rewrite H1, H2, !orb_true_r. simpl. reflexivity.
Qed.

Lemma neighbours_lookup adj G h a b d :
  dict_get a adj = Some d -> in_tier G h b = true ->
  (ns ← neighbours adj G h a; getitem b ns) = getitem b d.
Proof.
  intros Hd Hb. unfold neighbours, dict_mem, getitem.
  rewrite Hd. simpl.
  rewrite (dict_get_filter_key (fun k => in_tier G h k)). by rewrite Hb.
Qed.

(** C2, as the code has it: [add_node] never fails.  It stores the
    metadata under the identity and gives the identity two empty
    adjacency dicts, whether or not the identity was present; the
    Hypernodes and every other identity's entries are left as they
    were. *)
Theorem add_node_always_succeeds G u info :
  exists G',
    add_node u info G = (Ok tt, G') /\
    dict_get u (nodes G') = Some (info_or_empty info) /\
    dict_get u (adj_out G') = Some [] /\
    dict_get u (adj_in G') = Some [] /\
    hypernodes G' = hypernodes G /\
    forall k, k <> u ->
      dict_get k (nodes G') = dict_get k (nodes G) /\
      dict_get k (adj_out G') = dict_get k (adj_out G) /\
      dict_get k (adj_in G') = dict_get k (adj_in G).
Proof.
  eexists. split; [apply add_node_eq|]. simpl.
  rewrite !dict_get_set_eq. split_and!; try done.
  intros k Hk. by rewrite !dict_get_set_ne.
Qed.

(** C3, amended: in a graph reached by successful operations that
    insert no identity twice, both degree vectors are computed and
    their sums agree, for every pair of tiers. *)
Theorem degree_sums_agree G from_hyper to_hyper :
  reachable_fresh G ->
  exists outs ins,
    outdegrees G from_hyper to_hyper = Ok outs /\
    indegrees G from_hyper to_hyper = Ok ins /\
    sum_list outs = sum_list ins.
Proof.
  intros HG.
  assert (Hc : adj_complete G)
    by by apply reachable_adj_complete, reachable_fresh_reachable.
  destruct (outdegrees_complete G from_hyper to_hyper Hc) as (outs & Ho & So).
  destruct (indegrees_complete G from_hyper to_hyper Hc) as (ins & Hi & Si).
  exists outs, ins. split_and!; [done..|].
  rewrite So, Si. by apply reachable_fresh_totals.
Qed.

(** C4: between two registered Hypernodes, [add_edge] raises when the
    payload is omitted or empty and leaves the graph as it was; with a
    non-empty payload it succeeds, and the payload is the last edge
    instance both in the outgoing-Hypernode query of the source and in
    the incoming-Hypernode query of the target. *)
Theorem add_edge_between_hypernodes G C1 C2 :
  reachable G ->
  dict_mem C1 (hypernodes G) = true -> dict_mem C2 (hypernodes G) = true ->
  add_edge C1 C2 None G = (Raise AttributeError, G) /\
  add_edge C1 C2 (Some []) G = (Raise AssertionError, G) /\
  forall payload, payload <> [] ->
    exists G',
      add_edge C1 C2 (Some payload) G = (Ok tt, G') /\
      (outs ← outgoing_hypernodes G' C1; getitem C2 outs) =
        Ok (edge_list (adj_out G) C1 C2 ++ [payload]) /\
      (ins ← incoming_hypernodes G' C2; getitem C1 ins) =
        Ok (edge_list (adj_in G) C2 C1 ++ [payload]).
Proof.
  intros HG H1 H2.
  destruct (add_edge_hypernodes_no_payload G C1 C2 H1 H2) as [Hnone Hempty].
  split_and!; [done..|]. intros payload Hp.
  assert (Hr1 : registered G C1 = true)
    by (unfold registered; by rewrite H1, orb_true_r).
  assert (Hr2 : registered G C2 = true)
    by (unfold registered; by rewrite H2, orb_true_r).
  destruct (reachable_adj_complete G HG C1 Hr1) as [[du Hdu]%dict_mem_true _].
  destruct (reachable_adj_complete G HG C2 Hr2) as [_ [dv Hdv]%dict_mem_true].
  eexists. split; [|split].
  - apply (add_edge_ok C1 C2 (Some payload) G du dv); try done.
    intros _. by exists payload.
  - unfold outgoing_hypernodes, edge_added. simpl.
    erewrite neighbours_lookup; [|apply dict_get_set_eq|by simpl].
    unfold getitem. rewrite dict_get_set_eq.
    unfold edge_list, stored, edges_of. by rewrite Hdu.
  - unfold incoming_hypernodes, edge_added. simpl.
    erewrite neighbours_lookup; [|apply dict_get_set_eq|by simpl].
    unfold getitem. rewrite dict_get_set_eq.
    unfold edge_list, stored, edges_of. by rewrite Hdv.
Qed.

(** C5: [add_edge] with an endpoint that is neither a Node nor a
    Hypernode raises, whatever the payload, and the graph it leaves is
    the graph it was given. *)
Theorem add_edge_unknown_endpoint G u v info :
  registered G u = false \/ registered G v = false ->
  add_edge u v info G = (Raise AssertionError, G).
Proof.
  intros Huv. apply add_edge_unregistered.
  destruct Huv as [-> | ->]; [done | apply andb_false_r].
Qed.

(** C9: in a graph reached by successful operations that insert no
    identity twice, what [adj_out[u]] stores under [v] is what
    [adj_in[v]] stores under [u]: the same edge instances in the same
    order, or nothing on both sides. *)
Theorem adjacency_mirrored G u v :
  reachable_fresh G ->
  stored (adj_out G) u v = stored (adj_in G) v u.
Proof. intros HG. by apply reachable_fresh_invariants. Qed.
End StoreClaims.

(** ** The store claims on sample graphs *)

Section StoreSamples.
Import Samples.
Open Scope string_scope.

Lemma graph_of_fresh (ops : list (@op string)) :
  run_fresh ops init = Some (graph_of ops) -> reachable_fresh (graph_of ops).
Proof. apply run_fresh_reachable. constructor. Qed.

Lemma graph_of_reachable (ops : list (@op string)) :
  (run ops init).1 = Ok tt -> reachable (graph_of ops).
Proof.
  intros Hrun. apply (run_reachable ops init); [constructor|].
  unfold graph_of. destruct (run ops init) as [r G]. simpl in *. by subst.
Qed.

(** C2, as stated, fails: Node ["a"] of [graph_of ops_ab] has an edge
    to ["b"]; inserting ["a"] again returns normally and leaves ["a"]
    with an empty outgoing adjacency. *)
Lemma add_node_existing_id_succeeds :
  registered (graph_of ops_ab) "a" = true /\
  stored (adj_out (graph_of ops_ab)) "a" "b" = Some [[]] /\
  (add_node "a" None (graph_of ops_ab)).1 = Ok tt /\
  dict_get "a" (adj_out (add_node "a" None (graph_of ops_ab)).2) = Some [].
Proof. vm_compute. done. Qed.

(** C3, as stated, fails: after the second insertion of ["a"] every
    operation has succeeded, the Node-to-Node outdegrees add up to 0
    and the indegrees to 1. *)
Lemma degree_sums_differ_after_reinsertion :
  reachable (graph_of ops_ab_again) /\
  outdegrees (graph_of ops_ab_again) false false = Ok [0; 0] /\
  indegrees (graph_of ops_ab_again) false false = Ok [0; 1].
Proof.
  split; [|by vm_compute]. apply graph_of_reachable. by vm_compute.
Qed.

Lemma degree_sums_agree_witness :
  reachable_fresh (graph_of ops_ab) /\
  exists outs ins,
    outdegrees (graph_of ops_ab) false false = Ok outs /\
    indegrees (graph_of ops_ab) false false = Ok ins /\
    sum_list outs = sum_list ins.
Proof.
  assert (Hf : reachable_fresh (graph_of ops_ab))
    by (apply (graph_of_fresh ops_ab); vm_compute; reflexivity).
  split; [exact Hf|].
  exact (degree_sums_agree (graph_of ops_ab) false false Hf).
Defined.

Lemma add_edge_between_hypernodes_witness :
  reachable (graph_of ops_AB) /\
  add_edge "A" "B" None (graph_of ops_AB) =
    (Raise AttributeError, graph_of ops_AB) /\
  add_edge "A" "B" (Some []) (graph_of ops_AB) =
    (Raise AssertionError, graph_of ops_AB) /\
  forall payload, payload <> [] ->
    exists G',
      add_edge "A" "B" (Some payload) (graph_of ops_AB) = (Ok tt, G') /\
      (outs ← outgoing_hypernodes G' "A"; getitem "B" outs) =
        Ok (edge_list (adj_out (graph_of ops_AB)) "A" "B" ++ [payload])%list /\
      (ins ← incoming_hypernodes G' "B"; getitem "A" ins) =
        Ok (edge_list (adj_in (graph_of ops_AB)) "B" "A" ++ [payload])%list.
Proof.
  assert (Hr : reachable (graph_of ops_AB))
    by (apply graph_of_reachable; vm_compute; reflexivity).
  split; [exact Hr|].
  apply (add_edge_between_hypernodes (graph_of ops_AB) "A" "B" Hr);
    vm_compute; reflexivity.
Defined.

Lemma add_edge_unknown_endpoint_witness :
  registered (graph_of ops_ab) "x" = false /\
  add_edge "a" "x" None (graph_of ops_ab) =
    (Raise AssertionError, graph_of ops_ab).
Proof.
  split; [vm_compute; reflexivity|].
  apply (add_edge_unknown_endpoint (graph_of ops_ab) "a" "x" None).
  right. vm_compute. reflexivity.
Defined.

Lemma adjacency_mirrored_witness :
  reachable_fresh (graph_of ops_ab) /\
  stored (adj_out (graph_of ops_ab)) "a" "b" =
  stored (adj_in (graph_of ops_ab)) "b" "a".
Proof.
  assert (Hf : reachable_fresh (graph_of ops_ab))
    by (apply (graph_of_fresh ops_ab); vm_compute; reflexivity).
  split; [exact Hf|].
  exact (adjacency_mirrored (graph_of ops_ab) "a" "b" Hf).
Defined.
End StoreSamples.

(** ** Loops over the store *)

Section Loops.
Context {K : Type} `{EqDecision K}.
Implicit Types (G : Hypergraph K) (u v k a b : K) (info : option Info).

Lemma for_invariant_from {S A} (I : list A -> S -> Prop)
    (body : A -> ST S unit) (l pre : list A) (s : S) :
  (forall pre' x s, I pre' s -> x ∈ l ->
     exists s', body x s = (Ok tt, s') /\ I (pre' ++ [x]) s') ->
  I pre s ->
  exists s', for_ l body s = (Ok tt, s') /\ I (pre ++ l) s'.
Proof.
  revert pre s. induction l as [|x l IH]; intros pre s Hstep HI; simpl.
  - exists s. by rewrite app_nil_r.
  - destruct (Hstep pre x s HI) as (s1 & Hx & HI1); [left|].
    unfold mbind, ST_bind. rewrite Hx.
    destruct (IH (pre ++ [x]) s1) as (s' & Hl & HI'); [|done|].
    + intros pre' y s0 H0 Hy. apply Hstep; [done | by right].
    + exists s'. by rewrite <- app_assoc in HI'.
Qed.

Lemma for_invariant {S A} (I : list A -> S -> Prop)
    (body : A -> ST S unit) (l : list A) (s : S) :
  (forall pre x s, I pre s -> x ∈ l ->
     exists s', body x s = (Ok tt, s') /\ I (pre ++ [x]) s') ->
  I [] s ->
  exists s', for_ l body s = (Ok tt, s') /\ I l s'.
Proof. intros Hstep HI. by apply (for_invariant_from I body l [] s). Qed.

Lemma for_map {S A B} (g : A -> B) (body : B -> ST S unit) (l : list A) s :
  for_ (map g l) body s = for_ l (fun x => body (g x)) s.
Proof.
  revert s. induction l as [|x l IH]; intros s; simpl; [done|].
  unfold mbind, ST_bind. destruct (body (g x) s) as [[[]|e] s1]; [|done].
  apply IH.
Qed.

Lemma for_app {S A} (body : A -> ST S unit) (l1 l2 : list A) s :
  for_ (l1 ++ l2) body s = (for_ l1 body;; for_ l2 body) s.
Proof.
  revert s. induction l1 as [|x l1 IH]; intros s; simpl.
  - unfold mbind, ST_bind. simpl. done.
  - unfold mbind, ST_bind in *.
    destruct (body x s) as [[[]|e] s1]; [|done]. apply IH.
Qed.

Lemma for_nested {S A B C} (g : A -> B -> C) (body : C -> ST S unit)
    (l : list (A * list B)) s :
  for_ l (fun e => for_ e.2 (fun y => body (g e.1 y))) s =
  for_ (flat_map (fun e => map (g e.1) e.2) l) body s.
Proof.
  revert s. induction l as [|[x ys] l IH]; intros s; simpl; [done|].
  rewrite for_app. unfold mbind, ST_bind.
  rewrite for_map. simpl.
  destruct (for_ ys _ s) as [[[]|e] s1]; [|done]. apply IH.
Qed.

Lemma map_flat_map {A B C} (g : B -> C) (f : A -> list B) (l : list A) :
  map g (flat_map f l) = flat_map (fun x => map g (f x)) l.
Proof.
  induction l as [|x l IH]; simpl; [done|]. by rewrite map_app, IH.
Qed.

Lemma payloads_for_snoc a b (log : list (K * K * Info)) u v i :
  payloads_for a b (log ++ [(u, v, i)]) =
  payloads_for a b log ++ (if decide (u = a /\ v = b) then [i] else []).
Proof.
  unfold payloads_for. rewrite omap_app. simpl. by case_decide.
Qed.

Lemma stored_as_stored adj a b (l : list Info) :
  stored adj a b = as_stored l -> edge_list adj a b = l.
Proof. unfold edge_list. intros ->. by destruct l. Qed.

Lemma add_edge_logged G0 G log u v info :
  logged G0 G log ->
  registered G0 u = true -> registered G0 v = true ->
  payload_ok G0 u v info ->
  exists G', add_edge u v info G = (Ok tt, G') /\
             logged G0 G' (log ++ [(u, v, info_or_empty info)]).
Proof.
  intros (Hn & Hh & Hr & Hlog) Hu Hv Hp.
  assert (Hu' : registered G u = true)
    by (unfold registered in *; by rewrite Hn, Hh).
  assert (Hv' : registered G v = true)
    by (unfold registered in *; by rewrite Hn, Hh).
  assert (Hp' : payload_ok G u v info)
    by (unfold payload_ok in *; by rewrite Hh).
  pose proof (reachable_adj_complete G Hr) as Hc.
  destruct (Hc u Hu') as [[du Hdu]%dict_mem_true _].
  destruct (Hc v Hv') as [_ [dv Hdv]%dict_mem_true].
  pose proof (add_edge_ok u v info G du dv Hu' Hv' Hp' Hdu Hdv) as Hrun.
  eexists. split; [exact Hrun|].
  split_and!; [done | done | |].
  - apply (reachable_step G (AddEdge u v info)); done.
  - intros a b. unfold edge_added. simpl.
    rewrite !stored_set, !dict_get_set, payloads_for_snoc.
    destruct (Hlog a b) as [Hout Hin].
    destruct (decide (u = a)) as [<-|Ha], (decide (v = b)) as [<-|Hb].
    + rewrite decide_True by done.
      pose proof (stored_as_stored _ _ _ _ Hout) as Eo.
      pose proof (stored_as_stored _ _ _ _ Hin) as Ei.
      unfold edge_list, stored in Eo, Ei. rewrite Hdu in Eo.
      rewrite Hdv in Ei. simpl in Eo, Ei.
      unfold edges_of. rewrite Eo, Ei.
      by destruct (payloads_for u v log).
    + rewrite decide_False by (by intros [_ ?]). rewrite app_nil_r.
      split; [|done]. rewrite <- Hout. unfold stored. by rewrite Hdu.
    + rewrite decide_False by (by intros [? _]). rewrite app_nil_r.
      split; [done|]. rewrite <- Hin. unfold stored. by rewrite Hdv.
    + rewrite decide_False by (by intros [? _]). by rewrite app_nil_r.
Qed.

Lemma for_ext {S A} (f g : A -> ST S unit) (l : list A) s :
  (forall x s, f x s = g x s) -> for_ l f s = for_ l g s.
Proof.
  intros Hfg. revert s. induction l as [|x l IH]; intros s; simpl; [done|].
  unfold mbind, ST_bind. rewrite Hfg.
  destruct (g x s) as [[[]|e] s1]; [|done]. apply IH.
Qed.

Lemma add_edges_logged G0 G log (es : list (K * K * option Info)) :
  logged G0 G log ->
  (forall e, e ∈ es ->
     registered G0 e.1.1 = true /\ registered G0 e.1.2 = true /\
     payload_ok G0 e.1.1 e.1.2 e.2) ->
  exists G',
    for_ es (fun e => add_edge e.1.1 e.1.2 e.2) G = (Ok tt, G') /\
    logged G0 G'
      (log ++ map (fun e => (e.1.1, e.1.2, info_or_empty e.2)) es).
Proof.
  intros Hlog Hes.
  apply (for_invariant_from
           (fun pre G' =>
              logged G0 G'
                (log ++ map (fun e => (e.1.1, e.1.2, info_or_empty e.2)) pre))
           _ es [] G).
  - intros pre [[u v] i] G1 H1 Hin.
    destruct (Hes _ Hin) as (Hu & Hv & Hp). simpl in *.
    destruct (add_edge_logged G0 G1 _ u v i H1 Hu Hv Hp) as (G' & Hrun & H').
    exists G'. split; [done|].
    by rewrite map_app, app_assoc.
  - simpl. by rewrite app_nil_r.
Qed.
End Loops.

(** ** More on dictionaries, sets and sorting *)

Section ContainerFacts.
Context {K V : Type} `{EqDecision K}.

Lemma elem_of_dict_set (k k' : K) (v v' : V) (d : list (K * V)) :
  (k', v') ∈ dict_set k v d -> (k', v') ∈ d \/ (k' = k /\ v' = v).
Proof.
  induction d as [|[k0 v0] d IH]; simpl.
  - intros [= -> ->]%list_elem_of_singleton. by right.
  - case_decide; subst.
    + intros [[= -> ->]|Hin]%elem_of_cons; [by right|].
      left. by right.
    + intros [[= -> ->]|Hin]%elem_of_cons; [left; left|].
      destruct (IH Hin) as [?|?]; [left; by right | by right].
Qed.

Lemma dict_mem_elem (k : K) (d : list (K * V)) :
  dict_mem k d = true <-> exists v, (k, v) ∈ d.
Proof.
  rewrite dict_mem_keys. unfold dict_keys. rewrite list_elem_of_fmap.
  split.
  - intros ([k' v] & -> & Hin). by exists v.
  - intros (v & Hin). by exists (k, v).
Qed.

Lemma dict_get_elem (k : K) (v : V) (d : list (K * V)) :
  NoDup (dict_keys d) -> (k, v) ∈ d -> dict_get k d = Some v.
Proof.
  unfold dict_keys. induction d as [|[k0 v0] d IH]; simpl.
  - by intros _ ?%elem_of_nil.
  - intros [Hk0 Hnd]%NoDup_cons [[= -> ->]|Hin]%elem_of_cons.
    + by rewrite decide_True.
    + rewrite decide_False; [by apply IH|].
      intros ->. apply Hk0. apply list_elem_of_fmap. by exists (k0, v).
Qed.

Lemma set_add_elem (x y : K) (s : list K) :
  x ∈ set_add y s <-> x = y \/ x ∈ s.
Proof.
  unfold set_add, set_mem. case_bool_decide.
  - split; [by right | intros [->|?]; done].
  - rewrite elem_of_app, list_elem_of_singleton. tauto.
Qed.

Lemma set_add_NoDup (y : K) (s : list K) : NoDup s -> NoDup (set_add y s).
Proof.
  intros Hs. unfold set_add, set_mem. case_bool_decide; [done|].
  apply NoDup_app. split_and!; [done| |apply NoDup_singleton].
  by intros x Hx ->%list_elem_of_singleton.
Qed.

Lemma set_of_list_elem (x : K) (l : list K) : x ∈ set_of_list l <-> x ∈ l.
Proof.
  unfold set_of_list.
  assert (Hgen : forall s, x ∈ foldl (fun s x => set_add x s) s l <->
                           x ∈ s \/ x ∈ l).
  { induction l as [|y l IH]; intros s; simpl.
    - split; [by left | by intros [?|?%elem_of_nil]].
    - rewrite IH, set_add_elem, elem_of_cons. tauto. }
  rewrite Hgen. split; [by intros [?%elem_of_nil|?] | by right].
Qed.

Lemma insert_by_perm (key : V -> Z) (x : V) (l : list V) :
  insert_by key x l ≡ₚ x :: l.
Proof.
  induction l as [|y l IH]; simpl; [done|].
  destruct (key y <? key x)%Z; [|done].
  rewrite IH. apply Permutation_swap.
Qed.

Lemma sort_by_perm (key : V -> Z) (l : list V) : sort_by key l ≡ₚ l.
Proof.
  unfold sort_by. induction l as [|x l IH]; simpl; [done|].
  by rewrite insert_by_perm, IH.
Qed.
End ContainerFacts.

Section DefaultDictFacts.
Context {K V : Type} `{EqDecision K}.

Lemma elem_of_defaultdict_append (k k' : K) (x : V) (l' : list V)
    (d : list (K * list V)) :
  (k', l') ∈ defaultdict_append k x d ->
  (k', l') ∈ d \/
  (k' = k /\ exists old, l' = old ++ [x] /\ (old = [] \/ (k, old) ∈ d)).
Proof.
  unfold defaultdict_append.
  destruct (dict_get k d) as [old|] eqn:Hget;
    intros [?|[-> ->]]%elem_of_dict_set; auto; right; split; try done.
  - exists old. split; [done|]. right. by apply dict_get_Some_elem.
  - exists []. auto.
Qed.
End DefaultDictFacts.

(** ** The graph builder *)

Section BuilderFacts.
Context `{!SetOrder string} `{!SetOrder (User * User * Z)} `{!UserMeta}.
Implicit Types (uts : list (string * Utterance)) (ex : option string).
Implicit Types (ut : Utterance) (a : locals) (G : Hypergraph vertex).

Lemma node_step_excluded uts ex ut a G :
  Some (ut_id ut) = ex -> node_step uts ex ut a G = (Ok a, G).
Proof.
  intros He. unfold node_step. rewrite bool_decide_eq_false_2; [done|].
  by intros ?.
Qed.

Lemma node_step_included uts ex ut a G :
  Some (ut_id ut) <> ex ->
  exists a',
    node_step uts ex ut a G =
      (Ok a', (add_node (Utt (ut_id ut)) (Some (ut_dict ut)) G).2) /\
    username_to_utt_ids a' =
      dict_set (ut_user ut)
        (set_add (ut_id ut)
           (match dict_get (ut_user ut) (username_to_utt_ids a) with
            | Some ids => ids | None => [] end))
        (username_to_utt_ids a) /\
    ((exists r target,
        recorded uts ex ut r target /\
        reply_edges a' = reply_edges a ++ [(ut_id ut, r)] /\
        speaker_to_reply_tos a' =
          defaultdict_append (ut_user ut) r (speaker_to_reply_tos a) /\
        speaker_target_pairs a' =
          set_add (ut_user ut, ut_user target, ut_timestamp ut)
                  (speaker_target_pairs a)) \/
     ((forall r target, ~ recorded uts ex ut r target) /\
      reply_edges a' = reply_edges a /\
      speaker_to_reply_tos a' = speaker_to_reply_tos a /\
      speaker_target_pairs a' = speaker_target_pairs a)).
Proof.
  intros Hex. unfold node_step. rewrite bool_decide_eq_true_2 by done.
  set (u2i0 := if dict_mem _ _ then _ else _).
  set (ids0 := match dict_get (ut_user ut) (username_to_utt_ids a) with
               | Some ids => ids | None => [] end).
  assert (Hids : getitem (ut_user ut) u2i0 = Ok ids0 /\
                 dict_set (ut_user ut) (set_add (ut_id ut) ids0) u2i0 =
                 dict_set (ut_user ut) (set_add (ut_id ut) ids0)
                          (username_to_utt_ids a)).
  { unfold u2i0, ids0, dict_mem, getitem.
    destruct (dict_get (ut_user ut) (username_to_utt_ids a)) as [ids|] eqn:E.
    - by rewrite E.
    - by rewrite dict_get_set_eq, dict_set_set. }
  destruct Hids as [Hget Hset].
  unfold mbind at 1, ST_bind, lift. rewrite Hget, Hset.
  destruct (ut_reply_to ut) as [r|] eqn:Hr.
  - destruct (dict_mem r uts && bool_decide (Some r ≠ ex)) eqn:Hc.
    + apply andb_true_iff in Hc as [[target Ht]%dict_mem_true Hne].
      apply bool_decide_eq_true in Hne.
      unfold getitem. rewrite Ht.
      eexists. split; [reflexivity|]. simpl. split; [done|].
      left. exists r, target. split; [by unfold recorded | done].
    + eexists. split; [reflexivity|]. simpl. split; [done|].
      right. split_and!; try done.
      intros r' target (_ & Hr' & Ht & Hne). simplify_eq.
      apply andb_false_iff in Hc as [Hc|Hc].
      * apply dict_mem_false in Hc. congruence.
      * by apply bool_decide_eq_false in Hc.
  - eexists. split; [reflexivity|]. simpl. split; [done|].
    right. split_and!; try done.
    intros r' target (_ & Hr' & _). congruence.
Qed.
Lemma locals_ok_excluded uts ex pre ut a :
  Some (ut_id ut) = ex ->
  locals_ok uts ex pre a -> locals_ok uts ex (pre ++ [ut]) a.
Proof.
  intros He (H1 & H2 & H3 & H4 & H5 & H6).
  unfold locals_ok. split_and!; try done.
  - intros ut' [Hin| ->%list_elem_of_singleton]%elem_of_app Hne;
      [auto | congruence].
  - intros u ids i Hu Hi.
    destruct (H2 u ids i Hu Hi) as (ut' & Hin & Hrest).
    exists ut'. split; [apply elem_of_app; by left | done].
  - intros i r Hir. destruct (H3 i r Hir) as (ut' & tg & Hin & Hrest).
    exists ut', tg. split; [apply elem_of_app; by left | done].
  - intros u rs r Hu Hr.
    destruct (H4 u rs r Hu Hr) as (ut' & tg & Hin & Hrest).
    exists ut', tg. split; [apply elem_of_app; by left | done].
  - intros x. rewrite H6. split.
    + intros (ut' & r & tg & Hin & Hrest).
      exists ut', r, tg. split; [apply elem_of_app; by left | done].
    + intros (ut' & r & tg & Hin & Hrec & Hx).
      apply elem_of_app in Hin as [Hin| ->%list_elem_of_singleton].
      * by exists ut', r, tg.
      * destruct Hrec as [Hne _]. congruence.
Qed.

Lemma nodes_ok_excluded ex pre ut G :
  Some (ut_id ut) = ex -> nodes_ok ex pre G -> nodes_ok ex (pre ++ [ut]) G.
Proof.
  intros He (Hh & Hr & Hn & Hadj). unfold nodes_ok.
  split_and!; try done.
  intros k. rewrite Hn. split.
  - intros (ut' & Hin & Hrest).
    exists ut'. split; [apply elem_of_app; by left | done].
  - intros (ut' & Hin & Hne & Hk).
    apply elem_of_app in Hin as [Hin| ->%list_elem_of_singleton].
    + by exists ut'.
    + congruence.
Qed.

Lemma nodes_ok_included ex pre ut G :
  Some (ut_id ut) <> ex -> nodes_ok ex pre G ->
  nodes_ok ex (pre ++ [ut])
           (add_node (Utt (ut_id ut)) (Some (ut_dict ut)) G).2.
Proof.
  intros Hne (Hh & Hr & Hn & Hadj). unfold nodes_ok.
  rewrite add_node_eq. simpl. split_and!; try done.
  - by apply (reachable_step G
                (AddNode (Utt (ut_id ut)) (Some (ut_dict ut)))).
  - intros k. rewrite dict_mem_set, orb_true_iff, Hn, bool_decide_eq_true.
    split.
    + intros [<-|(ut' & Hin & Hrest)].
      * exists ut. split; [apply elem_of_app; right; by left | done].
      * exists ut'. split; [apply elem_of_app; by left | done].
    + intros (ut' & Hin & Hne' & Hk).
      apply elem_of_app in Hin as [Hin| ->%list_elem_of_singleton].
      * right. by exists ut'.
      * by left.
  - intros a b. rewrite !stored_set. destruct (Hadj a b).
    by case_decide.
Qed.

Lemma locals_ok_included uts ex pre ut a a' :
  Some (ut_id ut) <> ex ->
  locals_ok uts ex pre a ->
  username_to_utt_ids a' =
    dict_set (ut_user ut)
      (set_add (ut_id ut)
         (match dict_get (ut_user ut) (username_to_utt_ids a) with
          | Some ids => ids | None => [] end))
      (username_to_utt_ids a) ->
  ((exists r target,
      recorded uts ex ut r target /\
      reply_edges a' = reply_edges a ++ [(ut_id ut, r)] /\
      speaker_to_reply_tos a' =
        defaultdict_append (ut_user ut) r (speaker_to_reply_tos a) /\
      speaker_target_pairs a' =
        set_add (ut_user ut, ut_user target, ut_timestamp ut)
                (speaker_target_pairs a)) \/
   ((forall r target, ~ recorded uts ex ut r target) /\
    reply_edges a' = reply_edges a /\
    speaker_to_reply_tos a' = speaker_to_reply_tos a /\
    speaker_target_pairs a' = speaker_target_pairs a)) ->
  locals_ok uts ex (pre ++ [ut]) a'.
Proof.
  intros Hne (H1 & H2 & H3 & H4 & H5 & H6) Hu2i Hcase.
  assert (Hpre : forall x : Utterance, x ∈ pre -> x ∈ pre ++ [ut])
    by (intros x Hx; apply elem_of_app; by left).
  assert (Hut : ut ∈ pre ++ [ut])
    by (apply elem_of_app; right; by left).
  assert (G1 : forall ut', ut' ∈ pre ++ [ut] -> Some (ut_id ut') <> ex ->
               dict_mem (ut_user ut') (username_to_utt_ids a') = true).
  { intros ut' Hin Hne'. rewrite Hu2i, dict_mem_set.
    apply elem_of_app in Hin as [Hin| ->%list_elem_of_singleton].
    - rewrite (H1 ut' Hin Hne'). apply orb_true_r.
    - by rewrite bool_decide_eq_true_2. }
  assert (G2 : forall u ids i, (u, ids) ∈ username_to_utt_ids a' -> i ∈ ids ->
               exists ut', ut' ∈ pre ++ [ut] /\ Some (ut_id ut') <> ex /\
                           ut_user ut' = u /\ ut_id ut' = i).
  { intros u ids i Hin Hi. rewrite Hu2i in Hin.
    apply elem_of_dict_set in Hin as [Hin|[-> ->]].
    - destruct (H2 u ids i Hin Hi) as (ut' & ? & ?). exists ut'. auto.
    - apply set_add_elem in Hi as [->|Hi]; [by exists ut|].
      destruct (dict_get (ut_user ut) (username_to_utt_ids a))
        as [ids0|] eqn:E; [|by apply elem_of_nil in Hi].
      apply dict_get_Some_elem in E.
      destruct (H2 _ _ i E Hi) as (ut' & ? & ?). exists ut'. auto. }
  unfold locals_ok.
  destruct Hcase as [(r & tg & Hrec & Hre & Hs2r & Hstp)
                    |(Hnone & Hre & Hs2r & Hstp)].
  - split_and!; try done.
    + intros i r' Hin. rewrite Hre in Hin.
      apply elem_of_app in Hin as [Hin|[= -> ->]%list_elem_of_singleton].
      * destruct (H3 i r' Hin) as (ut' & tg' & ? & ?). exists ut', tg'. auto.
      * by exists ut, tg.
    + intros u rs r' Hin Hr'. rewrite Hs2r in Hin.
      apply elem_of_defaultdict_append in Hin
        as [Hin|(-> & old & -> & Hold)].
      * destruct (H4 u rs r' Hin Hr') as (ut' & tg' & ? & ?).
        exists ut', tg'. auto.
      * apply elem_of_app in Hr' as [Hr'| ->%list_elem_of_singleton];
          [|by exists ut, tg].
        destruct Hold as [->|Hold]; [by apply elem_of_nil in Hr'|].
        destruct (H4 _ _ r' Hold Hr') as (ut' & tg' & ? & ?).
        exists ut', tg'. auto.
    + rewrite Hstp. by apply set_add_NoDup.
    + intros x. rewrite Hstp, set_add_elem, H6. split.
      * intros [->|(ut' & r' & tg' & ? & ?)]; [by exists ut, r, tg|].
        exists ut', r', tg'. auto.
      * intros (ut' & r' & tg' & Hin & Hrec' & ->).
        apply elem_of_app in Hin as [Hin| ->%list_elem_of_singleton].
        -- right. by exists ut', r', tg'.
        -- left. destruct Hrec as (_ & Hr1 & Ht1 & _).
           destruct Hrec' as (_ & Hr2 & Ht2 & _). congruence.
  - split_and!; try done.
    + intros i r' Hin. rewrite Hre in Hin.
      destruct (H3 i r' Hin) as (ut' & tg' & ? & ?). exists ut', tg'. auto.
    + intros u rs r' Hin Hr'. rewrite Hs2r in Hin.
      destruct (H4 u rs r' Hin Hr') as (ut' & tg' & ? & ?).
      exists ut', tg'. auto.
    + by rewrite Hstp.
    + intros x. rewrite Hstp, H6. split.
      * intros (ut' & r' & tg' & ? & ?). exists ut', r', tg'. auto.
      * intros (ut' & r' & tg' & Hin & Hrec' & ->).
        apply elem_of_app in Hin as [Hin| ->%list_elem_of_singleton].
        -- by exists ut', r', tg'.
        -- by destruct (Hnone r' tg').
Qed.

Lemma node_step_ok uts ex pre ut a G :
  locals_ok uts ex pre a -> nodes_ok ex pre G ->
  exists a' G',
    node_step uts ex ut a G = (Ok a', G') /\
    locals_ok uts ex (pre ++ [ut]) a' /\ nodes_ok ex (pre ++ [ut]) G'.
Proof.
  intros Ha HG. destruct (decide (Some (ut_id ut) = ex)) as [He|Hne].
  - exists a, G. split_and!.
    + by apply node_step_excluded.
    + by apply locals_ok_excluded.
    + by apply nodes_ok_excluded.
  - destruct (node_step_included uts ex ut a G Hne)
      as (a' & Hrun & Hu2i & Hcase).
    exists a'. eexists. split_and!; [exact Hrun | |].
    + by eapply locals_ok_included.
    + by apply nodes_ok_included.
Qed.

Lemma node_loop_ok uts ex l pre a G :
  locals_ok uts ex pre a -> nodes_ok ex pre G ->
  exists a' G',
    node_loop uts ex l a G = (Ok a', G') /\
    locals_ok uts ex (pre ++ l) a' /\ nodes_ok ex (pre ++ l) G'.
Proof.
  revert pre a G. induction l as [|ut l IH]; intros pre a G Ha HG; simpl.
  - exists a, G. by rewrite app_nil_r.
  - destruct (node_step_ok uts ex pre ut a G Ha HG)
      as (a1 & G1 & Hstep & Ha1 & HG1).
    destruct (IH _ _ _ Ha1 HG1) as (a' & G' & Hloop & Ha' & HG').
    exists a', G'. rewrite <- app_assoc in Ha', HG'.
    split_and!; [|done..].
    unfold mbind, ST_bind. by rewrite Hstep.
Qed.

Lemma no_locals_ok uts ex : locals_ok uts ex [] no_locals.
Proof.
  unfold locals_ok, no_locals. simpl.
  split_and!; try (intros; by match goal with
                              | H : _ ∈ [] |- _ => apply elem_of_nil in H
                              end).
  - apply NoDup_nil_2.
  - intros x. split; [by intros ?%elem_of_nil|].
    by intros (? & ? & ? & ?%elem_of_nil & _).
Qed.

Lemma init_nodes_ok ex : nodes_ok ex [] init.
Proof.
  unfold nodes_ok. simpl. split_and!; try done.
  - constructor.
  - intros k. split; [done|]. by intros (? & ?%elem_of_nil & _).
Qed.
Lemma hypernode_pass_ok ex pre0 G1 (l : list (User * list string)) :
  nodes_ok ex pre0 G1 ->
  exists G2,
    for_ l (fun '(u, ids) =>
              add_hypernode (Usr u) (Utt <$> set_iter ids)
                            (Some (user_meta u))) G1 = (Ok tt, G2) /\
    hypernodes_ok G1 l G2.
Proof.
  intros (Hh & Hr & Hn & Hadj).
  apply (for_invariant (hypernodes_ok G1)).
  - intros pre [u ids] G (Hn' & Hr' & H3 & H4 & Hadj') Hin.
    eexists. split; [apply add_hypernode_eq|].
    unfold hypernodes_ok. simpl. split_and!; try done.
    + by apply (reachable_step G
                  (AddHypernode (Usr u) (Utt <$> set_iter ids)
                                (Some (user_meta u)))).
    + intros k ms [Hk|[-> ->]]%elem_of_dict_set.
      * destruct (H3 k ms Hk) as (u' & ids' & Hpre & Hrest).
        exists u', ids'. split; [apply elem_of_app; by left | done].
      * exists u, ids. split; [apply elem_of_app; right; by left | done].
    + intros u' ids' Hui. rewrite dict_mem_set.
      apply elem_of_app in Hui as [Hui|[= -> ->]%list_elem_of_singleton].
      * rewrite (H4 u' ids' Hui). apply orb_true_r.
      * by rewrite bool_decide_eq_true_2.
    + intros x y. rewrite !stored_set. destruct (Hadj' x y).
      by case_decide.
  - unfold hypernodes_ok. split_and!; try done.
    + rewrite Hh. by intros k ms ?%elem_of_nil.
    + by intros u ids ?%elem_of_nil.
Qed.

Lemma unlogged_logged G :
  reachable G ->
  (forall x y, stored (adj_out G) x y = None /\ stored (adj_in G) x y = None) ->
  logged G G [].
Proof.
  intros Hr Hadj. unfold logged. split_and!; try done.
  intros x y. simpl. by destruct (Hadj x y), (Hadj y x).
Qed.

Lemma hypernode_keys_users G1 l G k :
  hypernodes_ok G1 l G -> dict_mem k (hypernodes G) = true ->
  exists u, k = Usr u.
Proof.
  intros (_ & _ & H3 & _) [ms Hk]%dict_mem_elem.
  destruct (H3 k ms Hk) as (u & ids & _ & -> & _). by exists u.
Qed.

Lemma build_spec uts ex :
  keyed_by_id uts ->
  exists a G, build uts ex init = (Ok tt, G) /\ built uts ex a G.
Proof.
  intros Hkey. unfold build.
  set (thread := sort_by ut_timestamp uts.*2).
  destruct (node_loop_ok uts ex thread [] no_locals init
              (no_locals_ok uts ex) (init_nodes_ok ex))
    as (a & G1 & Hloop & Ha & HG1).
  simpl in Ha, HG1.
  destruct (hypernode_pass_ok ex thread G1 (username_to_utt_ids a) HG1)
    as (G2 & Hhyp & HG2).
  pose proof Ha as (L1 & L2 & L3 & L4 & L5 & L6).
  pose proof HG1 as (_ & _ & N3 & _).
  pose proof HG2 as (Hn2 & Hr2 & Y3 & Y4 & Hadj2).
  (* registration of the endpoints *)
  assert (Rnode : forall ut, ut ∈ thread -> Some (ut_id ut) <> ex ->
                  registered G2 (Utt (ut_id ut)) = true).
  { intros ut Hin Hne. unfold registered. rewrite Hn2.
    apply orb_true_iff. left. apply N3. by exists ut. }
  assert (Ruser : forall ut, ut ∈ thread -> Some (ut_id ut) <> ex ->
                  registered G2 (Usr (ut_user ut)) = true).
  { intros ut Hin Hne. unfold registered.
    apply orb_true_iff. right.
    destruct (proj1 (dict_mem_elem _ _) (L1 ut Hin Hne)) as [ids Hids].
    by apply (Y4 _ ids). }
  assert (Rtarget : forall ut r tg, recorded uts ex ut r tg ->
                    tg ∈ thread /\ Some (ut_id tg) <> ex /\ ut_id tg = r).
  { intros ut r tg (_ & _ & Hget & Hne).
    apply dict_get_Some_elem in Hget.
    pose proof (Hkey r tg Hget) as Hid.
    split_and!; [|congruence|done].
    unfold thread. rewrite sort_by_perm.
    apply list_elem_of_fmap. by exists (r, tg). }
  assert (Rnot : forall i, dict_mem (Utt i) (hypernodes G2) = false).
  { intros i. apply not_true_is_false. intros Hm.
    by destruct (hypernode_keys_users _ _ _ _ HG2 Hm). }
  (* the three edge passes *)
  destruct (add_edges_logged G2 G2 []
              (map (fun e => (Utt e.1, Utt e.2, None)) (reply_edges a)))
    as (G3 & Hrun3 & HG3).
  { by apply unlogged_logged. }
  { intros e [[i r] [-> Hin]]%list_elem_of_fmap. simpl.
    destruct (L3 i r Hin) as (ut & tg & Hut & Hrec & <-).
    destruct (Rtarget _ _ _ Hrec) as (Htg & Hne & <-).
    destruct Hrec as (Hne' & _).
    split_and!; [by apply Rnode..|].
    unfold payload_ok. by rewrite Rnot. }
  destruct (add_edges_logged G2 G3 _
              (flat_map (fun e => map (fun r => (Usr e.1, Utt r, None)) e.2)
                        (speaker_to_reply_tos a)) HG3)
    as (G4 & Hrun4 & HG4).
  { intros e [[u rs] [Hin He]]%list_elem_of_In%in_flat_map.
    apply (proj2 (list_elem_of_In _ _)) in Hin. simpl in He.
    apply (proj2 (list_elem_of_In _ _)), list_elem_of_fmap in He
      as [r [-> Hr]]. simpl.
    destruct (L4 u rs r Hin Hr) as (ut & tg & Hut & Hrec & <-).
    destruct (Rtarget _ _ _ Hrec) as (Htg & Hne & <-).
    destruct Hrec as (Hne' & _).
    split_and!; [by apply Ruser | by apply Rnode |].
    unfold payload_ok. by rewrite Rnot, andb_false_r. }
  destruct (add_edges_logged G2 G4 _
              (map (fun e => (Usr e.1.1, Usr e.1.2,
                              Some (timestamp_payload e.2)))
                   (set_iter (speaker_target_pairs a))) HG4)
    as (G5 & Hrun5 & HG5).
  { intros e [[[u v] t] [-> Hin]]%list_elem_of_fmap. simpl.
    rewrite set_iter_perm in Hin.
    apply L6 in Hin as (ut & r & tg & Hut & Hrec & [= -> -> ->]).
    destruct (Rtarget _ _ _ Hrec) as (Htg & Hne & _).
    destruct Hrec as (Hne' & _).
    split_and!; [by apply Ruser..|].
    intros _. by eexists. }
  assert (E3 : for_ (reply_edges a)
                 (fun '(u, v) => add_edge (Utt u) (Utt v) None) G2
               = (Ok tt, G3)).
  { rewrite for_map in Hrun3. rewrite <- Hrun3.
    apply for_ext. by intros [u v] s. }
  assert (E4 : for_ (speaker_to_reply_tos a)
                 (fun '(u, reply_tos) =>
                    for_ reply_tos
                      (fun reply_to => add_edge (Usr u) (Utt reply_to) None))
                 G3
               = (Ok tt, G4)).
  { rewrite <- Hrun4.
    rewrite <- (for_nested (fun u r => (Usr u, Utt r, None))
                  (fun e => add_edge e.1.1 e.1.2 e.2)).
    apply for_ext. by intros [u rs] s. }
  assert (E5 : for_ (set_iter (speaker_target_pairs a))
                 (fun '(u, v, timestamp) =>
                    add_edge (Usr u) (Usr v)
                             (Some (timestamp_payload timestamp))) G4
               = (Ok tt, G5)).
  { rewrite for_map in Hrun5. rewrite <- Hrun5.
    apply for_ext. by intros [[u v] t] s. }
  exists a, G5. split.
  - unfold mbind, ST_bind. by rewrite Hloop, Hhyp, E3, E4, E5.
  - destruct HG5 as (Hn5 & Hh5 & Hr5 & Hlog5).
    unfold built. fold thread.
    split_and!; try done.
    + intros k. rewrite Hn5, Hn2. apply N3.
    + rewrite Hh5. apply Y3.
    + rewrite Hh5. apply Y4.
    + intros x y.
      replace (edge_log a) with
        ((([] ++
           map (fun e : vertex * vertex * option Info =>
                  (e.1.1, e.1.2, info_or_empty e.2))
             (map (fun e : string * string => (Utt e.1, Utt e.2, None))
                  (reply_edges a))) ++
          map (fun e : vertex * vertex * option Info =>
                 (e.1.1, e.1.2, info_or_empty e.2))
            (flat_map (fun e : User * list string =>
                         map (fun r : string => (Usr e.1, Utt r, None)) e.2)
                      (speaker_to_reply_tos a))) ++
         map (fun e : vertex * vertex * option Info =>
                (e.1.1, e.1.2, info_or_empty e.2))
           (map (fun e : User * User * Z =>
                   (Usr e.1.1, Usr e.1.2, Some (timestamp_payload e.2)))
                (set_iter (speaker_target_pairs a)))); [apply Hlog5|].
      unfold edge_log. simpl.
      rewrite !map_map, map_flat_map, <- app_assoc. simpl.
      f_equal. f_equal.
      apply flat_map_ext. intros [u rs]. simpl. by rewrite map_map.
Qed.
End BuilderFacts.

(** ** Reading a log *)

Section LogFacts.
Context {K : Type} `{EqDecision K}.
Implicit Types (log : list (K * K * Info)) (x y : K).

Lemma payloads_for_app x y log1 log2 :
  payloads_for x y (log1 ++ log2) =
  payloads_for x y log1 ++ payloads_for x y log2.
Proof. apply omap_app. Qed.

Lemma payloads_for_none x y log :
  (forall e, e ∈ log -> ~ (e.1.1 = x /\ e.1.2 = y)) ->
  payloads_for x y log = [].
Proof.
  unfold payloads_for. induction log as [|e log IH]; intros Hno; [done|].
  simpl. rewrite decide_False by (apply Hno; left).
  apply IH. intros e' He'. apply Hno. by right.
Qed.

Lemma payloads_for_elem x y log i :
  i ∈ payloads_for x y log <-> (x, y, i) ∈ log.
Proof.
  unfold payloads_for. rewrite list_elem_of_omap. split.
  - intros ([[u v] j] & Hin & Hi). simpl in Hi.
    case_decide as Huv; [|done]. destruct Huv as [-> ->]. by simplify_eq.
  - intros Hin. exists (x, y, i). split; [done|]. simpl.
    by rewrite decide_True.
Qed.

Lemma as_stored_Some (l l' : list Info) :
  as_stored l = Some l' -> l' = l /\ l <> [].
Proof. destruct l; [done|]. by intros [= <-]. Qed.

Lemma logged_stored_elem G0 (G : Hypergraph K) log x y l :
  logged G0 G log -> stored (adj_out G) x y = Some l ->
  exists i, (x, y, i) ∈ log.
Proof.
  intros (_ & _ & _ & Hlog) Hs. destruct (Hlog x y) as [Ho _].
  rewrite Hs in Ho. symmetry in Ho. apply as_stored_Some in Ho as [-> Hne].
  destruct (payloads_for x y log) as [|i ?] eqn:E; [done|].
  exists i. apply payloads_for_elem. rewrite E. left.
Qed.

End LogFacts.

Section ListFacts.
Lemma filter_none {A} (P : A -> Prop) `{forall x, Decision (P x)}
    (l : list A) :
  (forall x, x ∈ l -> ~ P x) -> filter P l = [].
Proof.
  induction l as [|y l IH]; intros Hno; [done|].
  rewrite filter_cons, decide_False by (apply Hno; left).
  apply IH. intros x Hx. apply Hno. by right.
Qed.

Lemma filter_all {A} (P : A -> Prop) `{forall x, Decision (P x)}
    (l : list A) :
  (forall x, x ∈ l -> P x) -> filter P l = l.
Proof.
  induction l as [|y l IH]; intros Hall; [done|].
  rewrite filter_cons, decide_True by (apply Hall; left).
  f_equal. apply IH. intros x Hx. apply Hall. by right.
Qed.

Lemma NoDup_count_one {A} `{EqDecision A} (x : A) (l : list A) :
  NoDup l -> x ∈ l -> length (filter (fun y => y = x) l) = 1.
Proof.
  induction 1 as [|y l Hy Hnd IH]; [by intros ?%elem_of_nil|].
  rewrite filter_cons. intros [->|Hin]%elem_of_cons.
  - rewrite decide_True by done. simpl.
    rewrite filter_none; [done|]. by intros z Hz ->.
  - rewrite decide_False by (by intros ->). by apply IH.
Qed.
End ListFacts.

(** ** Motif enumeration *)

Section MotifFacts.
Context {K : Type} `{EqDecision K}.
Implicit Types (G : Hypergraph K).

Lemma for_each_Ok {A B} (f : A -> result (list B)) (g : A -> list B)
    (l : list A) :
  (forall x, x ∈ l -> f x = Ok (g x)) -> for_each l f = Ok (flat_map g l).
Proof.
  induction l as [|x l IH]; intros Hf; simpl; [done|].
  rewrite Hf by left. simpl. rewrite IH; [done|].
  intros y Hy. apply Hf. by right.
Qed.

Lemma for_each_empty {A B} (f : A -> result (list B)) (l : list A) :
  (forall x, x ∈ l -> f x = Ok []) -> for_each l f = Ok [].
Proof.
  induction l as [|x l IH]; intros Hf; simpl; [done|].
  rewrite Hf by left. simpl. rewrite IH; [done|].
  intros y Hy. apply Hf. by right.
Qed.

Lemma filter_flat_map_single {A B} `{EqDecision A} (P : B -> Prop)
    `{forall y, Decision (P y)} (f : A -> list B) (a : A) (l : list A) :
  NoDup l -> a ∈ l ->
  (forall x, x ∈ l -> x <> a -> forall y, y ∈ f x -> ~ P y) ->
  filter P (flat_map f l) = filter P (f a).
Proof.
  induction 1 as [|x l Hx Hnd IH]; [by intros ?%elem_of_nil|].
  intros Ha Hother. simpl. rewrite filter_app.
  assert (Hrest : forall z, z ∈ l -> z <> a -> forall y, y ∈ f z -> ~ P y)
    by (intros z Hz; apply Hother; by right).
  apply elem_of_cons in Ha as [->|Ha].
  - rewrite (filter_none P (flat_map f l)); [by rewrite app_nil_r|].
    intros y [z [Hz Hy]]%list_elem_of_In%in_flat_map.
    apply (proj2 (list_elem_of_In _ _)) in Hz, Hy.
    apply (Hrest z Hz); [|done]. by intros ->.
  - rewrite (filter_none P (f x)).
    + simpl. by apply IH.
    + apply Hother; [left|]. by intros ->.
Qed.

Lemma length_pairs {A B C} (g : A -> B -> C) (l1 : list A) (l2 : list B) :
  length (flat_map (fun x => flat_map (fun y => [g x y]) l2) l1) =
  length l1 * length l2.
Proof.
  assert (Hin : forall x, length (flat_map (fun y => [g x y]) l2) = length l2).
  { intros x. induction l2 as [|y l2 IH]; simpl; [done|]. by rewrite IH. }
  induction l1 as [|x l1 IH]; simpl; [done|].
  by rewrite length_app, Hin, IH.
Qed.

Lemma dyadic_complete G :
  adj_complete G ->
  dyadic_interaction_motifs G =
  Ok (flat_map (fun C1 =>
                  flat_map (dyadic_at G C1)
                           (dict_keys (adjacent (adj_out G) C1)))
               (dict_keys (hypernodes G))).
Proof.
  intros Hc. unfold dyadic_interaction_motifs.
  apply for_each_Ok. intros C1 HC1.
  assert (Hr1 : registered G C1 = true).
  { unfold registered. apply dict_mem_keys in HC1. rewrite HC1.
    apply orb_true_r. }
  destruct (Hc C1 Hr1) as [[out1 Hout1]%dict_mem_true _].
  unfold getitem, adjacent. rewrite Hout1. simpl.
  apply for_each_Ok. intros C2 HC2. unfold dyadic_at, adjacent.
  destruct (dict_mem C2 (hypernodes G)) eqn:Hh2; [|done].
  assert (Hr2 : registered G C2 = true)
    by (unfold registered; rewrite Hh2; apply orb_true_r).
  destruct (Hc C2 Hr2) as [[out2 Hout2]%dict_mem_true _].
  rewrite Hout2. simpl.
  destruct (dict_mem C1 out2) eqn:H12; [|done].
  apply dict_mem_keys, dict_mem_true in HC2 as [es1 Hes1].
  apply dict_mem_true in H12 as [es2 Hes2].
  unfold out_edges, edge_list, stored, getitem.
  rewrite Hout1, Hout2. simpl. rewrite Hes1, Hes2. simpl.
  apply for_each_Ok. intros e1 _. simpl.
  apply (for_each_Ok _ (fun e2 => [(C1, C2, e1, e2)])). done.
Qed.

Lemma dyadic_self_loop G a es :
  reachable G -> dict_mem a (hypernodes G) = true ->
  stored (adj_out G) a a = Some es ->
  exists ms,
    dyadic_interaction_motifs G = Ok ms /\
    (forall e1 e2, e1 ∈ es -> e2 ∈ es -> (a, a, e1, e2) ∈ ms) /\
    length (filter (fun m => m.1.1.1 = a /\ m.1.1.2 = a) ms) =
      length es * length es.
Proof.
  intros Hr Ha Hs.
  pose proof (reachable_adj_complete G Hr) as Hc.
  pose proof (reachable_keys_once G Hr) as (_ & Hnh & _ & _ & Hno & _).
  destruct (stored_Some_get _ _ _ _ Hs) as (outa & Houta & Haa).
  assert (Hat : dyadic_at G a a =
                flat_map (fun e1 => flat_map (fun e2 => [(a, a, e1, e2)]) es)
                         es).
  { unfold dyadic_at, adjacent, edge_list. rewrite Ha, Houta, Hs.
    unfold dict_mem. by rewrite Haa. }
  assert (Hka : a ∈ dict_keys (hypernodes G)) by by apply dict_mem_keys.
  assert (Hkaa : a ∈ dict_keys outa).
  { apply dict_mem_keys. unfold dict_mem. by rewrite Haa. }
  eexists. split; [by apply dyadic_complete|]. split.
  - intros e1 e2 He1 He2.
    apply list_elem_of_In, in_flat_map. exists a.
    split; [by apply list_elem_of_In|].
    apply in_flat_map. exists a. unfold adjacent. rewrite Houta.
    split; [by apply list_elem_of_In|].
    rewrite Hat. apply in_flat_map. exists e1.
    split; [by apply list_elem_of_In|].
    apply in_flat_map. exists e2.
    split; [by apply list_elem_of_In | by left].
  - rewrite (filter_flat_map_single _ _ a); [|done|done|].
    2:{ intros C1 _ Hne m [C2 [_ Hm]]%list_elem_of_In%in_flat_map.
        unfold dyadic_at in Hm. destruct (_ && _); [|done].
        apply in_flat_map in Hm as [e1 [_ Hm]].
        apply in_flat_map in Hm as [e2 [_ [<-|[]]]].
        simpl. by intros [? _]. }
    unfold adjacent at 1. rewrite Houta.
    rewrite (filter_flat_map_single _ _ a); [|by apply (Hno a)|done|].
    2:{ intros C2 _ Hne m Hm.
        unfold dyadic_at in Hm.
        destruct (_ && _); [|by apply elem_of_nil in Hm].
        apply list_elem_of_In, in_flat_map in Hm as [e1 [_ Hm]].
        apply in_flat_map in Hm as [e2 [_ [<-|[]]]].
        simpl. by intros [_ ?]. }
    rewrite Hat, filter_all; [apply length_pairs|].
    intros m [e1 [_ Hm]]%list_elem_of_In%in_flat_map.
    apply in_flat_map in Hm as [e2 [_ [<-|[]]]]. done.
Qed.
End MotifFacts.

(** ** Claims about the graph builder *)

Section BuilderClaims.
Context `{!SetOrder string} `{!SetOrder (User * User * Z)} `{!UserMeta}.
Implicit Types (uts : list (string * Utterance)) (ex : option string).
Implicit Types (ut : Utterance) (loc : locals) (G : Hypergraph vertex).
Implicit Types (a b : User).

Lemma make_hypergraph_built uts ex :
  keyed_by_id uts ->
  exists loc G,
    _make_hypergraph None (Some uts) ex = Ok G /\ built uts ex loc G.
Proof.
  intros Hkey. destruct (build_spec uts ex Hkey) as (loc & G & Hrun & HG).
  exists loc, G. split; [|done].
  unfold _make_hypergraph. simpl. by rewrite Hrun.
Qed.

Lemma payloads_for_users a b (s : list (User * User * Z)) :
  payloads_for (Usr a) (Usr b)
    (map (fun e => (Usr e.1.1, Usr e.1.2, timestamp_payload e.2)) s) =
  map (fun e => timestamp_payload e.2)
      (filter (fun e => e.1.1 = a /\ e.1.2 = b) s).
Proof.
  unfold payloads_for.
  induction s as [|[[u v] t] s IH]; [done|].
  rewrite filter_cons. simpl in IH |- *.
  destruct (decide (u = a /\ v = b)) as [[-> ->]|Hne].
  - rewrite decide_True by done. simpl. f_equal. exact IH.
  - rewrite decide_False; [exact IH|]. intros [[= ->] [= ->]]. by apply Hne.
Qed.

Lemma built_hyperedges uts ex loc G a b :
  built uts ex loc G ->
  edge_list (adj_out G) (Usr a) (Usr b) =
  map (fun e => timestamp_payload e.2)
      (filter (fun e => e.1.1 = a /\ e.1.2 = b)
              (set_iter (speaker_target_pairs loc))).
Proof.
  intros (_ & _ & _ & _ & _ & Hlog).
  destruct (Hlog (Usr a) (Usr b)) as [Ho _].
  rewrite (stored_as_stored _ _ _ _ Ho).
  unfold edge_log. rewrite !payloads_for_app.
  rewrite payloads_for_users.
  rewrite (payloads_for_none (Usr a) (Usr b) (map _ (reply_edges loc))).
  2:{ intros e [[i r] [-> _]]%list_elem_of_fmap. simpl. by intros [_ ?]. }
  rewrite (payloads_for_none (Usr a) (Usr b) (flat_map _ _)); [done|].
  intros e [[u rs] [_ He]]%list_elem_of_In%in_flat_map.
  apply (proj2 (list_elem_of_In _ _)), list_elem_of_fmap in He
    as [r [-> _]].
  simpl. by intros [_ ?].
Qed.

Lemma timestamp_payload_inj t1 t2 :
  timestamp_payload t1 = timestamp_payload t2 -> t1 = t2.
Proof. by intros [= ->]. Qed.

Lemma built_hyperedges_NoDup uts ex loc G a b :
  built uts ex loc G -> NoDup (edge_list (adj_out G) (Usr a) (Usr b)).
Proof.
  intros HG. rewrite (built_hyperedges uts ex loc G a b HG).
  destruct HG as ((_ & _ & _ & _ & Hnd & _) & _).
  apply (NoDup_fmap_2_strong (fun e : User * User * Z =>
                                timestamp_payload e.2)).
  - intros [[u1 v1] t1] [[u2 v2] t2]
      [[??] _]%list_elem_of_filter [[??] _]%list_elem_of_filter Heq.
    simpl in *. apply timestamp_payload_inj in Heq. by subst.
  - apply NoDup_filter. by rewrite set_iter_perm.
Qed.

Lemma built_hyperedges_elem uts ex loc G a b e :
  built uts ex loc G ->
  e ∈ edge_list (adj_out G) (Usr a) (Usr b) <->
  exists ut r target,
    ut ∈ uts.*2 /\ recorded uts ex ut r target /\
    ut_user ut = a /\ ut_user target = b /\
    e = timestamp_payload (ut_timestamp ut).
Proof.
  intros HG. rewrite (built_hyperedges uts ex loc G a b HG).
  destruct HG as ((_ & _ & _ & _ & _ & Hstp) & _).
  rewrite list_elem_of_fmap. split.
  - intros ([[u v] t] & -> & [[Hu Hv] Hin]%list_elem_of_filter).
    simpl in *.
    rewrite set_iter_perm in Hin.
    apply Hstp in Hin as (ut & r & tg & Hut & Hrec & [= -> -> ->]).
    rewrite sort_by_perm in Hut.
    by exists ut, r, tg.
  - intros (ut & r & tg & Hut & Hrec & Hu & Hv & ->).
    exists (ut_user ut, ut_user tg, ut_timestamp ut).
    split; [done|]. apply list_elem_of_filter. split; [done|].
    rewrite set_iter_perm. apply Hstp.
    exists ut, r, tg. by rewrite sort_by_perm.
Qed.

(** C8: the Hypernode-to-Hypernode edge instances from author [a] to
    author [b] are the payloads [{'timestamp': t}] of the replies the
    builder records from [a] to utterances of [b], each timestamp
    once: no instance is repeated, an instance is present exactly when
    some recorded reply carries its timestamp, and so each such reply
    finds exactly one instance with its timestamp, however many
    replies from [a] to [b] share it. *)
Theorem hyperedges_one_per_timestamp uts ex a b :
  keyed_by_id uts ->
  exists G,
    _make_hypergraph None (Some uts) ex = Ok G /\
    NoDup (edge_list (adj_out G) (Usr a) (Usr b)) /\
    (forall e, e ∈ edge_list (adj_out G) (Usr a) (Usr b) <->
       exists ut r target,
         ut ∈ uts.*2 /\ recorded uts ex ut r target /\
         ut_user ut = a /\ ut_user target = b /\
         e = timestamp_payload (ut_timestamp ut)) /\
    (forall ut r target,
       ut ∈ uts.*2 -> recorded uts ex ut r target ->
       ut_user ut = a -> ut_user target = b ->
       length (filter (fun e => e = timestamp_payload (ut_timestamp ut))
                      (edge_list (adj_out G) (Usr a) (Usr b))) = 1).
Proof.
  intros Hkey.
  destruct (make_hypergraph_built uts ex Hkey) as (loc & G & Hrun & HG).
  exists G. split; [done|].
  pose proof (built_hyperedges_NoDup uts ex loc G a b HG) as Hnd.
  split_and!; [done | intros e; by eapply built_hyperedges_elem |].
  intros ut r tg Hut Hrec Hu Hv.
  apply NoDup_count_one; [done|].
  apply (built_hyperedges_elem uts ex loc G a b _ HG). by exists ut, r, tg.
Qed.
Lemma built_user_registered uts ex loc G ut :
  built uts ex loc G -> ut ∈ uts.*2 -> Some (ut_id ut) <> ex ->
  dict_mem (Usr (ut_user ut)) (hypernodes G) = true.
Proof.
  intros ((L1 & _) & _ & _ & _ & Y4 & _) Hut Hne.
  rewrite <- (sort_by_perm ut_timestamp) in Hut.
  destruct (proj1 (dict_mem_elem _ _) (L1 ut Hut Hne)) as [ids Hids].
  by apply (Y4 _ ids).
Qed.

(** C10: when some recorded reply goes from an author to one of that
    author's own utterances, the builder succeeds, the author's
    Hypernode has edge instances to itself, among them the reply's
    timestamp payload, and the dyadic-interaction enumeration yields,
    with C1 = C2 = that Hypernode, every ordered pair of these
    self-loop instances: k instances give k * k dyadic instances. *)
Theorem self_reply_dyadic uts ex ut r target :
  keyed_by_id uts ->
  ut ∈ uts.*2 -> recorded uts ex ut r target ->
  ut_user target = ut_user ut ->
  exists G es ms,
    _make_hypergraph None (Some uts) ex = Ok G /\
    out_edges G (Usr (ut_user ut)) (Usr (ut_user ut)) = Ok es /\
    timestamp_payload (ut_timestamp ut) ∈ es /\
    dyadic_interaction_motifs G = Ok ms /\
    (forall e1 e2, e1 ∈ es -> e2 ∈ es ->
       (Usr (ut_user ut), Usr (ut_user ut), e1, e2) ∈ ms) /\
    length (filter (fun m => m.1.1.1 = Usr (ut_user ut) /\
                             m.1.1.2 = Usr (ut_user ut)) ms) =
      length es * length es.
Proof.
  intros Hkey Hut Hrec Hself.
  destruct (make_hypergraph_built uts ex Hkey) as (loc & G & Hrun & HG).
  set (a := ut_user ut) in *.
  set (es := edge_list (adj_out G) (Usr a) (Usr a)).
  assert (Hin : timestamp_payload (ut_timestamp ut) ∈ es).
  { apply (built_hyperedges_elem uts ex loc G a a _ HG).
    by exists ut, r, target. }
  assert (Hs : stored (adj_out G) (Usr a) (Usr a) = Some es).
  { pose proof HG as (_ & _ & _ & _ & _ & Hlog).
    destruct (Hlog (Usr a) (Usr a)) as [Ho _].
    pose proof (stored_as_stored _ _ _ _ Ho) as He. fold es in He.
    rewrite Ho, <- He. destruct es; [by apply elem_of_nil in Hin | done]. }
  assert (Hh : dict_mem (Usr a) (hypernodes G) = true).
  { apply (built_user_registered uts ex loc G ut HG Hut). by destruct Hrec. }
  pose proof HG as (_ & Hr & _).
  destruct (dyadic_self_loop G (Usr a) es Hr Hh Hs) as (ms & Hms & Hall & Hlen).
  exists G, es, ms. split_and!; try done.
  unfold out_edges, getitem.
  destruct (stored_Some_get _ _ _ _ Hs) as (d & -> & Hd). simpl.
  by rewrite Hd.
Qed.

Lemma logged_in_stored_elem G0 G log x y l :
  logged G0 G log -> stored (adj_in G) y x = Some l ->
  exists i, (x, y, i) ∈ log.
Proof.
  intros (_ & _ & _ & Hlog) Hs. destruct (Hlog x y) as [_ Hi].
  rewrite Hs in Hi. symmetry in Hi. apply as_stored_Some in Hi as [-> Hne].
  destruct (payloads_for x y log) as [|i ?] eqn:E; [done|].
  exists i. apply payloads_for_elem. rewrite E. left.
Qed.

Lemma edge_log_into_node loc (x : vertex) j i :
  (x, Utt j, i) ∈ edge_log loc ->
  (exists k, x = Utt k /\ (k, j) ∈ reply_edges loc) \/
  (exists u rs, x = Usr u /\ (u, rs) ∈ speaker_to_reply_tos loc /\ j ∈ rs).
Proof.
  unfold edge_log. rewrite !elem_of_app.
  intros [Hin|[Hin|Hin]].
  - apply list_elem_of_fmap in Hin as [[k j'] [[= -> -> ->] Hin]].
    left. by exists k.
  - apply list_elem_of_In, in_flat_map in Hin as [[u rs] [Hu Hin]].
    apply (proj2 (list_elem_of_In _ _)) in Hu.
    apply (proj2 (list_elem_of_In _ _)), list_elem_of_fmap in Hin
      as [j' [[= -> -> ->] Hin]].
    right. by exists u, rs.
  - by apply list_elem_of_fmap in Hin as [[[u v] t] [[=] _]].
Qed.

(** In a built graph a reciprocity instance needs a recorded reply to
    an utterance that is itself a recorded reply. *)
Lemma reciprocity_needs_chain `{!SetOrder vertex} uts ex loc G :
  built uts ex loc G ->
  (forall ut r tg ut' r' tg',
     ut ∈ uts.*2 -> ut' ∈ uts.*2 ->
     recorded uts ex ut r tg -> recorded uts ex ut' r' tg' ->
     r' <> ut_id ut) ->
  reciprocity_motifs G = Ok [].
Proof.
  intros HG Hchain.
  pose proof HG as ((_ & L2 & L3 & L4 & _) & Hr & N3 & Y3 & _ & Hlog).
  pose proof (reachable_adj_complete G Hr) as Hc.
  assert (HL : logged G G (edge_log loc)) by by unfold logged.
  unfold reciprocity_motifs.
  apply for_each_empty. intros [C1 members] HC1.
  destruct (Y3 C1 members HC1) as (u & ids & Hu & -> & ->).
  assert (Hreg1 : registered G (Usr u) = true).
  { unfold registered. apply orb_true_iff. right.
    apply dict_mem_elem. eauto. }
  destruct (Hc _ Hreg1) as [[outC1 HoutC1]%dict_mem_true _].
  apply for_each_empty. intros c1 Hc1.
  rewrite set_iter_perm in Hc1.
  apply set_of_list_elem, list_elem_of_fmap in Hc1 as [i [-> Hi]].
  rewrite set_iter_perm in Hi.
  destruct (L2 u ids i Hu Hi) as (ut1 & Hut1 & Hne1 & _ & <-).
  assert (Hreg : registered G (Utt (ut_id ut1)) = true).
  { unfold registered. apply orb_true_iff. left. apply N3. by exists ut1. }
  destruct (Hc _ Hreg) as [_ [inc Hinc]%dict_mem_true].
  unfold getitem. rewrite Hinc. simpl.
  apply for_each_empty. intros c2 Hc2.
  destruct (dict_mem c2 (nodes G)) eqn:Hn2; [|done].
  rewrite HoutC1. simpl.
  destruct (dict_mem c2 outC1) eqn:Ho2; [|done].
  exfalso.
  apply N3 in Hn2 as (ut2 & Hut2 & Hne2 & ->).
  apply dict_mem_keys, dict_mem_true in Hc2 as [l2 Hl2].
  apply dict_mem_true in Ho2 as [l1 Hl1].
  destruct (logged_in_stored_elem G G (edge_log loc)
              (Utt (ut_id ut2)) (Utt (ut_id ut1)) l2 HL) as [p2 Hp2].
  { unfold stored. by rewrite Hinc. }
  destruct (logged_stored_elem G G (edge_log loc)
              (Usr u) (Utt (ut_id ut2)) l1 HL) as [p1 Hp1].
  { unfold stored. by rewrite HoutC1. }
  apply edge_log_into_node in Hp2
    as [(k & [= <-] & Hk)|(? & ? & [=] & _)].
  apply edge_log_into_node in Hp1
    as [(? & [=] & _)|(u' & rs & [= <-] & Hrs & Hj)].
  destruct (L3 _ _ Hk) as (ut & tg & Hut & Hrec & Hid).
  destruct (L4 _ _ _ Hrs Hj) as (ut' & tg' & Hut' & Hrec' & _).
  rewrite sort_by_perm in Hut, Hut'.
  by apply (Hchain ut _ tg ut' _ tg' Hut Hut' Hrec Hrec').
Qed.

(** C7: a collection of two utterances by one author, the second
    replying to the first and the first replying to nothing in the
    collection, whatever their timestamps, their order in the
    collection and the excluded id: the builder succeeds and the
    reciprocity enumeration of its graph is empty. *)
Theorem reciprocity_single_author `{!SetOrder vertex}
    (author : User) (m1 m2 : string) (t1 t2 : Z) (d1 d2 : Info)
    (r1 : option string) uts ex :
  m1 <> m2 -> r1 <> Some m1 -> r1 <> Some m2 ->
  uts = [(m1, mkUtterance m1 author r1 t1 d1);
         (m2, mkUtterance m2 author (Some m1) t2 d2)] \/
  uts = [(m2, mkUtterance m2 author (Some m1) t2 d2);
         (m1, mkUtterance m1 author r1 t1 d1)] ->
  exists G,
    _make_hypergraph None (Some uts) ex = Ok G /\
    reciprocity_motifs G = Ok [].
Proof.
  intros Hm Hr1 Hr2 Huts.
  set (u1 := mkUtterance m1 author r1 t1 d1) in *.
  set (u2 := mkUtterance m2 author (Some m1) t2 d2) in *.
  assert (Hmem : forall k ut, (k, ut) ∈ uts ->
                 (k = m1 /\ ut = u1) \/ (k = m2 /\ ut = u2)).
  { intros k ut Hin. destruct Huts as [-> | ->];
      repeat (apply elem_of_cons in Hin as [[= -> ->]|Hin]; [tauto|]);
      by apply elem_of_nil in Hin. }
  assert (Hkey : keyed_by_id uts).
  { intros k ut Hin. by destruct (Hmem k ut Hin) as [[-> ->]|[-> ->]]. }
  assert (Hrec : forall ut r tg, ut ∈ uts.*2 -> recorded uts ex ut r tg ->
                 ut = u2 /\ r = m1).
  { intros ut r tg [[k ut'] [-> Hin]]%list_elem_of_fmap (_ & Hr & Hget & _).
    simpl in *. apply dict_get_Some_elem in Hget.
    destruct (Hmem _ _ Hin) as [[-> ->]|[-> ->]]; simpl in Hr.
    - exfalso. destruct (Hmem _ _ Hget) as [[-> _]|[-> _]]; congruence.
    - split; [done | congruence]. }
  destruct (make_hypergraph_built uts ex Hkey) as (loc & G & Hrun & HG).
  exists G. split; [done|].
  apply (reciprocity_needs_chain uts ex loc G HG).
  intros ut r tg ut' r' tg' Hut Hut' Hrc Hrc'.
  destruct (Hrec _ _ _ Hut Hrc) as [-> _].
  destruct (Hrec _ _ _ Hut' Hrc') as [_ ->]. done.
Qed.
End BuilderClaims.

(** ** Degree statistics *)

Section StatFacts.
Variable entropy : list Z -> npfloat.
Context `{!ArgSort}.
Implicit Types (l : list Z).

Lemma all_zero_sum l : all_zero l -> np_sum l = 0%Z.
Proof. induction 1 as [|x l -> _ IH]; simpl; [done | by rewrite IH]. Qed.

Lemma all_zero_max x l : all_zero (x :: l) -> np_max (x :: l) = Ok 0%Z.
Proof.
  intros [-> Hl]%Forall_cons. simpl. f_equal.
  induction Hl as [|y l -> _ IH]; simpl; [done | exact IH].
Qed.

Lemma all_zero_nonzero l : all_zero l -> nonzero l = [].
Proof.
  intros Hl. apply filter_none. intros x Hx.
  rewrite (proj1 (Forall_forall _ _) Hl x Hx). by intros ?.
Qed.

Lemma all_zero_second_largest l : all_zero l -> second_largest l = 0%Z.
Proof.
  intros Hl. unfold second_largest.
  assert (Hs : all_zero (sort_by (fun x => x) l))
    by (unfold all_zero; by rewrite sort_by_perm).
  revert Hs. generalize (sort_by (fun x => x) l), (length l - 2).
  intros l' n Hl'. revert n.
  induction Hl' as [|y l' -> _ IH]; intros [|n]; simpl; auto.
Qed.

Lemma dict_get_cons {V} (k k' : string) (v : V) (d : list (string * V)) :
  dict_get k ((k', v) :: d) =
  if String.eqb k k' then Some v else dict_get k d.
Proof.
  simpl. destruct (String.eqb_spec k k'); by case_decide.
Qed.

(** Looking a statistic up by its name. *)
Lemma stat_value_eq name l :
  stat_value entropy name l =
  match List.find (fun e => String.eqb name e.1) (stat_funcs entropy) with
  | Some e => e.2 l
  | None => Raise KeyError
  end.
Proof.
  unfold stat_value, getitem.
  induction (stat_funcs entropy) as [|[k f] d IH]; [done|].
  rewrite dict_get_cons. simpl. destruct (String.eqb name k); [done|].
  apply IH.
Qed.

(** The four statistics derived from the second largest entry are NaN
    on a vector of fewer than two entries, the empty one included. *)
Lemma second_largest_stats_short l name :
  length l < 2 ->
  name ∈ ["2nd-largest"; "2nd-argmax"; "norm.2nd-largest";
          "2nd-largest / max"]%string ->
  stat_value entropy name l = Ok (NFloat NaN).
Proof.
  intros Hlen Hname.
  assert (Hb : bool_decide (1 < length l) = false)
    by (apply bool_decide_eq_false; lia).
  repeat (apply elem_of_cons in Hname as [->|Hname];
          [rewrite stat_value_eq; simpl; by rewrite Hb|]).
  by apply elem_of_nil in Hname.
Qed.
Lemma stat_value_mean_nonzero l :
  stat_value entropy "mean-nonzero" l = Ok (NFloat (np_mean (nonzero l))).
Proof. by rewrite stat_value_eq. Qed.

Lemma stat_value_norm_max l :
  stat_value entropy "norm.max" l =
  (m ← np_max l; Ok (NFloat (np_divide m (np_sum l)))).
Proof. by rewrite stat_value_eq. Qed.

Lemma stat_value_norm_second l :
  stat_value entropy "norm.2nd-largest" l =
  if bool_decide (1 < length l)
  then Ok (NFloat (np_divide (second_largest l) (np_sum l)))
  else Ok (NFloat NaN).
Proof. by rewrite stat_value_eq. Qed.

(** On a non-empty vector of zeros the mean of the non-zero entries
    and the two statistics normalised by the sum are NaN. *)
Lemma all_zero_stats l name :
  all_zero l -> l <> [] ->
  name ∈ ["mean-nonzero"; "norm.max"; "norm.2nd-largest"]%string ->
  stat_value entropy name l = Ok (NFloat NaN).
Proof.
  intros Hz Hne Hname. destruct l as [|x l]; [done|].
  apply elem_of_cons in Hname as [->|Hname].
  { by rewrite stat_value_mean_nonzero, all_zero_nonzero. }
  apply elem_of_cons in Hname as [->|Hname].
  { rewrite stat_value_norm_max, all_zero_max by done.
    change (Ok 0%Z ≫= _) with
      (Ok (A := npval) (NFloat (np_divide 0 (np_sum (x :: l))))).
    by rewrite all_zero_sum. }
  apply elem_of_cons in Hname as [->|Hname]; [|by apply elem_of_nil in Hname].
  rewrite stat_value_norm_second, all_zero_second_largest, all_zero_sum
    by done.
  by destruct (bool_decide _).
Qed.

(** Every statistic is computed on a non-empty vector. *)
Lemma stat_funcs_nonempty l name f :
  l <> [] -> (name, f) ∈ stat_funcs entropy -> exists v, f l = Ok v.
Proof.
  intros Hne Hin. destruct l as [|x l]; [done|].
  unfold stat_funcs in Hin.
  repeat (apply elem_of_cons in Hin as [[= -> ->]|Hin];
          [simpl; try destruct (bool_decide _); by eexists|]).
  by apply elem_of_nil in Hin.
Qed.
Lemma feat_name_inj fh th ext n n' d d' :
  n ∈ dict_keys (stat_funcs entropy) ->
  n' ∈ dict_keys (stat_funcs entropy) ->
  d ∈ ["out"; "in"]%string -> d' ∈ ["out"; "in"]%string ->
  feat_name n d fh th ext = feat_name n' d' fh th ext ->
  n = n' /\ d = d'.
Proof.
  intros Hn Hn' Hd Hd'. unfold dict_keys, stat_funcs in Hn, Hn'.
  cbn [fmap list_fmap fst] in Hn, Hn'.
  repeat (apply elem_of_cons in Hd as [->|Hd]);
    [| |by apply elem_of_nil in Hd];
    (repeat (apply elem_of_cons in Hd' as [->|Hd']);
     [| |by apply elem_of_nil in Hd']);
    (repeat (apply elem_of_cons in Hn as [->|Hn]);
     [..|by apply elem_of_nil in Hn]);
    (repeat (apply elem_of_cons in Hn' as [->|Hn']);
     [..|by apply elem_of_nil in Hn']);
    intros Heq; first [done | discriminate Heq].
Qed.
(** The loop over the statistics, for any list of statistics that are
    all computed and whose feature names are distinct: each feature
    holds the value of its statistic, other keys are untouched. *)
Lemma fold_stats_link fh th ext outs ins
    (funcs : list (string * (list Z -> result npval))) stats0 :
  (forall n f, (n, f) ∈ funcs ->
     (exists v, f outs = Ok v) /\ (exists v, f ins = Ok v)) ->
  NoDup funcs.*1 ->
  (forall n n' d d', n ∈ funcs.*1 -> n' ∈ funcs.*1 ->
     d ∈ ["out"; "in"]%string -> d' ∈ ["out"; "in"]%string ->
     feat_name n d fh th ext = feat_name n' d' fh th ext ->
     n = n' /\ d = d') ->
  exists stats,
    fold_result (fun stats '(stat, stat_func) =>
        o ← stat_func outs;
        let stats := dict_set (feat_name stat "out" fh th ext) o stats in
        i ← stat_func ins;
        Ok (dict_set (feat_name stat "in" fh th ext) i stats))
      funcs stats0 = Ok stats /\
    (forall n f, (n, f) ∈ funcs ->
       (Some <$> f outs) = Ok (dict_get (feat_name n "out" fh th ext) stats) /\
       (Some <$> f ins) = Ok (dict_get (feat_name n "in" fh th ext) stats)) /\
    (forall k, (forall n d, n ∈ funcs.*1 -> d ∈ ["out"; "in"]%string ->
                  k <> feat_name n d fh th ext) ->
       dict_get k stats = dict_get k stats0).
Proof.
  revert stats0. induction funcs as [|[n0 f0] funcs IH];
    intros stats0 Hok Hnd Hinj.
  - exists stats0. split_and!; [done| |done]. by intros n f ?%elem_of_nil.
  - destruct (Hok n0 f0) as [[vo Hvo] [vi Hvi]]; [left|].
    rewrite fmap_cons in Hnd, Hinj.
    apply NoDup_cons in Hnd as [Hn0 Hnd]. cbn [fst] in Hn0, Hinj.
    assert (Hout : "out"%string ∈ ["out"; "in"]%string) by left.
    assert (Hin : "in"%string ∈ ["out"; "in"]%string) by (right; left).
    destruct (IH (dict_set (feat_name n0 "in" fh th ext) vi
                    (dict_set (feat_name n0 "out" fh th ext) vo stats0)))
      as (stats & Hrun & Hget & Hother).
    { intros n f Hnf. apply (Hok n f). by right. }
    { done. }
    { intros n n' d d' Hn Hn'. apply Hinj; by right. }
    exists stats. split_and!.
    + simpl. rewrite Hvo. simpl. rewrite Hvi. simpl. exact Hrun.
    + assert (Hfresh : forall d, d ∈ ["out"; "in"]%string ->
                forall n d', n ∈ funcs.*1 -> d' ∈ ["out"; "in"]%string ->
                feat_name n0 d fh th ext <> feat_name n d' fh th ext).
      { intros d Hd n d' Hn Hd' Heq.
        destruct (Hinj n0 n d d') as [-> _];
          [by left | by right | done..]. }
      intros n f [[= -> ->]|Hnf]%elem_of_cons; [|by apply Hget].
      rewrite Hvo, Hvi. simpl.
      rewrite !Hother by by apply Hfresh.
      rewrite dict_get_set_eq, dict_get_set_ne, dict_get_set_eq; [done|].
      intros Heq.
      by destruct (Hinj n0 n0 "in"%string "out"%string) as [_ [=]];
        [left | left | ..].
    + intros k Hk. rewrite Hother.
      * rewrite !dict_get_set_ne; [done|..];
          intros Heq; symmetry in Heq; revert Heq; (apply Hk; [by left|done]).
      * intros n d Hn Hd. apply Hk; [by right | done].
Qed.

Lemma stat_funcs_NoDup : NoDup (dict_keys (stat_funcs entropy)).
Proof.
  unfold dict_keys, stat_funcs. cbn [fmap list_fmap fst].
  apply (proj2 (NoDup_ListNoDup _)).
  repeat (constructor; [simpl; intros Hx; repeat destruct Hx as [?|Hx];
                        done|]).
  constructor.
Qed.

Lemma stat_value_elem n f l :
  (n, f) ∈ stat_funcs entropy -> stat_value entropy n l = f l.
Proof.
  intros Hnf. unfold stat_value, getitem.
  by rewrite (dict_get_elem n f _ stat_funcs_NoDup Hnf).
Qed.

(** The statistics of a tier combination, on two non-empty degree
    vectors: the loop does not raise and each feature holds the value
    of its statistic. *)
Lemma stats_of_degrees_link fh th ext outs ins stats0 :
  outs <> [] -> ins <> [] ->
  exists stats,
    stats_of_degrees entropy fh th ext outs ins stats0 = Ok stats /\
    forall n, n ∈ dict_keys (stat_funcs entropy) ->
      (Some <$> stat_value entropy n outs) =
        Ok (dict_get (feat_name n "out" fh th ext) stats) /\
      (Some <$> stat_value entropy n ins) =
        Ok (dict_get (feat_name n "in" fh th ext) stats).
Proof.
  intros Ho Hi.
  destruct (fold_stats_link fh th ext outs ins (stat_funcs entropy) stats0)
    as (stats & Hrun & Hget & _).
  - intros n f Hnf. split; by eapply stat_funcs_nonempty.
  - apply stat_funcs_NoDup.
  - intros n n' d d'. apply feat_name_inj.
  - exists stats. split; [exact Hrun|].
    intros n [[n' f] [-> Hnf]]%list_elem_of_fmap. simpl.
    rewrite !(stat_value_elem n' f) by done. by apply Hget.
Qed.
End StatFacts.

(** ** Claims about the degree statistics *)

Section StatClaims.
Variable entropy : list Z -> npfloat.
Context `{!ArgSort}.

(** C6, amended to non-empty vectors: on two non-empty degree vectors
    the loop over the twelve statistics does not raise; for a vector
    of one entry the features of the four statistics derived from the
    second largest entry are NaN; for a vector of zeros the features
    of mean-nonzero, norm.max and norm.2nd-largest are NaN. *)
Theorem degenerate_degree_stats fh th ext outs ins stats0 :
  outs <> [] -> ins <> [] ->
  exists stats,
    stats_of_degrees entropy fh th ext outs ins stats0 = Ok stats /\
    (forall n,
       n ∈ ["2nd-largest"; "2nd-argmax"; "norm.2nd-largest";
            "2nd-largest / max"]%string ->
       (length outs < 2 ->
          dict_get (feat_name n "out" fh th ext) stats
            = Some (NFloat NaN)) /\
       (length ins < 2 ->
          dict_get (feat_name n "in" fh th ext) stats
            = Some (NFloat NaN))) /\
    (forall n,
       n ∈ ["mean-nonzero"; "norm.max"; "norm.2nd-largest"]%string ->
       (all_zero outs ->
          dict_get (feat_name n "out" fh th ext) stats
            = Some (NFloat NaN)) /\
       (all_zero ins ->
          dict_get (feat_name n "in" fh th ext) stats
            = Some (NFloat NaN))).
Proof.
  intros Ho Hi.
  destruct (stats_of_degrees_link entropy fh th ext outs ins stats0 Ho Hi)
    as (stats & Hrun & Hlink).
  exists stats. split; [exact Hrun|].
  assert (Hkeys : forall n,
    n ∈ ["2nd-largest"; "2nd-argmax"; "norm.2nd-largest";
         "2nd-largest / max"; "mean-nonzero"; "norm.max"]%string ->
    n ∈ dict_keys (stat_funcs entropy)).
  { intros n Hn. unfold dict_keys, stat_funcs. cbn [fmap list_fmap fst].
    repeat (apply elem_of_cons in Hn as [->|Hn];
            [apply list_elem_of_In; simpl; tauto|]).
    by apply elem_of_nil in Hn. }
  split.
  - intros n Hn.
    destruct (Hlink n) as [Hout Hin].
    { apply Hkeys.
      repeat (apply elem_of_cons in Hn as [->|Hn];
              [apply list_elem_of_In; simpl; tauto|]).
      by apply elem_of_nil in Hn. }
    split; intros Hlen.
    + rewrite (second_largest_stats_short entropy outs n Hlen Hn) in Hout.
      by injection Hout as <-.
    + rewrite (second_largest_stats_short entropy ins n Hlen Hn) in Hin.
      by injection Hin as <-.
  - intros n Hn.
    destruct (Hlink n) as [Hout Hin].
    { apply Hkeys.
      repeat (apply elem_of_cons in Hn as [->|Hn];
              [apply list_elem_of_In; simpl; tauto|]).
      by apply elem_of_nil in Hn. }
    split; intros Hz.
    + rewrite (all_zero_stats entropy outs n Hz Ho Hn) in Hout.
      by injection Hout as <-.
    + rewrite (all_zero_stats entropy ins n Hz Hi Hn) in Hin.
      by injection Hin as <-.
Qed.
End StatClaims.

(** ** The remaining claims on sample inputs *)

Section BuilderSamples.
Import Samples.
Open Scope string_scope.

Lemma keyed_by_id_Forall (uts : list (string * Utterance)) :
  Forall (fun e => ut_id e.2 = e.1) uts -> keyed_by_id uts.
Proof.
  intros Hall k ut Hin.
  apply (proj1 (Forall_forall _ _) Hall (k, ut) Hin).
Qed.

(** C1 fails on the code: neither triad enumeration filters the
    neighbours by tier.  In the graph built from [thread_ab] the one
    outgoing triad of bob pairs the Node [m1] with the Hypernode
    alice; in [graph_of ops_nodes_into_hypernode] the one incoming
    triad of ["A"] pairs the Nodes ["n1"] and ["n2"]. *)
Theorem triad_motifs_pair_nodes :
  (G ← make thread_ab; outgoing_triad_motifs G) =
    Ok [(Usr bob, Utt "m1", Usr alice, [], timestamp_payload 2)] /\
  (G ← make thread_ab;
   Ok (dict_mem (Utt "m1") (nodes G), dict_mem (Utt "m1") (hypernodes G))) =
    Ok (true, false) /\
  incoming_triad_motifs (graph_of ops_nodes_into_hypernode) =
    Ok [("A", "n1", "n2", [], [])] /\
  dict_mem "n1" (nodes (graph_of ops_nodes_into_hypernode)) = true /\
  dict_mem "n1" (hypernodes (graph_of ops_nodes_into_hypernode)) = false.
Proof. by vm_compute. Qed.

(** C6, as stated, fails: the empty vector has fewer than two entries
    and no non-zero entry, and on it [np.max] raises, so norm.max is
    not NaN and the computation of the features fails; the empty
    graph is such an input. *)
Lemma degree_stats_raise_on_empty_vector :
  length ([] : list Z) < 2 /\ all_zero [] /\
  stat_value no_entropy "norm.max" [] = Raise ValueError /\
  stats_of_degrees no_entropy false false no_ext [] [] [] = Raise ValueError /\
  degree_feats_of no_entropy init no_ext = Raise ValueError.
Proof. split_and!; [simpl; lia | constructor | done..]. Qed.

Lemma degenerate_degree_stats_witness :
  [0%Z] <> [] /\
  exists stats,
    stats_of_degrees no_entropy true true no_ext [0%Z] [0%Z] [] = Ok stats /\
    (forall n,
       n ∈ ["2nd-largest"; "2nd-argmax"; "norm.2nd-largest";
            "2nd-largest / max"] ->
       (length [0%Z] < 2 ->
          dict_get (feat_name n "out" true true no_ext) stats
            = Some (NFloat NaN)) /\
       (length [0%Z] < 2 ->
          dict_get (feat_name n "in" true true no_ext) stats
            = Some (NFloat NaN))) /\
    (forall n,
       n ∈ ["mean-nonzero"; "norm.max"; "norm.2nd-largest"] ->
       (all_zero [0%Z] ->
          dict_get (feat_name n "out" true true no_ext) stats
            = Some (NFloat NaN)) /\
       (all_zero [0%Z] ->
          dict_get (feat_name n "in" true true no_ext) stats
            = Some (NFloat NaN))).
Proof.
  split; [discriminate|].
  apply (degenerate_degree_stats no_entropy true true no_ext [0%Z] [0%Z] []);
    discriminate.
Defined.

Lemma reciprocity_single_author_witness :
  "m1" <> "m2" /\
  exists G,
    make thread_self = Ok G /\
    @reciprocity_motifs _ _ (insertion_order _) G = Ok [].
Proof.
  split; [discriminate|].
  apply (@reciprocity_single_author
           (insertion_order _) (insertion_order _) no_meta (insertion_order _)
           alice "m1" "m2" 1 2 [] [] None thread_self None);
    [discriminate | discriminate | discriminate | left; reflexivity].
Defined.

Lemma thread_same_ts_keyed : keyed_by_id thread_same_ts.
Proof. apply keyed_by_id_Forall. repeat constructor. Qed.

Lemma thread_self_keyed : keyed_by_id thread_self.
Proof. apply keyed_by_id_Forall. repeat constructor. Qed.

Lemma hyperedges_one_per_timestamp_witness :
  keyed_by_id thread_same_ts /\
  exists G,
    make thread_same_ts = Ok G /\
    NoDup (edge_list (adj_out G) (Usr alice) (Usr bob)) /\
    (forall e, e ∈ edge_list (adj_out G) (Usr alice) (Usr bob) <->
       exists ut r target,
         ut ∈ thread_same_ts.*2 /\
         recorded thread_same_ts None ut r target /\
         ut_user ut = alice /\ ut_user target = bob /\
         e = timestamp_payload (ut_timestamp ut)) /\
    (forall ut r target,
       ut ∈ thread_same_ts.*2 ->
       recorded thread_same_ts None ut r target ->
       ut_user ut = alice -> ut_user target = bob ->
       length (filter (fun e => e = timestamp_payload (ut_timestamp ut))
                      (edge_list (adj_out G) (Usr alice) (Usr bob))) = 1).
Proof.
  split; [exact thread_same_ts_keyed|].
  exact (@hyperedges_one_per_timestamp
           (insertion_order _) (insertion_order _) no_meta
           thread_same_ts None alice bob thread_same_ts_keyed).
Defined.

(** The two replies at time 5 give one edge instance, the reply at
    time 7 another. *)
Example thread_same_ts_hyperedges :
  (G ← make thread_same_ts;
   Ok (edge_list (adj_out G) (Usr alice) (Usr bob))) =
  Ok [timestamp_payload 5; timestamp_payload 7].
Proof. by vm_compute. Qed.

Lemma thread_self_twice_keyed : keyed_by_id thread_self_twice.
Proof. apply keyed_by_id_Forall. repeat constructor. Qed.

Lemma self_reply_dyadic_witness :
  keyed_by_id thread_self_twice /\
  exists G es ms,
    make thread_self_twice = Ok G /\
    out_edges G (Usr alice) (Usr alice) = Ok es /\
    timestamp_payload 3 ∈ es /\
    dyadic_interaction_motifs G = Ok ms /\
    (forall e1 e2, e1 ∈ es -> e2 ∈ es ->
       (Usr alice, Usr alice, e1, e2) ∈ ms) /\
    length (filter (fun m => m.1.1.1 = Usr alice /\ m.1.1.2 = Usr alice)
                   ms) =
      length es * length es.
Proof.
  split; [exact thread_self_twice_keyed|].
  apply (@self_reply_dyadic (insertion_order _) (insertion_order _) no_meta
           thread_self_twice None
           (mkUtterance "m3" alice (Some "m2") 3 []) "m2"
           (mkUtterance "m2" alice (Some "m1") 2 [])
           thread_self_twice_keyed).
  - right. right. left.
  - unfold recorded. split_and!; [discriminate | reflexivity
                                  | reflexivity | discriminate].
  - reflexivity.
Defined.

(** One self-loop instance, one dyadic instance with C1 = C2. *)
Example thread_self_dyadic :
  (G ← make thread_self; dyadic_interaction_motifs G) =
  Ok [(Usr alice, Usr alice, timestamp_payload 2, timestamp_payload 2)].
Proof. by vm_compute. Qed.

(** Two self-loop instances, four dyadic instances with C1 = C2. *)
Example thread_self_twice_dyadic :
  (G ← make thread_self_twice;
   es ← out_edges G (Usr alice) (Usr alice);
   ms ← dyadic_interaction_motifs G;
   Ok (es, ms)) =
  Ok ([timestamp_payload 2; timestamp_payload 3],
      [(Usr alice, Usr alice, timestamp_payload 2, timestamp_payload 2);
       (Usr alice, Usr alice, timestamp_payload 2, timestamp_payload 3);
       (Usr alice, Usr alice, timestamp_payload 3, timestamp_payload 2);
       (Usr alice, Usr alice, timestamp_payload 3, timestamp_payload 3)]).
Proof. by vm_compute. Qed.
End BuilderSamples.

(** * Further properties *)

(** ** The multigraph store *)

Section StoreMore.
Context {K : Type} `{EqDecision K}.
Implicit Types (G : Hypergraph K) (u v k : K) (info : option Info).

Lemma reachable_adj_keys_registered G :
  reachable G ->
  forall k, dict_mem k (adj_out G) = true \/ dict_mem k (adj_in G) = true ->
            registered G k = true.
Proof.
  induction 1 as [|G o G' HG IH Hrun]; intros k.
  - by intros [?|?].
  - destruct o as [u info|u ms info|u v info]; simpl in Hrun.
    + rewrite add_node_eq in Hrun. injection Hrun as <-.
      unfold registered. simpl. rewrite !dict_mem_set.
      destruct (bool_decide (u = k)); [done|]. apply IH.
    + rewrite add_hypernode_eq in Hrun. injection Hrun as <-.
      unfold registered. simpl. rewrite !dict_mem_set.
      destruct (bool_decide (u = k)); [by rewrite orb_true_r|]. apply IH.
    + apply add_edge_inv in Hrun as (Hu & Hv & _ & du & dv & _ & _ & ->).
      unfold edge_added, registered. simpl. rewrite !dict_mem_set.
      intros [Hk|Hk]; apply orb_true_iff in Hk as [Hk|Hk];
        try (apply bool_decide_eq_true in Hk as <-; done);
        apply IH; auto.
Qed.

(** X1: On a graph reached through the public operations [add_edge] either
    succeeds, exactly when both endpoints are registered and the payload
    requirement holds, or raises and leaves the graph as it was; it
    never raises [KeyError]. *)
Theorem add_edge_atomic G u v info :
  reachable G ->
  (registered G u = true /\ registered G v = true /\
   payload_ok G u v info /\
   exists G', add_edge u v info G = (Ok tt, G') /\ reachable G') \/
  ((registered G u = false \/ registered G v = false \/
    ~ payload_ok G u v info) /\
   exists e, add_edge u v info G = (Raise e, G) /\ e <> KeyError).
Proof.
  intros HG.
  destruct (registered G u) eqn:Hu.
  2:{ right. split; [by left|]. exists AssertionError.
      rewrite add_edge_unregistered by (by rewrite Hu). done. }
  destruct (registered G v) eqn:Hv.
  2:{ right. split; [by right; left|]. exists AssertionError.
      rewrite add_edge_unregistered by (by rewrite Hu, Hv). done. }
  destruct (dict_mem u (hypernodes G) && dict_mem v (hypernodes G)) eqn:Hh.
  - apply andb_true_iff in Hh as [H1 H2].
    destruct (add_edge_hypernodes_no_payload G u v H1 H2) as [Hnone Hempty].
    destruct info as [[|x i]|].
    + right. split.
      * right; right. intros Hp. destruct Hp as (i & [= <-] & Hi);
          [by rewrite H1, H2 | done].
      * by exists AssertionError.
    + left. assert (Hp : payload_ok G u v (Some (x :: i)))
        by (intros _; by exists (x :: i)).
      split_and!; try done.
      destruct (reachable_adj_complete G HG u Hu) as [[du Hdu]%dict_mem_true _].
      destruct (reachable_adj_complete G HG v Hv) as [_ [dv Hdv]%dict_mem_true].
      eexists. split; [by apply (add_edge_ok u v _ G du dv)|].
      apply (reachable_step G (AddEdge u v (Some (x :: i)))); [done|].
      by apply (add_edge_ok u v _ G du dv).
    + right. split.
      * right; right. intros Hp. destruct Hp as (i & [=] & _).
        by rewrite H1, H2.
      * by exists AttributeError.
  - left. assert (Hp : payload_ok G u v info)
      by (unfold payload_ok; by rewrite Hh).
    split_and!; try done.
    destruct (reachable_adj_complete G HG u Hu) as [[du Hdu]%dict_mem_true _].
    destruct (reachable_adj_complete G HG v Hv) as [_ [dv Hdv]%dict_mem_true].
    eexists. split; [by apply (add_edge_ok u v _ G du dv)|].
    apply (reachable_step G (AddEdge u v info)); [done|].
    by apply (add_edge_ok u v _ G du dv).
Qed.

(** X2: A successful [add_edge u v] leaves the Nodes and Hypernodes as they
    were, puts the payload (an empty dict when omitted) at the end of
    the list of edge instances from [u] to [v] in both adjacency dicts,
    and changes the list of no other ordered pair. *)
Theorem add_edge_appends G G' u v info :
  add_edge u v info G = (Ok tt, G') ->
  nodes G' = nodes G /\ hypernodes G' = hypernodes G /\
  out_edges G' u v =
    Ok (edge_list (adj_out G) u v ++ [info_or_empty info]) /\
  stored (adj_in G') v u =
    Some (edge_list (adj_in G) v u ++ [info_or_empty info]) /\
  forall a b, ~ (a = u /\ b = v) ->
    stored (adj_out G') a b = stored (adj_out G) a b /\
    stored (adj_in G') b a = stored (adj_in G) b a.
Proof.
  intros (_ & _ & _ & du & dv & Hdu & Hdv & ->)%add_edge_inv.
  unfold edge_added, out_edges, getitem, edge_list. simpl.
  rewrite !stored_set, !dict_get_set_eq. simpl.
  rewrite !decide_True, !dict_get_set_eq by done.
  unfold stored, edges_of. rewrite Hdu, Hdv. simpl.
  split_and!; try done.
  intros a b Hab. rewrite !dict_get_set.
  destruct (decide (u = a)) as [<-|Ha], (decide (v = b)) as [<-|Hb];
    simpl; rewrite ?dict_get_set_eq, ?dict_get_set_ne by done;
    rewrite ?Hdu, ?Hdv; try done.
  by destruct Hab.
Qed.
End StoreMore.

Section StoreQueries.
Context {K : Type} `{EqDecision K}.
Implicit Types (G : Hypergraph K) (u v k : K) (info : option Info).
Implicit Types (adj : list (K * list (K * list Info))).

Lemma set_of_list_NoDup (l : list K) : NoDup (set_of_list l).
Proof.
  unfold set_of_list.
  assert (Hgen : forall s, NoDup s ->
                 NoDup (foldl (fun s x => set_add x s) s l)).
  { induction l as [|y l IH]; intros s Hs; simpl; [done|].
    apply IH. by apply set_add_NoDup. }
  apply Hgen, NoDup_nil_2.
Qed.

(** X3: [add_hypernode] never fails and ignores its [info] argument; the
    member collection is stored as a set: without repetition and with
    the same elements; the Nodes are untouched and the name gets two
    empty adjacency dicts. *)
Theorem add_hypernode_stores_set G name (members : list K) info :
  exists G' ms,
    add_hypernode name members info G = (Ok tt, G') /\
    add_hypernode name members None G = (Ok tt, G') /\
    dict_get name (hypernodes G') = Some ms /\
    NoDup ms /\ (forall x, x ∈ ms <-> x ∈ members) /\
    nodes G' = nodes G /\
    dict_get name (adj_out G') = Some [] /\
    dict_get name (adj_in G') = Some [].
Proof.
  eexists. exists (set_of_list members).
  split; [apply add_hypernode_eq|]. split; [apply add_hypernode_eq|].
  simpl. rewrite !dict_get_set_eq.
  split_and!; try done; [apply set_of_list_NoDup|].
  intros x. apply set_of_list_elem.
Qed.

(** X4: The four neighbour queries on a graph reached through the public
    operations: on a registered vertex the query returns the entries of
    its adjacency dict whose neighbour is in the requested tier, with
    the stored lists; on any other identity it raises
    [AssertionError]. *)
Theorem neighbour_queries G adj hyper u :
  reachable G -> adj = adj_out G \/ adj = adj_in G ->
  (registered G u = true ->
   exists d, neighbours adj G hyper u = Ok d /\
     forall v l, dict_get v d = Some l <->
                 in_tier G hyper v = true /\ stored adj u v = Some l) /\
  (registered G u = false ->
   neighbours adj G hyper u = Raise AssertionError).
Proof.
  intros HG Hadj. split.
  - intros Hu.
    assert (Hm : dict_mem u adj = true).
    { destruct (reachable_adj_complete G HG u Hu).
      by destruct Hadj as [-> | ->]. }
    pose proof Hm as [d Hd]%dict_mem_true.
    exists (filter (fun kv => in_tier G hyper kv.1 = true) d).
    unfold neighbours, getitem. rewrite Hm, Hd. split; [done|].
    intros v l. rewrite (dict_get_filter_key (fun k => in_tier G hyper k)).
    unfold stored. rewrite Hd. simpl.
    destruct (in_tier G hyper v); split; try done; by intros [? ?].
  - intros Hu. unfold neighbours.
    destruct (dict_mem u adj) eqn:Hm; [|done].
    rewrite (reachable_adj_keys_registered G HG u) in Hu; [done|].
    destruct Hadj as [-> | ->]; auto.
Qed.

Lemma dict_get_app {A V} `{EqDecision A} (k : A) (d1 d2 : list (A * V)) :
  dict_get k (d1 ++ d2) =
  match dict_get k d1 with Some x => Some x | None => dict_get k d2 end.
Proof.
  induction d1 as [|[k' x] d1 IH]; simpl; [done|]. by case_decide.
Qed.

Lemma dict_of_NoDup {A V} `{EqDecision A} (items : list (A * V)) :
  NoDup items.*1 -> dict_of items = items.
Proof.
  unfold dict_of.
  assert (Hgen : forall d, NoDup (d ++ items).*1 ->
            foldl (fun d kv => dict_set kv.1 kv.2 d) d items = d ++ items).
  { induction items as [|[k x] items IH]; intros d Hnd; simpl.
    - by rewrite app_nil_r.
    - rewrite dict_set_absent.
      + rewrite IH; rewrite <- app_assoc; done.
      + apply dict_not_mem_keys. unfold dict_keys.
        rewrite fmap_app in Hnd. apply NoDup_app in Hnd as (_ & Hd & _).
        intros Hk. apply (Hd k Hk). left. }
  intros Hnd. by rewrite Hgen.
Qed.

Lemma edge_items_get adj u v :
  NoDup (dict_keys adj) ->
  dict_get (u, v) (edge_items adj) = stored adj u v.
Proof.
  unfold edge_items, stored, dict_keys.
  induction adj as [|[u' d] adj IH]; simpl; intros Hnd; [done|].
  apply NoDup_cons in Hnd as [Hu' Hnd].
  rewrite dict_get_app, IH by done.
  assert (Hd : dict_get (u, v) (map (fun vl : K * list Info =>
                                       ((u', vl.1), vl.2)) d) =
               if decide (u = u') then dict_get v d else None).
  { clear IH. induction d as [|[v' l] d IHd]; simpl; [by case_decide|].
    rewrite IHd.
    destruct (decide (u = u')) as [->|Hne].
    - destruct (decide (v = v')) as [->|Hv].
      + by rewrite decide_True.
      + rewrite decide_False; [done|]. by intros [= ?].
    - rewrite decide_False; [done|]. by intros [= ? ?]. }
  rewrite Hd. case_decide; [|done]. subst. simpl.
  destruct (dict_get v d); [done|].
  assert (Hnone : dict_get u' adj = None).
  { apply dict_mem_false, dict_not_mem_keys. exact Hu'. }
  by rewrite Hnone.
Qed.

Lemma edge_items_NoDup adj :
  NoDup (dict_keys adj) ->
  (forall k d, (k, d) ∈ adj -> NoDup (dict_keys d)) ->
  NoDup (edge_items adj).*1.
Proof.
  unfold edge_items, dict_keys.
  induction adj as [|[u d] adj IH]; simpl; intros Hnd Hin;
    [apply NoDup_nil_2|].
  apply NoDup_cons in Hnd as [Hu Hnd].
  rewrite fmap_app. apply NoDup_app. split_and!.
  - rewrite <- list_fmap_compose.
    apply (NoDup_fmap_2_strong _).
    + intros [v1 l1] [v2 l2] H1 H2 Heq. simpl in Heq.
      injection Heq as Hv. subst v2.
      f_equal.
      assert (Hd : NoDup d.*1) by (apply (Hin u d); left).
      clear -Hd H1 H2. revert H1 H2.
      induction d as [|[v l] d IHd]; [by intros ?%elem_of_nil|].
      apply NoDup_cons in Hd as [Hv Hd].
      intros [E1|H1]%elem_of_cons [E2|H2]%elem_of_cons.
      * congruence.
      * exfalso. apply Hv. apply list_elem_of_fmap. exists (v1, l2).
        split; [simpl; congruence | done].
      * exfalso. apply Hv. apply list_elem_of_fmap. exists (v1, l1).
        split; [simpl; congruence | done].
      * by apply IHd.
    + assert (Hd : NoDup d.*1) by (apply (Hin u d); left).
      by apply NoDup_fmap_1 in Hd.
  - intros [a b] [[[a1 b1] l1] [[= -> ->] H1]]%list_elem_of_fmap
                 [[[a2 b2] l2] [[= -> ->] H2]]%list_elem_of_fmap.
    apply list_elem_of_fmap in H1 as [[v1 l1'] [[= -> -> ->] _]].
    apply list_elem_of_In, in_flat_map in H2 as [[u2 d2] [Hu2 H2]].
    apply (proj2 (list_elem_of_In _ _)) in Hu2.
    apply (proj2 (list_elem_of_In _ _)), list_elem_of_fmap in H2
      as [[v2 l2'] [[= -> -> ->] _]].
    apply Hu. apply list_elem_of_fmap. by exists (u2, d2).
  - apply IH; [done|]. intros k d' Hk. apply (Hin k d'). by right.
Qed.

(** X5: [edges()] on a graph reached through the public operations: the
    items are those of the adjacency dicts in their order, and the list
    under [(u, v)] is the one [adj_out[u]] stores under [v]. *)
Theorem edges_lookup G u v :
  reachable G ->
  edges G = edge_items (adj_out G) /\
  dict_get (u, v) (edges G) = stored (adj_out G) u v.
Proof.
  intros HG.
  pose proof (reachable_keys_once G HG) as (_ & _ & Ho & _ & Hoo & _).
  assert (Heq : edges G = edge_items (adj_out G)).
  { unfold edges. apply dict_of_NoDup, edge_items_NoDup; [done|].
    intros k d Hk. apply (Hoo k). by apply dict_get_elem. }
  split; [done|]. rewrite Heq. by apply edge_items_get.
Qed.

(** X6: The degree vectors of a graph reached through the public operations
    are always computed, with one entry per vertex of the tier they
    range over. *)
Theorem degree_vectors_computed G from_hyper to_hyper :
  reachable G ->
  exists outs ins,
    outdegrees G from_hyper to_hyper = Ok outs /\
    indegrees G from_hyper to_hyper = Ok ins /\
    length outs = length (tier G from_hyper) /\
    length ins = length (tier G to_hyper).
Proof.
  intros HG. pose proof (reachable_adj_complete G HG) as Hc.
  eexists. eexists. split_and!.
  - apply degrees_of_complete. intros k Hk. by apply Hc.
  - apply degrees_of_complete. intros k Hk. by apply Hc.
  - by rewrite length_map.
  - by rewrite length_map.
Qed.
End StoreQueries.

(** ** Motif enumeration, continued *)

Section MotifMore.
Context {K : Type} `{EqDecision K}.
Implicit Types (G : Hypergraph K).

Lemma bind_Ok {A B} (m : result A) (k : A -> result B) (y : B) :
  m ≫= k = Ok y <-> exists x, m = Ok x /\ k x = Ok y.
Proof.
  destruct m as [x|e]; simpl; split.
  - intros Hk. by exists x.
  - by intros (x' & [= <-] & Hk).
  - done.
  - by intros (x' & [=] & _).
Qed.

Lemma for_each_elem {A B} (f : A -> result (list B)) (l : list A)
    (r : list B) :
  for_each l f = Ok r ->
  forall y, y ∈ r <-> exists x ys, x ∈ l /\ f x = Ok ys /\ y ∈ ys.
Proof.
  revert r. induction l as [|x l IH]; simpl; intros r Hr y.
  - injection Hr as <-. split; [by intros ?%elem_of_nil|].
    by intros (? & ? & ?%elem_of_nil & _).
  - apply bind_Ok in Hr as (ys & Hys & Hr).
    apply bind_Ok in Hr as (rest & Hrest & [= <-]).
    rewrite elem_of_app, (IH rest Hrest y). split.
    + intros [Hy|(x' & ys' & Hx' & Hf & Hy)].
      * exists x, ys. split_and!; [left | done | done].
      * exists x', ys'. split_and!; [by right | done | done].
    + intros (x' & ys' & [->|Hx']%elem_of_cons & Hf & Hy).
      * left. congruence.
      * right. by exists x', ys'.
Qed.

Lemma elem_of_pairs {A B C} (g : A -> B -> C) (l1 : list A) (l2 : list B)
    (z : C) :
  z ∈ flat_map (fun x => flat_map (fun y => [g x y]) l2) l1 <->
  exists x y, x ∈ l1 /\ y ∈ l2 /\ z = g x y.
Proof.
  rewrite list_elem_of_In, in_flat_map. split.
  - intros (x & Hx & Hz). apply in_flat_map in Hz as (y & Hy & [<-|[]]).
    exists x, y. by rewrite !list_elem_of_In.
  - intros (x & y & Hx & Hy & ->). exists x.
    split; [by apply list_elem_of_In|].
    apply in_flat_map. exists y.
    split; [by apply list_elem_of_In | by left].
Qed.

(** ** [itertools.combinations(l, 2)] *)

Lemma combinations2_elem {A} (l : list A) (x y : A) :
  (x, y) ∈ combinations2 l <->
  exists i j, i < j /\ l !! i = Some x /\ l !! j = Some y.
Proof.
  induction l as [|a l IH]; simpl.
  - split; [by intros ?%elem_of_nil|]. by intros (i & j & _ & ? & _).
  - rewrite elem_of_app, list_elem_of_fmap, IH. split.
    + intros [(y' & [= -> ->] & Hy)|(i & j & Hij & Hi & Hj)].
      * apply list_elem_of_lookup in Hy as [j Hj].
        exists 0, (S j). split_and!; [lia | done | done].
      * exists (S i), (S j). split_and!; [lia | done | done].
    + intros ([|i] & [|j] & Hij & Hi & Hj); try lia; simpl in *.
      * left. exists y. split; [congruence|].
        apply list_elem_of_lookup. eauto.
      * right. exists i, j. split_and!; [lia | done | done].
Qed.

(** The pairs are those of two positions in increasing order: there are
    n (n - 1) / 2 of them, and when the list has no repetition no pair
    has equal components and no pair occurs reversed. *)
Lemma combinations2_pairs {A} (l : list A) :
  2 * length (combinations2 l) = length l * (length l - 1) /\
  (forall x y, (x, y) ∈ combinations2 l <->
     exists i j, i < j /\ l !! i = Some x /\ l !! j = Some y) /\
  (NoDup l -> forall x y, (x, y) ∈ combinations2 l ->
     x <> y /\ (y, x) ∉ combinations2 l).
Proof.
  split_and!.
  - induction l as [|a l IH]; simpl; [done|].
    rewrite length_app, length_map.
    destruct l as [|b l]; simpl in *; [done|]. nia.
  - apply combinations2_elem.
  - intros Hnd x y (i & j & Hij & Hi & Hj)%combinations2_elem. split.
    + intros ->. assert (i = j) by by eapply NoDup_lookup. lia.
    + intros (i' & j' & Hij' & Hi' & Hj')%combinations2_elem.
      assert (i = j') by by eapply NoDup_lookup.
      assert (j = i') by by eapply NoDup_lookup. lia.
Qed.

(** ** What the enumerations return *)

Lemma edge_list_out_edges G a b es :
  out_edges G a b = Ok es -> edge_list (adj_out G) a b = es.
Proof.
  unfold out_edges, edge_list, stored, getitem.
  destruct (dict_get a (adj_out G)) as [d|]; simpl; [|done].
  destruct (dict_get b d); by intros [= <-].
Qed.

(** X7: On a graph reached through the public operations the dyadic
    enumeration is computed and returns exactly the tuples of two
    Hypernodes with an edge instance in each direction; it is therefore
    symmetric. *)
Theorem dyadic_instances G :
  reachable G ->
  exists ms,
    dyadic_interaction_motifs G = Ok ms /\
    (forall C1 C2 e1 e2,
       (C1, C2, e1, e2) ∈ ms <->
       dict_mem C1 (hypernodes G) = true /\
       dict_mem C2 (hypernodes G) = true /\
       e1 ∈ edge_list (adj_out G) C1 C2 /\
       e2 ∈ edge_list (adj_out G) C2 C1) /\
    (forall C1 C2 e1 e2,
       (C1, C2, e1, e2) ∈ ms -> (C2, C1, e2, e1) ∈ ms).
Proof.
  intros HG. pose proof (reachable_adj_complete G HG) as Hc.
  eexists. split; [by apply dyadic_complete|].
  assert (Hchar : forall C1 C2 e1 e2,
    (C1, C2, e1, e2) ∈
      flat_map (fun C1 => flat_map (dyadic_at G C1)
                            (dict_keys (adjacent (adj_out G) C1)))
               (dict_keys (hypernodes G)) <->
    dict_mem C1 (hypernodes G) = true /\
    dict_mem C2 (hypernodes G) = true /\
    e1 ∈ edge_list (adj_out G) C1 C2 /\
    e2 ∈ edge_list (adj_out G) C2 C1).
  { intros C1 C2 e1 e2.
    assert (Hat : forall C1' C2',
      (C1, C2, e1, e2) ∈ dyadic_at G C1' C2' <->
      C1' = C1 /\ C2' = C2 /\
      dict_mem C2 (hypernodes G) = true /\
      dict_mem C1 (adjacent (adj_out G) C2) = true /\
      e1 ∈ edge_list (adj_out G) C1 C2 /\
      e2 ∈ edge_list (adj_out G) C2 C1).
    { intros C1' C2'. unfold dyadic_at.
      destruct (dict_mem C2' (hypernodes G)) eqn:E1; simpl.
      - destruct (dict_mem C1' (adjacent (adj_out G) C2')) eqn:E2.
        + rewrite elem_of_pairs. split.
          * intros (x & y & Hx & Hy & [= -> -> -> ->]). done.
          * intros (-> & -> & _ & _ & Hx & Hy). by exists e1, e2.
        + split; [by intros ?%elem_of_nil|].
          intros (-> & -> & _ & ? & _). congruence.
      - split; [by intros ?%elem_of_nil|].
        intros (-> & -> & ? & _). congruence. }
    rewrite list_elem_of_In, in_flat_map. split.
    - intros (C1' & HC1' & Hin). apply in_flat_map in Hin as (C2' & _ & Hin).
      apply (proj2 (list_elem_of_In _ _)) in HC1', Hin.
      apply Hat in Hin as (-> & -> & ? & ? & ? & ?).
      split_and!; try done. by apply dict_mem_keys.
    - intros (H1 & H2 & He1 & He2). exists C1.
      split; [by apply list_elem_of_In, dict_mem_keys|].
      apply in_flat_map. exists C2.
      assert (Hkey : forall a b e, e ∈ edge_list (adj_out G) a b ->
                dict_mem b (adjacent (adj_out G) a) = true).
      { intros a b e. unfold edge_list, stored, adjacent, dict_mem.
        destruct (dict_get a (adj_out G)) as [d|]; simpl;
          [|by intros ?%elem_of_nil].
        destruct (dict_get b d); [done | by intros ?%elem_of_nil]. }
      split.
      + apply list_elem_of_In, dict_mem_keys. by eapply Hkey.
      + apply list_elem_of_In, Hat. split_and!; try done. by eapply Hkey. }
  split; [exact Hchar|].
  intros C1 C2 e1 e2 (? & ? & ? & ?)%Hchar. by apply Hchar.
Qed.
End MotifMore.

Section TriadsAndReciprocity.
Context {K : Type} `{EqDecision K}.
Implicit Types (G : Hypergraph K).

Lemma combinations2_members {A} (l : list A) (x y : A) :
  (x, y) ∈ combinations2 l -> x ∈ l /\ y ∈ l.
Proof.
  intros (i & j & _ & Hi & Hj)%combinations2_elem.
  split; apply list_elem_of_lookup; eauto.
Qed.

Lemma stored_out_edges G a b l :
  stored (adj_out G) a b = Some l ->
  out_edges G a b = Ok l /\ edge_list (adj_out G) a b = l.
Proof.
  intros Hs. unfold edge_list. rewrite Hs. split; [|done].
  destruct (stored_Some_get _ _ _ _ Hs) as (d & Hd & Hb).
  unfold out_edges, getitem. rewrite Hd. simpl. by rewrite Hb.
Qed.

Lemma key_stored (adj : list (K * list (K * list Info))) a b d :
  dict_get a adj = Some d -> b ∈ dict_keys d ->
  exists l, stored adj a b = Some l.
Proof.
  intros Hd [l Hl]%dict_mem_keys%dict_mem_true.
  exists l. unfold stored. by rewrite Hd.
Qed.

(** The instances of a triad around [C1] whose two neighbours are taken
    from [keys] and whose edge lists are given by [es]. *)
Lemma triads_elem (keys : list K) (es : K -> list Info)
    (mk : K -> K -> Info -> Info -> K * K * K * Info * Info)
    (t : K * K * K * Info * Info) :
  t ∈ flat_map (fun p : K * K =>
                  flat_map (fun e1 => flat_map (fun e2 => [mk p.1 p.2 e1 e2])
                                               (es p.2))
                           (es p.1))
               (combinations2 keys) <->
  exists C2 C3 e1 e2,
    (C2, C3) ∈ combinations2 keys /\ e1 ∈ es C2 /\ e2 ∈ es C3 /\
    t = mk C2 C3 e1 e2.
Proof.
  rewrite list_elem_of_In, in_flat_map. split.
  - intros ([C2 C3] & Hp & Ht). apply (proj2 (list_elem_of_In _ _)) in Hp, Ht.
    apply (elem_of_pairs (mk C2 C3)) in Ht as (e1 & e2 & ? & ? & ->).
    by exists C2, C3, e1, e2.
  - intros (C2 & C3 & e1 & e2 & Hp & H1 & H2 & ->). exists (C2, C3).
    split; [by apply list_elem_of_In|].
    apply list_elem_of_In, (elem_of_pairs (mk C2 C3)). by exists e1, e2.
Qed.

(** X8: On a graph reached through the public operations the
    outgoing-triad enumeration is computed and returns exactly the
    tuples of a Hypernode [C1], two of its outgoing neighbours of either
    tier taken at increasing positions of [adj_out[C1]], and one edge
    instance towards each. *)
Theorem outgoing_triad_instances G :
  reachable G ->
  exists ms,
    outgoing_triad_motifs G = Ok ms /\
    forall C1 C2 C3 e1 e2,
      (C1, C2, C3, e1, e2) ∈ ms <->
      dict_mem C1 (hypernodes G) = true /\
      (C2, C3) ∈ combinations2 (dict_keys (adjacent (adj_out G) C1)) /\
      e1 ∈ edge_list (adj_out G) C1 C2 /\
      e2 ∈ edge_list (adj_out G) C1 C3.
Proof.
  intros HG. pose proof (reachable_adj_complete G HG) as Hc.
  exists (flat_map (fun C1 =>
            flat_map (fun p : K * K =>
              flat_map (fun e1 =>
                flat_map (fun e2 => [(C1, p.1, p.2, e1, e2)])
                         (edge_list (adj_out G) C1 p.2))
                (edge_list (adj_out G) C1 p.1))
              (combinations2 (dict_keys (adjacent (adj_out G) C1))))
          (dict_keys (hypernodes G))).
  split.
  - unfold outgoing_triad_motifs. apply for_each_Ok. intros C1 HC1.
    assert (Hr1 : registered G C1 = true).
    { unfold registered. apply dict_mem_keys in HC1. rewrite HC1.
      apply orb_true_r. }
    destruct (Hc C1 Hr1) as [[out1 Hout1]%dict_mem_true _].
    unfold getitem, adjacent. rewrite Hout1. simpl.
    apply for_each_Ok. intros [C2 C3] [H2 H3]%combinations2_members.
    destruct (key_stored _ C1 C2 out1 Hout1 H2) as [l2 Hl2].
    destruct (key_stored _ C1 C3 out1 Hout1 H3) as [l3 Hl3].
    destruct (stored_out_edges G C1 C2 l2 Hl2) as [Ho2 He2].
    destruct (stored_out_edges G C1 C3 l3 Hl3) as [Ho3 He3]. simpl.
    rewrite Ho2, He2, He3. simpl.
    apply for_each_Ok. intros e1 _. rewrite Ho3. simpl.
    by apply (for_each_Ok _ (fun e2 => [(C1, C2, C3, e1, e2)])).
  - intros C1 C2 C3 e1 e2. rewrite list_elem_of_In, in_flat_map. split.
    + intros (C1' & HC1' & Ht). apply (proj2 (list_elem_of_In _ _)) in HC1', Ht.
      apply (triads_elem _ (edge_list (adj_out G) C1')
               (fun a b x y => (C1', a, b, x, y))) in Ht
        as (? & ? & ? & ? & ? & ? & ? & [= -> -> -> -> ->]).
      split_and!; try done. by apply dict_mem_keys.
    + intros (H1 & Hp & He1 & He2). exists C1.
      split; [by apply list_elem_of_In, dict_mem_keys|].
      apply list_elem_of_In,
        (triads_elem _ (edge_list (adj_out G) C1)
           (fun a b x y => (C1, a, b, x, y))).
      by exists C2, C3, e1, e2.
Qed.

(** X9: The incoming-triad enumeration reads [adj_out[C2][C1]] for the keys
    [C2] of [adj_in[C1]].  When no identity was inserted twice it is
    computed and returns exactly the tuples of a Hypernode [C1], two of
    its incoming neighbours of either tier taken at increasing positions
    of [adj_in[C1]], and one edge instance from each. *)
Theorem incoming_triad_instances G :
  reachable_fresh G ->
  exists ms,
    incoming_triad_motifs G = Ok ms /\
    forall C1 C2 C3 e1 e2,
      (C1, C2, C3, e1, e2) ∈ ms <->
      dict_mem C1 (hypernodes G) = true /\
      (C2, C3) ∈ combinations2 (dict_keys (adjacent (adj_in G) C1)) /\
      e1 ∈ edge_list (adj_out G) C2 C1 /\
      e2 ∈ edge_list (adj_out G) C3 C1.
Proof.
  intros HF. pose proof (reachable_fresh_reachable G HF) as HG.
  pose proof (reachable_adj_complete G HG) as Hc.
  destruct (reachable_fresh_invariants G HF) as [_ Hm].
  exists (flat_map (fun C1 =>
            flat_map (fun p : K * K =>
              flat_map (fun e1 =>
                flat_map (fun e2 => [(C1, p.1, p.2, e1, e2)])
                         (edge_list (adj_out G) p.2 C1))
                (edge_list (adj_out G) p.1 C1))
              (combinations2 (dict_keys (adjacent (adj_in G) C1))))
          (dict_keys (hypernodes G))).
  split.
  - unfold incoming_triad_motifs. apply for_each_Ok. intros C1 HC1.
    assert (Hr1 : registered G C1 = true).
    { unfold registered. apply dict_mem_keys in HC1. rewrite HC1.
      apply orb_true_r. }
    destruct (Hc C1 Hr1) as [_ [in1 Hin1]%dict_mem_true].
    unfold getitem, adjacent. rewrite Hin1. simpl.
    apply for_each_Ok. intros [C2 C3] [H2 H3]%combinations2_members.
    destruct (key_stored _ C1 C2 in1 Hin1 H2) as [l2 Hl2].
    destruct (key_stored _ C1 C3 in1 Hin1 H3) as [l3 Hl3].
    rewrite <- Hm in Hl2, Hl3.
    destruct (stored_out_edges G C2 C1 l2 Hl2) as [Ho2 He2].
    destruct (stored_out_edges G C3 C1 l3 Hl3) as [Ho3 He3]. simpl.
    rewrite Ho2, He2, He3. simpl.
    apply for_each_Ok. intros e1 _. rewrite Ho3. simpl.
    by apply (for_each_Ok _ (fun e2 => [(C1, C2, C3, e1, e2)])).
  - intros C1 C2 C3 e1 e2. rewrite list_elem_of_In, in_flat_map. split.
    + intros (C1' & HC1' & Ht). apply (proj2 (list_elem_of_In _ _)) in HC1', Ht.
      apply (triads_elem _ (fun C => edge_list (adj_out G) C C1')
               (fun a b x y => (C1', a, b, x, y))) in Ht
        as (? & ? & ? & ? & ? & ? & ? & [= -> -> -> -> ->]).
      split_and!; try done. by apply dict_mem_keys.
    + intros (H1 & Hp & He1 & He2). exists C1.
      split; [by apply list_elem_of_In, dict_mem_keys|].
      apply list_elem_of_In,
        (triads_elem _ (fun C => edge_list (adj_out G) C C1)
           (fun a b x y => (C1, a, b, x, y))).
      by exists C2, C3, e1, e2.
Qed.

Lemma out_edges_elem G a b es e :
  out_edges G a b = Ok es -> e ∈ es -> e ∈ edge_list (adj_out G) a b.
Proof. intros Ho He. by rewrite (edge_list_out_edges G a b es Ho). Qed.

(** Whatever the graph, every instance the reciprocity enumeration
    returns is made of a Hypernode [C1], a member [c1] of it, a Node
    [c2] that is stored as an incoming neighbour of [c1], an edge
    instance from [C1] to [c2] and one from [c2] to [c1]. *)
Lemma reciprocity_sound `{!SetOrder K} G ms C1 c1 c2 e1 e2 :
  reciprocity_motifs G = Ok ms ->
  (C1, c1, c2, e1, e2) ∈ ms ->
  (exists members, (C1, members) ∈ hypernodes G /\ c1 ∈ members) /\
  dict_mem c2 (nodes G) = true /\
  dict_mem c2 (adjacent (adj_in G) c1) = true /\
  e1 ∈ edge_list (adj_out G) C1 c2 /\
  e2 ∈ edge_list (adj_out G) c2 c1.
Proof.
  unfold reciprocity_motifs. intros Hrun Hin.
  apply (for_each_elem _ _ _ Hrun) in Hin
    as ([C1' members] & ys1 & HC1 & Hrun1 & Hin).
  apply (for_each_elem _ _ _ Hrun1) in Hin as (c1' & ys2 & Hc1 & Hrun2 & Hin).
  rewrite set_iter_perm in Hc1.
  apply bind_Ok in Hrun2 as (inc & Hinc & Hrun2).
  apply (for_each_elem _ _ _ Hrun2) in Hin as (c2' & ys3 & Hc2 & Hrun3 & Hin).
  destruct (dict_mem c2' (nodes G)) eqn:Hn2;
    [|injection Hrun3 as <-; by apply elem_of_nil in Hin].
  apply bind_Ok in Hrun3 as (outC1 & HoutC1 & Hrun3).
  destruct (dict_mem c2' outC1) eqn:Ho2;
    [|injection Hrun3 as <-; by apply elem_of_nil in Hin].
  apply bind_Ok in Hrun3 as (es1 & Hes1 & Hrun3).
  apply (for_each_elem _ _ _ Hrun3) in Hin as (e1' & ys4 & He1 & Hrun4 & Hin).
  apply bind_Ok in Hrun4 as (es2 & Hes2 & Hrun4).
  apply (for_each_elem _ _ _ Hrun4) in Hin
    as (e2' & ys5 & He2 & [= <-] & Hin).
  apply list_elem_of_singleton in Hin as [= -> -> -> -> ->].
  apply getitem_Ok in Hinc.
  split_and!.
  - by exists members.
  - done.
  - unfold adjacent. rewrite Hinc. by apply dict_mem_keys.
  - by eapply out_edges_elem.
  - by eapply out_edges_elem.
Qed.

Lemma set_diff_elem (x : K) (s t : list K) :
  x ∈ set_diff s t <-> x ∈ s /\ x ∉ t.
Proof. unfold set_diff. rewrite list_elem_of_filter. tauto. Qed.

(** Whatever the graph, every instance the external-reciprocity
    enumeration returns is made of a Hypernode [C3], two Nodes [c2] and
    [c1] of which [c1] is no member of [C3], an edge instance from [C3]
    to [c2] and one from [c2] to [c1]. *)
Lemma external_reciprocity_sound `{!SetOrder K}
    G ms C3 c2 c1 e1 e2 :
  external_reciprocity_motifs G = Ok ms ->
  (C3, c2, c1, e1, e2) ∈ ms ->
  (exists members,
     dict_get C3 (hypernodes G) = Some members /\ c1 ∉ members) /\
  dict_mem c2 (nodes G) = true /\ dict_mem c1 (nodes G) = true /\
  e1 ∈ edge_list (adj_out G) C3 c2 /\
  e2 ∈ edge_list (adj_out G) c2 c1.
Proof.
  unfold external_reciprocity_motifs. intros Hrun Hin.
  apply (for_each_elem _ _ _ Hrun) in Hin as (C3' & ys1 & HC3 & Hrun1 & Hin).
  apply bind_Ok in Hrun1 as (outC3 & HoutC3 & Hrun1).
  apply (for_each_elem _ _ _ Hrun1) in Hin as (c2' & ys2 & Hc2 & Hrun2 & Hin).
  destruct (dict_mem c2' (nodes G)) eqn:Hn2;
    [|injection Hrun2 as <-; by apply elem_of_nil in Hin].
  apply bind_Ok in Hrun2 as (outc2 & Houtc2 & Hrun2).
  apply bind_Ok in Hrun2 as (members & Hmem & Hrun2).
  apply (for_each_elem _ _ _ Hrun2) in Hin as (c1' & ys3 & Hc1 & Hrun3 & Hin).
  rewrite set_iter_perm in Hc1. apply set_diff_elem in Hc1 as [_ Hc1].
  destruct (dict_mem c1' (nodes G)) eqn:Hn1;
    [|injection Hrun3 as <-; by apply elem_of_nil in Hin].
  apply bind_Ok in Hrun3 as (es1 & Hes1 & Hrun3).
  apply (for_each_elem _ _ _ Hrun3) in Hin as (e1' & ys4 & He1 & Hrun4 & Hin).
  apply bind_Ok in Hrun4 as (es2 & Hes2 & Hrun4).
  apply (for_each_elem _ _ _ Hrun4) in Hin
    as (e2' & ys5 & He2 & [= <-] & Hin).
  apply list_elem_of_singleton in Hin as [= -> -> -> -> ->].
  apply getitem_Ok in Hmem.
  split_and!; try done.
  - by exists members.
  - by eapply out_edges_elem.
  - by eapply out_edges_elem.
Qed.

Lemma for_each_defined {A B} (f : A -> result (list B)) (l : list A)
    (r : list B) :
  for_each l f = Ok r -> forall x, x ∈ l -> exists ys, f x = Ok ys.
Proof.
  revert r. induction l as [|y l IH]; simpl; intros r Hr x Hx;
    [by apply elem_of_nil in Hx|].
  apply bind_Ok in Hr as (ys & Hys & Hr).
  apply bind_Ok in Hr as (rest & Hrest & _).
  apply elem_of_cons in Hx as [->|Hx]; [by exists ys | by apply (IH rest)].
Qed.

Lemma for_each_total {A B} (f : A -> result (list B)) (l : list A) :
  (forall x, x ∈ l -> exists ys, f x = Ok ys) ->
  exists r, for_each l f = Ok r.
Proof.
  induction l as [|x l IH]; intros Hf; simpl; [by eexists|].
  destruct (Hf x) as [ys ->]; [by left|].
  destruct IH as [r ->]; [intros y Hy; apply Hf; by right|].
  by eexists.
Qed.

Lemma for_each_raises_only {A B} (f : A -> result (list B)) (l : list A)
    (e : exn) :
  (forall x e', x ∈ l -> f x = Raise e' -> e' = e) ->
  forall e', for_each l f = Raise e' -> e' = e.
Proof.
  induction l as [|x l IH]; intros Hf e'; simpl; [done|].
  destruct (f x) as [ys|e0] eqn:Hx; simpl.
  - destruct (for_each l f) as [r|e1] eqn:Hl; simpl; [done|].
    intros [= <-]. apply IH; [|done].
    intros y e2 Hy. apply Hf. by right.
  - intros [= <-]. apply (Hf x); [by left | done].
Qed.

Lemma for_each_raise {A B} (f : A -> result (list B)) (l : list A)
    (x : A) (e : exn) :
  x ∈ l -> f x = Raise e ->
  (forall y e', y ∈ l -> f y = Raise e' -> e' = e) ->
  for_each l f = Raise e.
Proof.
  induction l as [|y l IH]; intros Hx Hfx Hf; [by apply elem_of_nil in Hx|].
  simpl. destruct (f y) as [ys|e0] eqn:Hy; simpl.
  - apply elem_of_cons in Hx as [->|Hx]; [congruence|].
    rewrite IH; [done..|]. intros z e' Hz. apply Hf. by right.
  - f_equal. apply (Hf y); [by left | done].
Qed.

Lemma getitem_raises {A V} `{EqDecision A} (k : A) (d : list (A * V)) e :
  getitem k d = Raise e -> e = KeyError.
Proof. unfold getitem. destruct (dict_get k d); congruence. Qed.

Lemma out_edges_raises G a b e : out_edges G a b = Raise e -> e = KeyError.
Proof.
  unfold out_edges. destruct (getitem a (adj_out G)) as [d|e0] eqn:Hd; simpl.
  - apply getitem_raises.
  - intros [= <-]. by apply getitem_raises in Hd.
Qed.

Lemma edge_list_stored G a b e :
  e ∈ edge_list (adj_out G) a b ->
  exists d l, dict_get a (adj_out G) = Some d /\ dict_get b d = Some l /\
              out_edges G a b = Ok l /\ e ∈ l.
Proof.
  unfold edge_list. destruct (stored (adj_out G) a b) as [l|] eqn:Hs;
    [|by intros ?%elem_of_nil].
  intros He. destruct (stored_Some_get _ _ _ _ Hs) as (d & Hd & Hl).
  exists d, l. split_and!; try done.
  unfold out_edges, getitem. rewrite Hd. simpl. by rewrite Hl.
Qed.

(** The instances of the reciprocity enumeration, on any graph on which
    it returns. *)
Lemma reciprocity_elem `{!SetOrder K} G ms C1 c1 c2 e1 e2 :
  reciprocity_motifs G = Ok ms ->
  ((C1, c1, c2, e1, e2) ∈ ms <->
   (exists members, (C1, members) ∈ hypernodes G /\ c1 ∈ members) /\
   dict_mem c2 (nodes G) = true /\
   dict_mem c2 (adjacent (adj_in G) c1) = true /\
   e1 ∈ edge_list (adj_out G) C1 c2 /\
   e2 ∈ edge_list (adj_out G) c2 c1).
Proof.
  intros Hrun. split; [by apply reciprocity_sound|].
  intros ((members & HC1 & Hc1) & Hn2 & Hin2 & He1 & He2).
  unfold reciprocity_motifs in Hrun.
  destruct (edge_list_stored _ _ _ _ He1)
    as (outC1 & l1 & HoutC1 & Hl1 & Ho1 & He1').
  destruct (edge_list_stored _ _ _ _ He2)
    as (outc2 & l2 & Houtc2 & Hl2 & Ho2 & He2').
  (* every level of the loop returned *)
  pose proof Hrun as Hall.
  apply (for_each_elem _ _ _ Hrun). exists (C1, members).
  assert (Hc1' : c1 ∈ set_iter members) by by rewrite set_iter_perm.
  destruct (for_each_defined _ _ _ Hall (C1, members) HC1) as [ys1 Hys1].
  exists ys1. split_and!; [done..|].
  apply (for_each_elem _ _ _ Hys1). exists c1.
  destruct (for_each_defined _ _ _ Hys1 c1 Hc1') as [ys2 Hys2].
  exists ys2. split_and!; [done..|].
  apply bind_Ok in Hys2 as (inc & Hinc & Hys2).
  apply (for_each_elem _ _ _ Hys2). exists c2.
  assert (Hc2 : c2 ∈ dict_keys inc).
  { apply getitem_Ok in Hinc. unfold adjacent in Hin2. rewrite Hinc in Hin2.
    by apply dict_mem_keys. }
  destruct (for_each_defined _ _ _ Hys2 c2 Hc2) as [ys3 Hys3].
  exists ys3. split_and!; [done..|].
  rewrite Hn2, (proj2 (getitem_Ok _ _ _) HoutC1) in Hys3. simpl in Hys3.
  assert (Hm : dict_mem c2 outC1 = true)
    by (apply dict_mem_true; by rewrite Hl1).
  rewrite Hm, Ho1 in Hys3. simpl in Hys3.
  apply (for_each_elem _ _ _ Hys3). exists e1.
  destruct (for_each_defined _ _ _ Hys3 e1 He1') as [ys4 Hys4].
  exists ys4. split_and!; [done..|].
  rewrite Ho2 in Hys4. simpl in Hys4.
  apply (for_each_elem _ _ _ Hys4). exists e2, [(C1, c1, c2, e1, e2)].
  split_and!; [done | done | by left].
Qed.

Lemma reciprocity_total `{!SetOrder K} G :
  reachable G -> mirrored G ->
  (forall C members c, (C, members) ∈ hypernodes G -> c ∈ members ->
     registered G c = true) ->
  exists ms, reciprocity_motifs G = Ok ms.
Proof.
  intros HG Hm Hreg. pose proof (reachable_adj_complete G HG) as Hc.
  unfold reciprocity_motifs.
  apply for_each_total. intros [C1 members] HC1.
  assert (Hr1 : registered G C1 = true).
  { unfold registered. apply orb_true_iff. right.
    apply dict_mem_elem. by exists members. }
  destruct (Hc C1 Hr1) as [[outC1 HoutC1]%dict_mem_true _].
  apply for_each_total. intros c1 Hc1. rewrite set_iter_perm in Hc1.
  destruct (Hc c1 (Hreg _ _ _ HC1 Hc1)) as [_ [inc Hinc]%dict_mem_true].
  rewrite (proj2 (getitem_Ok _ _ _) Hinc). simpl.
  apply for_each_total. intros c2 Hc2.
  destruct (dict_mem c2 (nodes G)) eqn:Hn2; [|by eexists].
  rewrite (proj2 (getitem_Ok _ _ _) HoutC1). simpl.
  destruct (dict_mem c2 outC1) eqn:Ho2; [|by eexists].
  apply dict_mem_keys in Ho2.
  destruct (key_stored _ C1 c2 outC1 HoutC1 Ho2) as [l1 Hl1].
  destruct (key_stored _ c1 c2 inc Hinc Hc2) as [l2 Hl2].
  rewrite <- Hm in Hl2.
  destruct (stored_out_edges G C1 c2 l1 Hl1) as [Ho1 _].
  destruct (stored_out_edges G c2 c1 l2 Hl2) as [Ho2' _].
  rewrite Ho1. simpl.
  apply for_each_total. intros e1 _. rewrite Ho2'. simpl.
  apply for_each_total. intros e2 _. by eexists.
Qed.

(** X10: When no identity was inserted twice and every member of a Hypernode
    is a Node or a Hypernode of the graph, the reciprocity enumeration
    is computed and returns exactly the tuples of a Hypernode [C1], a
    member [c1] of it, a Node [c2] stored as an incoming neighbour of
    [c1], an edge instance from [C1] to [c2] and one from [c2] to
    [c1]. *)
Theorem reciprocity_instances `{!SetOrder K} G :
  reachable_fresh G ->
  (forall C members c, (C, members) ∈ hypernodes G -> c ∈ members ->
     registered G c = true) ->
  exists ms,
    reciprocity_motifs G = Ok ms /\
    forall C1 c1 c2 e1 e2,
      (C1, c1, c2, e1, e2) ∈ ms <->
      (exists members, (C1, members) ∈ hypernodes G /\ c1 ∈ members) /\
      dict_mem c2 (nodes G) = true /\
      dict_mem c2 (adjacent (adj_in G) c1) = true /\
      e1 ∈ edge_list (adj_out G) C1 c2 /\
      e2 ∈ edge_list (adj_out G) c2 c1.
Proof.
  intros HF Hreg.
  destruct (reachable_fresh_invariants G HF) as [_ Hm].
  destruct (reciprocity_total G (reachable_fresh_reachable G HF) Hm Hreg)
    as [ms Hms].
  exists ms. split; [done|]. intros. by apply reciprocity_elem.
Qed.

(** X11: [add_hypernode] accepts members that are no vertices of the graph;
    on a graph with such a member the reciprocity enumeration raises
    [KeyError]. *)
Theorem reciprocity_unregistered_member `{!SetOrder K} G C members c :
  reachable G -> (C, members) ∈ hypernodes G -> c ∈ members ->
  registered G c = false ->
  reciprocity_motifs G = Raise KeyError.
Proof.
  intros HG HC Hc Hreg. unfold reciprocity_motifs.
  assert (Hbody : forall C1 c1 e',
    (inc ← getitem c1 (adj_in G);
     for_each (dict_keys inc) (fun c2 =>
       if dict_mem c2 (nodes G) then
         outC1 ← getitem C1 (adj_out G);
         if dict_mem c2 outC1 then
           es1 ← out_edges G C1 c2;
           for_each es1 (fun e1 =>
             es2 ← out_edges G c2 c1;
             for_each es2 (fun e2 => Ok [(C1, c1, c2, e1, e2)]))
         else Ok []
       else Ok [])) = Raise e' -> e' = KeyError).
  { intros C1 c1 e'.
    destruct (getitem c1 (adj_in G)) as [inc|e0] eqn:Hinc; simpl;
      [|intros [= <-]; by apply getitem_raises in Hinc].
    apply for_each_raises_only. intros c2 e2' _.
    destruct (dict_mem c2 (nodes G)); [|done].
    destruct (getitem C1 (adj_out G)) as [outC1|e0] eqn:HoutC1; simpl;
      [|intros [= <-]; by apply getitem_raises in HoutC1].
    destruct (dict_mem c2 outC1); [|done].
    destruct (out_edges G C1 c2) as [es1|e0] eqn:Hes1; simpl;
      [|intros [= <-]; by apply out_edges_raises in Hes1].
    apply for_each_raises_only. intros e1 e3' _.
    destruct (out_edges G c2 c1) as [es2|e0] eqn:Hes2; simpl;
      [|intros [= <-]; by apply out_edges_raises in Hes2].
    apply for_each_raises_only. by intros e2 e4' _. }
  apply (for_each_raise _ _ (C, members)); [done| |].
  - apply (for_each_raise _ _ c); [by rewrite set_iter_perm| |].
    + destruct (getitem c (adj_in G)) as [d|e] eqn:Hd; simpl;
        [|by apply getitem_raises in Hd as ->].
      apply getitem_Ok in Hd.
      rewrite (reachable_adj_keys_registered G HG c) in Hreg; [done|].
      right. apply dict_mem_true. by rewrite Hd.
    + intros c1 e' _. apply Hbody.
  - intros [C1 members1] e' _. apply for_each_raises_only.
    intros c1 e1' _. apply Hbody.
Qed.

Lemma external_reciprocity_total `{!SetOrder K} G :
  reachable G -> exists ms, external_reciprocity_motifs G = Ok ms.
Proof.
  intros HG. pose proof (reachable_adj_complete G HG) as Hc.
  unfold external_reciprocity_motifs.
  apply for_each_total. intros C3 HC3.
  apply dict_mem_keys in HC3.
  assert (Hr3 : registered G C3 = true)
    by (unfold registered; rewrite HC3; apply orb_true_r).
  destruct (Hc C3 Hr3) as [[outC3 HoutC3]%dict_mem_true _].
  apply dict_mem_true in HC3 as [members Hmem].
  rewrite (proj2 (getitem_Ok _ _ _) HoutC3). simpl.
  apply for_each_total. intros c2 Hc2.
  destruct (dict_mem c2 (nodes G)) eqn:Hn2; [|by eexists].
  assert (Hr2 : registered G c2 = true) by (unfold registered; by rewrite Hn2).
  destruct (Hc c2 Hr2) as [[outc2 Houtc2]%dict_mem_true _].
  rewrite (proj2 (getitem_Ok _ _ _) Houtc2), (proj2 (getitem_Ok _ _ _) Hmem).
  simpl.
  apply for_each_total. intros c1 Hc1.
  rewrite set_iter_perm in Hc1.
  apply set_diff_elem in Hc1 as [Hc1 _].
  apply (proj1 (set_of_list_elem _ _)) in Hc1.
  destruct (dict_mem c1 (nodes G)) eqn:Hn1; [|by eexists].
  destruct (key_stored _ C3 c2 outC3 HoutC3 Hc2) as [l1 Hl1].
  destruct (key_stored _ c2 c1 outc2 Houtc2 Hc1) as [l2 Hl2].
  destruct (stored_out_edges G C3 c2 l1 Hl1) as [Ho1 _].
  destruct (stored_out_edges G c2 c1 l2 Hl2) as [Ho2 _].
  rewrite Ho1. simpl.
  apply for_each_total. intros e1 _. rewrite Ho2. simpl.
  apply for_each_total. intros e2 _. by eexists.
Qed.

(** X12: On a graph reached through the public operations the
    external-reciprocity enumeration is computed and returns exactly
    the tuples of a Hypernode [C3], two Nodes [c2] and [c1] of which
    [c1] is no member of [C3], an edge instance from [C3] to [c2] and
    one from [c2] to [c1]. *)
Theorem external_reciprocity_instances `{!SetOrder K} G :
  reachable G ->
  exists ms,
    external_reciprocity_motifs G = Ok ms /\
    forall C3 c2 c1 e1 e2,
      (C3, c2, c1, e1, e2) ∈ ms <->
      (exists members,
         dict_get C3 (hypernodes G) = Some members /\ c1 ∉ members) /\
      dict_mem c2 (nodes G) = true /\ dict_mem c1 (nodes G) = true /\
      e1 ∈ edge_list (adj_out G) C3 c2 /\
      e2 ∈ edge_list (adj_out G) c2 c1.
Proof.
  intros HG. destruct (external_reciprocity_total G HG) as [ms Hms].
  exists ms. split; [done|]. intros C3 c2 c1 e1 e2.
  split; [by apply external_reciprocity_sound|].
  intros ((members & Hmem & Hc1) & Hn2 & Hn1 & He1 & He2).
  destruct (edge_list_stored _ _ _ _ He1)
    as (outC3 & l1 & HoutC3 & Hl1 & Ho1 & He1').
  destruct (edge_list_stored _ _ _ _ He2)
    as (outc2 & l2 & Houtc2 & Hl2 & Ho2 & He2').
  unfold external_reciprocity_motifs in Hms.
  assert (HC3 : C3 ∈ dict_keys (hypernodes G))
    by (apply dict_mem_keys, dict_mem_true; by rewrite Hmem).
  assert (Hc2 : c2 ∈ dict_keys outC3)
    by (apply dict_mem_keys, dict_mem_true; by rewrite Hl1).
  assert (Hc1' : c1 ∈ set_iter (set_diff (set_of_list (dict_keys outc2))
                                         members)).
  { rewrite set_iter_perm. apply set_diff_elem. split; [|done].
    apply set_of_list_elem, dict_mem_keys, dict_mem_true. by rewrite Hl2. }
  apply (for_each_elem _ _ _ Hms). exists C3.
  destruct (for_each_defined _ _ _ Hms C3 HC3) as [ys1 Hys1].
  exists ys1. split_and!; [done..|].
  rewrite (proj2 (getitem_Ok _ _ _) HoutC3) in Hys1. simpl in Hys1.
  apply (for_each_elem _ _ _ Hys1). exists c2.
  destruct (for_each_defined _ _ _ Hys1 c2 Hc2) as [ys2 Hys2].
  exists ys2. split_and!; [done..|].
  rewrite Hn2, (proj2 (getitem_Ok _ _ _) Houtc2),
    (proj2 (getitem_Ok _ _ _) Hmem) in Hys2. simpl in Hys2.
  apply (for_each_elem _ _ _ Hys2). exists c1.
  destruct (for_each_defined _ _ _ Hys2 c1 Hc1') as [ys3 Hys3].
  exists ys3. split_and!; [done..|].
  rewrite Hn1, Ho1 in Hys3. simpl in Hys3.
  apply (for_each_elem _ _ _ Hys3). exists e1.
  destruct (for_each_defined _ _ _ Hys3 e1 He1') as [ys4 Hys4].
  exists ys4. split_and!; [done..|].
  rewrite Ho2 in Hys4. simpl in Hys4.
  apply (for_each_elem _ _ _ Hys4). exists e2, [(C3, c2, c1, e1, e2)].
  split_and!; [done | done | by left].
Qed.
End TriadsAndReciprocity.

(** ** The graph builder, continued *)

Section BuilderExact.
Context `{!SetOrder string} `{!SetOrder (User * User * Z)} `{!UserMeta}.
Implicit Types (uts : list (string * Utterance)) (ex : option string).
Implicit Types (ut : Utterance) (loc : locals) (G : Hypergraph vertex).

Lemma recorded_reply_of uts ex ut r target :
  recorded uts ex ut r target <-> reply_of uts ex ut = Some (r, target).
Proof.
  unfold recorded, reply_of. split.
  - intros (Hne & -> & Hget & Hr).
    rewrite bool_decide_eq_true_2 by done.
    unfold dict_mem. rewrite Hget. simpl.
    by rewrite bool_decide_eq_true_2.
  - case_bool_decide as Hne; [|done].
    destruct (ut_reply_to ut) as [r'|]; [|done].
    destruct (dict_mem r' uts); simpl; [|done].
    case_bool_decide as Hr; [|done].
    destruct (dict_get r' uts) as [tg|] eqn:Hget; [|done].
    by intros [= <- <-].
Qed.

Lemma reply_of_none uts ex ut :
  (forall r target, ~ recorded uts ex ut r target) ->
  reply_of uts ex ut = None.
Proof.
  intros Hno. destruct (reply_of uts ex ut) as [[r tg]|] eqn:E; [|done].
  by apply recorded_reply_of, Hno in E.
Qed.

Lemma reply_of_excluded uts ex ut :
  Some (ut_id ut) = ex -> reply_of uts ex ut = None.
Proof.
  intros He. unfold reply_of. rewrite bool_decide_eq_false_2; [done|].
  by intros ?.
Qed.

Lemma set_of_list_snoc {A} `{EqDecision A} (l : list A) (x : A) :
  set_of_list (l ++ [x]) = set_add x (set_of_list l).
Proof. unfold set_of_list. by rewrite foldl_app. Qed.

Lemma dict_keys_set_add {A V} `{EqDecision A} (k : A) (v : V)
    (d : list (A * V)) :
  dict_keys (dict_set k v d) = set_add k (dict_keys d).
Proof.
  rewrite dict_keys_set. unfold set_add, set_mem.
  destruct (dict_mem k d) eqn:Hm.
  - rewrite bool_decide_eq_true_2; [done|]. by apply dict_mem_keys.
  - rewrite bool_decide_eq_false_2; [done|]. by apply dict_not_mem_keys.
Qed.

Lemma included_snoc ex pre ut :
  included ex (pre ++ [ut]) =
  included ex pre ++ (if decide (Some (ut_id ut) <> ex) then [ut] else []).
Proof. unfold included. by rewrite filter_app. Qed.

Lemma locals_exact_excluded uts ex pre ut loc :
  Some (ut_id ut) = ex ->
  locals_exact uts ex pre loc -> locals_exact uts ex (pre ++ [ut]) loc.
Proof.
  intros He (E1 & E2 & E3 & E4 & E5).
  assert (Hinc : included ex (pre ++ [ut]) = included ex pre).
  { rewrite included_snoc, decide_False, app_nil_r; [done|]. by intros ?. }
  assert (Hrep : replies_to uts ex ut = None).
  { unfold replies_to. by rewrite reply_of_excluded. }
  unfold locals_exact. rewrite Hinc. split_and!; try done.
  - rewrite omap_app. simpl. rewrite Hrep. simpl. by rewrite app_nil_r.
  - intros u. rewrite omap_app. simpl. rewrite Hrep, E5.
    case_decide; by rewrite app_nil_r.
Qed.

Lemma locals_exact_included uts ex pre ut loc loc' :
  Some (ut_id ut) <> ex ->
  locals_exact uts ex pre loc ->
  username_to_utt_ids loc' =
    dict_set (ut_user ut)
      (set_add (ut_id ut)
         (match dict_get (ut_user ut) (username_to_utt_ids loc) with
          | Some ids => ids | None => [] end))
      (username_to_utt_ids loc) ->
  ((exists r target,
      recorded uts ex ut r target /\
      reply_edges loc' = reply_edges loc ++ [(ut_id ut, r)] /\
      speaker_to_reply_tos loc' =
        defaultdict_append (ut_user ut) r (speaker_to_reply_tos loc) /\
      speaker_target_pairs loc' =
        set_add (ut_user ut, ut_user target, ut_timestamp ut)
                (speaker_target_pairs loc)) \/
   ((forall r target, ~ recorded uts ex ut r target) /\
    reply_edges loc' = reply_edges loc /\
    speaker_to_reply_tos loc' = speaker_to_reply_tos loc /\
    speaker_target_pairs loc' = speaker_target_pairs loc)) ->
  locals_exact uts ex (pre ++ [ut]) loc'.
Proof.
  intros Hne (E1 & E2 & E3 & E4 & E5) Hu2i Hcase.
  assert (Hinc : included ex (pre ++ [ut]) = included ex pre ++ [ut])
    by (by rewrite included_snoc, decide_True).
  assert (G1 : dict_keys (username_to_utt_ids loc') =
               set_of_list (ut_user <$> included ex (pre ++ [ut]))).
  { rewrite Hu2i, dict_keys_set_add, E1, Hinc, fmap_app. simpl.
    by rewrite set_of_list_snoc. }
  assert (G2 : forall u ids,
    dict_get u (username_to_utt_ids loc') = Some ids ->
    ids = set_of_list (ut_id <$> filter (fun ut => ut_user ut = u)
                                        (included ex (pre ++ [ut])))).
  { intros u ids. rewrite Hu2i, dict_get_set, Hinc, filter_app.
    rewrite filter_cons, filter_nil.
    destruct (decide (ut_user ut = u)) as [<-|Hu].
    - intros [= <-]. rewrite fmap_app.
      change (ut_id <$> [ut]) with [ut_id ut]. rewrite set_of_list_snoc. f_equal.
      destruct (dict_get (ut_user ut) (username_to_utt_ids loc))
        as [ids0|] eqn:E; [by apply E2|].
      (* no entry yet: no included utterance of this author so far *)
      assert (Hno : ut_user ut ∉ ut_user <$> included ex pre).
      { rewrite <- set_of_list_elem, <- E1.
        by apply dict_not_mem_keys, dict_mem_false. }
      rewrite filter_none; [done|].
      intros x Hx Hux. apply Hno. apply list_elem_of_fmap. by exists x.
    - rewrite app_nil_r. apply E2. }
  unfold locals_exact.
  destruct Hcase as [(r & tg & Hrec & Hre & Hs2r & _)
                    |(Hnone & Hre & Hs2r & _)].
  - assert (Hrep : replies_to uts ex ut = Some r).
    { unfold replies_to. apply recorded_reply_of in Hrec. by rewrite Hrec. }
    split_and!; try done.
    + rewrite Hre, E3, omap_app. simpl. by rewrite Hrep.
    + rewrite Hs2r. unfold defaultdict_append.
      destruct (dict_get (ut_user ut) (speaker_to_reply_tos loc));
        by apply dict_set_NoDup.
    + intros u. rewrite omap_app, <- E5, Hs2r. simpl. rewrite Hrep.
      unfold defaultdict_append.
      destruct (decide (ut_user ut = u)) as [<-|Hu].
      * destruct (dict_get (ut_user ut) (speaker_to_reply_tos loc));
          by rewrite dict_get_set_eq.
      * rewrite app_nil_r.
        destruct (dict_get (ut_user ut) (speaker_to_reply_tos loc));
          by rewrite dict_get_set_ne.
  - assert (Hrep : replies_to uts ex ut = None).
    { unfold replies_to. by rewrite reply_of_none. }
    split_and!; try done.
    + rewrite Hre, E3, omap_app. simpl. rewrite Hrep. simpl.
      by rewrite app_nil_r.
    + by rewrite Hs2r.
    + intros u. rewrite omap_app, <- E5, Hs2r. simpl. rewrite Hrep.
      case_decide; by rewrite app_nil_r.
Qed.

Lemma node_loop_exact uts ex l pre loc G loc' G' :
  locals_exact uts ex pre loc -> nodes_order ex pre G ->
  node_loop uts ex l loc G = (Ok loc', G') ->
  locals_exact uts ex (pre ++ l) loc' /\ nodes_order ex (pre ++ l) G'.
Proof.
  revert pre loc G. induction l as [|ut l IH]; intros pre loc G Ha HG; simpl.
  - intros [= <- <-]. by rewrite app_nil_r.
  - unfold mbind, ST_bind.
    destruct (node_step uts ex ut loc G) as [[a1|e] G1] eqn:Hstep; [|done].
    intros Hloop.
    rewrite (app_assoc pre [ut] l : pre ++ ut :: l = (pre ++ [ut]) ++ l).
    apply (IH (pre ++ [ut]) a1 G1); [| |done].
    + destruct (decide (Some (ut_id ut) = ex)) as [He|Hne].
      * rewrite node_step_excluded in Hstep by done.
        injection Hstep as <- <-. by apply locals_exact_excluded.
      * destruct (node_step_included uts ex ut loc G Hne)
          as (a' & Hrun & Hu2i & Hcase).
        rewrite Hrun in Hstep. injection Hstep as <- <-.
        by eapply locals_exact_included.
    + unfold nodes_order in *.
      destruct (decide (Some (ut_id ut) = ex)) as [He|Hne].
      * rewrite node_step_excluded in Hstep by done.
        injection Hstep as <- <-.
        rewrite included_snoc, decide_False, app_nil_r; [done|].
        by intros ?.
      * destruct (node_step_included uts ex ut loc G Hne)
          as (a' & Hrun & _).
        rewrite Hrun in Hstep. injection Hstep as <- <-.
        change (dict_keys (dict_set (Utt (ut_id ut)) (ut_dict ut) (nodes G)) =
                set_of_list (Utt <$> (ut_id <$> included ex (pre ++ [ut])))).
        rewrite dict_keys_set_add, HG, included_snoc, decide_True by done.
        rewrite !fmap_app. simpl. by rewrite set_of_list_snoc.
Qed.
End BuilderExact.

(** ** The graph the builder leaves *)

Section BuilderRun.
Context `{!SetOrder string} `{!SetOrder (User * User * Z)} `{!UserMeta}.
Implicit Types (uts : list (string * Utterance)) (ex : option string).
Implicit Types (ut : Utterance) (loc : locals) (G : Hypergraph vertex).

Lemma dict_set_fresh {A V} `{EqDecision A} (k : A) (v : V)
    (d : list (A * V)) :
  dict_mem k d = false -> dict_set k v d = d ++ [(k, v)].
Proof.
  unfold dict_mem. induction d as [|[k' v'] d IH]; simpl; [done|].
  destruct (decide (k = k')); [done|]. intros Hm. by rewrite IH.
Qed.

Lemma set_of_list_NoDup_id {A} `{EqDecision A} (l : list A) :
  NoDup l -> set_of_list l = l.
Proof.
  unfold set_of_list.
  assert (Hgen : forall s, NoDup (s ++ l) ->
                 foldl (fun s x => set_add x s) s l = s ++ l).
  { induction l as [|x l IH]; intros s Hnd; simpl; [by rewrite app_nil_r|].
    assert (Hx : x ∉ s).
    { apply NoDup_app in Hnd as (_ & Hd & _). intros Hin.
      apply (Hd x Hin). by left. }
    unfold set_add at 2, set_mem. rewrite bool_decide_eq_false_2 by done.
    rewrite IH; [by rewrite <- app_assoc|].
    by rewrite <- app_assoc. }
  intros Hnd. by rewrite (Hgen [] Hnd).
Qed.

Lemma hypernode_pass_exact (l : list (User * list string)) G1 G2 :
  for_ l (fun '(u, ids) =>
            add_hypernode (Usr u) (Utt <$> set_iter ids)
                          (Some (user_meta u))) G1 = (Ok tt, G2) ->
  NoDup l.*1 ->
  (forall u, u ∈ l.*1 -> dict_mem (Usr u) (hypernodes G1) = false) ->
  hypernodes G2 =
  hypernodes G1 ++
  map (fun e => (Usr e.1, set_of_list (Utt <$> set_iter e.2))) l.
Proof.
  revert G1. induction l as [|[u ids] l IH]; intros G1; simpl.
  - intros [= <-] _ _. by rewrite app_nil_r.
  - unfold mbind, ST_bind. rewrite add_hypernode_eq.
    intros Hrun [Hu Hnd]%NoDup_cons Hfresh.
    rewrite (IH _ Hrun Hnd); simpl.
    + rewrite dict_set_fresh by (apply Hfresh; by left).
      by rewrite <- app_assoc.
    + intros u' Hu'. rewrite dict_mem_set.
      rewrite bool_decide_eq_false_2 by (intros [= ->]; done). simpl.
      apply Hfresh. by right.
Qed.

(** The run of [build], stage by stage: the locals the utterance loop
    leaves, the graph after the loop, the graph after the Hypernode
    pass and the final graph. *)
Lemma build_run uts ex :
  keyed_by_id uts ->
  exists a G1 G2 G,
    node_loop uts ex (sort_by ut_timestamp uts.*2) no_locals init =
      (Ok a, G1) /\
    for_ (username_to_utt_ids a) (fun '(u, ids) =>
      add_hypernode (Usr u) (Utt <$> set_iter ids) (Some (user_meta u))) G1 =
      (Ok tt, G2) /\
    build uts ex init = (Ok tt, G) /\ built uts ex a G /\
    hypernodes G1 = [] /\ nodes G = nodes G1 /\ hypernodes G = hypernodes G2.
Proof.
  intros Hkey. unfold build.
  set (thread := sort_by ut_timestamp uts.*2).
  destruct (node_loop_ok uts ex thread [] no_locals init
              (no_locals_ok uts ex) (init_nodes_ok ex))
    as (a & G1 & Hloop & Ha & HG1).
  simpl in Ha, HG1.
  destruct (hypernode_pass_ok ex thread G1 (username_to_utt_ids a) HG1)
    as (G2 & Hhyp & HG2).
  pose proof Ha as (L1 & L2 & L3 & L4 & L5 & L6).
  pose proof HG1 as (_ & _ & N3 & _).
  pose proof HG2 as (Hn2 & Hr2 & Y3 & Y4 & Hadj2).
  (* registration of the endpoints *)
  assert (Rnode : forall ut, ut ∈ thread -> Some (ut_id ut) <> ex ->
                  registered G2 (Utt (ut_id ut)) = true).
  { intros ut Hin Hne. unfold registered. rewrite Hn2.
    apply orb_true_iff. left. apply N3. by exists ut. }
  assert (Ruser : forall ut, ut ∈ thread -> Some (ut_id ut) <> ex ->
                  registered G2 (Usr (ut_user ut)) = true).
  { intros ut Hin Hne. unfold registered.
    apply orb_true_iff. right.
    destruct (proj1 (dict_mem_elem _ _) (L1 ut Hin Hne)) as [ids Hids].
    by apply (Y4 _ ids). }
  assert (Rtarget : forall ut r tg, recorded uts ex ut r tg ->
                    tg ∈ thread /\ Some (ut_id tg) <> ex /\ ut_id tg = r).
  { intros ut r tg (_ & _ & Hget & Hne).
    apply dict_get_Some_elem in Hget.
    pose proof (Hkey r tg Hget) as Hid.
    split_and!; [|congruence|done].
    unfold thread. rewrite sort_by_perm.
    apply list_elem_of_fmap. by exists (r, tg). }
  assert (Rnot : forall i, dict_mem (Utt i) (hypernodes G2) = false).
  { intros i. apply not_true_is_false. intros Hm.
    by destruct (hypernode_keys_users _ _ _ _ HG2 Hm). }
  (* the three edge passes *)
  destruct (add_edges_logged G2 G2 []
              (map (fun e => (Utt e.1, Utt e.2, None)) (reply_edges a)))
    as (G3 & Hrun3 & HG3).
  { by apply unlogged_logged. }
  { intros e [[i r] [-> Hin]]%list_elem_of_fmap. simpl.
    destruct (L3 i r Hin) as (ut & tg & Hut & Hrec & <-).
    destruct (Rtarget _ _ _ Hrec) as (Htg & Hne & <-).
    destruct Hrec as (Hne' & _).
    split_and!; [by apply Rnode..|].
    unfold payload_ok. by rewrite Rnot. }
  destruct (add_edges_logged G2 G3 _
              (flat_map (fun e => map (fun r => (Usr e.1, Utt r, None)) e.2)
                        (speaker_to_reply_tos a)) HG3)
    as (G4 & Hrun4 & HG4).
  { intros e [[u rs] [Hin He]]%list_elem_of_In%in_flat_map.
    apply (proj2 (list_elem_of_In _ _)) in Hin. simpl in He.
    apply (proj2 (list_elem_of_In _ _)), list_elem_of_fmap in He
      as [r [-> Hr]]. simpl.
    destruct (L4 u rs r Hin Hr) as (ut & tg & Hut & Hrec & <-).
    destruct (Rtarget _ _ _ Hrec) as (Htg & Hne & <-).
    destruct Hrec as (Hne' & _).
    split_and!; [by apply Ruser | by apply Rnode |].
    unfold payload_ok. by rewrite Rnot, andb_false_r. }
  destruct (add_edges_logged G2 G4 _
              (map (fun e => (Usr e.1.1, Usr e.1.2,
                              Some (timestamp_payload e.2)))
                   (set_iter (speaker_target_pairs a))) HG4)
    as (G5 & Hrun5 & HG5).
  { intros e [[[u v] t] [-> Hin]]%list_elem_of_fmap. simpl.
    rewrite set_iter_perm in Hin.
    apply L6 in Hin as (ut & r & tg & Hut & Hrec & [= -> -> ->]).
    destruct (Rtarget _ _ _ Hrec) as (Htg & Hne & _).
    destruct Hrec as (Hne' & _).
    split_and!; [by apply Ruser..|].
    intros _. by eexists. }
  assert (E3 : for_ (reply_edges a)
                 (fun '(u, v) => add_edge (Utt u) (Utt v) None) G2
               = (Ok tt, G3)).
  { rewrite for_map in Hrun3. rewrite <- Hrun3.
    apply for_ext. by intros [u v] s. }
  assert (E4 : for_ (speaker_to_reply_tos a)
                 (fun '(u, reply_tos) =>
                    for_ reply_tos
                      (fun reply_to => add_edge (Usr u) (Utt reply_to) None))
                 G3
               = (Ok tt, G4)).
  { rewrite <- Hrun4.
    rewrite <- (for_nested (fun u r => (Usr u, Utt r, None))
                  (fun e => add_edge e.1.1 e.1.2 e.2)).
    apply for_ext. by intros [u rs] s. }
  assert (E5 : for_ (set_iter (speaker_target_pairs a))
                 (fun '(u, v, timestamp) =>
                    add_edge (Usr u) (Usr v)
                             (Some (timestamp_payload timestamp))) G4
               = (Ok tt, G5)).
  { rewrite for_map in Hrun5. rewrite <- Hrun5.
    apply for_ext. by intros [[u v] t] s. }
  pose proof HG1 as (Hh1 & _).
  exists a, G1, G2, G5.
  split; [done|]. split; [done|].
  split; [unfold mbind, ST_bind; by rewrite Hloop, Hhyp, E3, E4, E5|].
  destruct HG5 as (Hn5 & Hh5 & Hr5 & Hlog5).
  split; [|split_and!; [done | by rewrite Hn5, Hn2 | done]].
  - unfold built. fold thread.
    split_and!; try done.
    + intros k. rewrite Hn5, Hn2. apply N3.
    + rewrite Hh5. apply Y3.
    + rewrite Hh5. apply Y4.
    + intros x y.
      replace (edge_log a) with
        ((([] ++
           map (fun e : vertex * vertex * option Info =>
                  (e.1.1, e.1.2, info_or_empty e.2))
             (map (fun e : string * string => (Utt e.1, Utt e.2, None))
                  (reply_edges a))) ++
          map (fun e : vertex * vertex * option Info =>
                 (e.1.1, e.1.2, info_or_empty e.2))
            (flat_map (fun e : User * list string =>
                         map (fun r : string => (Usr e.1, Utt r, None)) e.2)
                      (speaker_to_reply_tos a))) ++
         map (fun e : vertex * vertex * option Info =>
                (e.1.1, e.1.2, info_or_empty e.2))
           (map (fun e : User * User * Z =>
                   (Usr e.1.1, Usr e.1.2, Some (timestamp_payload e.2)))
                (set_iter (speaker_target_pairs a)))); [apply Hlog5|].
      unfold edge_log. simpl.
      rewrite !map_map, map_flat_map, <- app_assoc. simpl.
      f_equal. f_equal.
      apply flat_map_ext. intros [u rs]. simpl. by rewrite map_map.
Qed.


Lemma run_make_hypergraph uts ex G :
  build uts ex init = (Ok tt, G) ->
  _make_hypergraph None (Some uts) ex = Ok G.
Proof. intros Hrun. unfold _make_hypergraph. simpl. by rewrite Hrun. Qed.

Lemma no_locals_exact uts ex : locals_exact uts ex [] no_locals.
Proof.
  unfold locals_exact. simpl. split_and!; try done. apply NoDup_nil_2.
Qed.

Lemma dict_get_map_users {V W} (g : V -> W) (u : User)
    (d : list (User * V)) :
  dict_get (Usr u) (map (fun e => (Usr e.1, g e.2)) d) = g <$> dict_get u d.
Proof.
  induction d as [|[k v] d IH]; simpl; [done|].
  destruct (decide (u = k)) as [->|Hne].
  - by rewrite decide_True.
  - rewrite decide_False; [done|]. by intros [= ?].
Qed.

Lemma build_run_exact uts ex :
  keyed_by_id uts ->
  exists a G,
    build uts ex init = (Ok tt, G) /\ built uts ex a G /\
    locals_exact uts ex (sort_by ut_timestamp uts.*2) a /\
    dict_keys (nodes G) =
      set_of_list
        (Utt <$> (ut_id <$> included ex (sort_by ut_timestamp uts.*2))) /\
    hypernodes G =
      map (fun e => (Usr e.1, set_of_list (Utt <$> set_iter e.2)))
          (username_to_utt_ids a).
Proof.
  intros Hkey.
  destruct (build_run uts ex Hkey)
    as (a & G1 & G2 & G & Hloop & Hhyp & Hrun & HG & Hh1 & Hn & Hh).
  destruct (node_loop_exact uts ex (sort_by ut_timestamp uts.*2) []
              no_locals init a G1 (no_locals_exact uts ex))
    as [Ha HG1]; [done|done|].
  simpl in Ha, HG1.
  exists a, G. split_and!; try done.
  - by rewrite Hn.
  - rewrite Hh, (hypernode_pass_exact _ G1 G2 Hhyp), Hh1; [done| |].
    + destruct Ha as (E & _).
      change (NoDup (dict_keys (username_to_utt_ids a))).
      rewrite E. apply set_of_list_NoDup.
    + intros u _. by rewrite Hh1.
Qed.

(** X13: Given the utterances of a thread keyed by id, the builder returns a
    graph whose Nodes are the ids of the non-excluded utterances in the
    order [sorted] leaves them, whose Hypernodes are their authors in
    the order of each author's first such utterance, and in which the
    member set of an author's Hypernode holds the ids of that author's
    non-excluded utterances. *)
Theorem built_vertices uts ex :
  keyed_by_id uts ->
  exists G,
    _make_hypergraph None (Some uts) ex = Ok G /\
    dict_keys (nodes G) =
      set_of_list
        (Utt <$> (ut_id <$> included ex (sort_by ut_timestamp uts.*2))) /\
    dict_keys (hypernodes G) =
      Usr <$> set_of_list
                (ut_user <$> included ex (sort_by ut_timestamp uts.*2)) /\
    forall u members,
      dict_get (Usr u) (hypernodes G) = Some members ->
      NoDup members /\
      members ≡ₚ
        Utt <$> set_of_list
                  (ut_id <$> filter (fun ut => ut_user ut = u)
                     (included ex (sort_by ut_timestamp uts.*2))).
Proof.
  intros Hkey.
  destruct (build_run_exact uts ex Hkey)
    as (a & G & Hrun & _ & (E1 & E2 & _) & Hn & Hh).
  exists G. split; [by apply run_make_hypergraph|].
  split; [done|]. split.
  - rewrite Hh, <- E1. unfold dict_keys.
    rewrite <- !list_fmap_compose. by apply list_fmap_ext.
  - intros u members.
    rewrite Hh, (dict_get_map_users
                   (fun ids => set_of_list (Utt <$> set_iter ids))).
    destruct (dict_get u (username_to_utt_ids a)) as [ids|] eqn:Hids;
      [|done].
    intros [= <-]. rewrite <- (E2 u ids Hids).
    split; [apply set_of_list_NoDup|].
    assert (Hnd : NoDup ids)
      by (rewrite (E2 u ids Hids); apply set_of_list_NoDup).
    rewrite set_of_list_NoDup_id.
    + by rewrite set_iter_perm.
    + apply NoDup_fmap_2_strong; [|by rewrite set_iter_perm].
      by intros x y _ _ [= ->].
Qed.


Lemma insert_by_elem {A} (key : A -> Z) (x y : A) (l : list A) :
  y ∈ insert_by key x l <-> y = x \/ y ∈ l.
Proof. by rewrite insert_by_perm, elem_of_cons. Qed.

Lemma sort_by_sorted {A} (key : A -> Z) (l : list A) :
  StronglySorted (fun x y => (key x <= key y)%Z) (sort_by key l).
Proof.
  unfold sort_by. induction l as [|x l IH]; simpl; [constructor|].
  revert IH. generalize (foldr (insert_by key) [] l). clear l.
  intros l. induction l as [|y l IH]; simpl; intros Hs.
  - constructor; [constructor | done].
  - apply StronglySorted_inv in Hs as [Hs Hy].
    destruct (key y <? key x)%Z eqn:Hlt.
    + apply Z.ltb_lt in Hlt. constructor; [by apply IH|].
      apply Forall_forall. intros z [->|Hz]%insert_by_elem; [lia|].
      by apply (proj1 (Forall_forall _ _) Hy).
    + apply Z.ltb_ge in Hlt. constructor; [by constructor|].
      constructor; [done|].
      apply Forall_forall. intros z Hz.
      pose proof (proj1 (Forall_forall _ _) Hy z Hz). simpl in *. lia.
Qed.

Lemma sort_by_stable {A} (key : A -> Z) (k : Z) (l : list A) :
  filter (fun x => key x = k) (sort_by key l) =
  filter (fun x => key x = k) l.
Proof.
  unfold sort_by. induction l as [|x l IH]; simpl; [done|].
  rewrite filter_cons, <- IH.
  generalize (foldr (insert_by key) [] l). clear l IH.
  intros l. induction l as [|y l IH]; simpl; [by rewrite filter_cons|].
  destruct (key y <? key x)%Z eqn:Hlt; [|by rewrite !filter_cons].
  apply Z.ltb_lt in Hlt. rewrite !filter_cons, IH.
  destruct (decide (key x = k)), (decide (key y = k)); try done. lia.
Qed.

Lemma filter_sorted {A} (R : A -> A -> Prop) (P : A -> Prop)
    `{forall x, Decision (P x)} (l : list A) :
  StronglySorted R l -> StronglySorted R (filter P l).
Proof.
  induction 1 as [|x l Hs IH Hx]; [constructor|].
  rewrite filter_cons. destruct (decide (P x)); [|done].
  constructor; [done|].
  apply Forall_forall. intros y [_ Hy]%list_elem_of_filter.
  by apply (proj1 (Forall_forall _ _) Hx).
Qed.

Lemma filter_comm {A} (P Q : A -> Prop) `{forall x, Decision (P x)}
    `{forall x, Decision (Q x)} (l : list A) :
  filter P (filter Q l) = filter Q (filter P l).
Proof. rewrite !list_filter_filter. apply list_filter_iff. tauto. Qed.

(** X14: The Nodes of the built graph are inserted in timestamp order:
    their ids are those of the non-excluded utterances arranged by
    non-decreasing timestamp, utterances with the same timestamp
    keeping the order of the collection. *)
Theorem built_nodes_in_timestamp_order uts ex :
  keyed_by_id uts ->
  exists G l,
    _make_hypergraph None (Some uts) ex = Ok G /\
    dict_keys (nodes G) = set_of_list (Utt <$> (ut_id <$> l)) /\
    l ≡ₚ included ex uts.*2 /\
    StronglySorted (fun x y => (ut_timestamp x <= ut_timestamp y)%Z) l /\
    forall t, filter (fun ut => ut_timestamp ut = t) l =
              filter (fun ut => ut_timestamp ut = t) (included ex uts.*2).
Proof.
  intros Hkey.
  destruct (build_run_exact uts ex Hkey) as (a & G & Hrun & _ & _ & Hn & _).
  exists G, (included ex (sort_by ut_timestamp uts.*2)).
  split; [by apply run_make_hypergraph|]. split; [done|].
  unfold included. split_and!.
  - by rewrite sort_by_perm.
  - apply filter_sorted, sort_by_sorted.
  - intros t. by rewrite filter_comm, sort_by_stable, filter_comm.
Qed.


Lemma payloads_for_cons (x y a b : vertex) (i : Info)
    (log : list (vertex * vertex * Info)) :
  payloads_for x y ((a, b, i) :: log) =
  (if decide (a = x /\ b = y) then [i] else []) ++ payloads_for x y log.
Proof. unfold payloads_for. simpl. by destruct (decide (a = x /\ b = y)). Qed.

Lemma payloads_for_reply_edges uts ex (i r : string) (l : list Utterance) :
  payloads_for (Utt i) (Utt r)
    (map (fun e : string * string => (Utt e.1, Utt e.2, ([] : Info)))
       (omap (fun ut => r ← replies_to uts ex ut; Some (ut_id ut, r)) l)) =
  replicate
    (length (filter (fun ut => ut_id ut = i /\ replies_to uts ex ut = Some r)
                    l)) [].
Proof.
  set (g := fun ut => r ← replies_to uts ex ut; Some (ut_id ut, r)).
  induction l as [|ut l IH]; [done|].
  assert (Hstep : omap g (ut :: l) =
                  match replies_to uts ex ut with
                  | Some r' => (ut_id ut, r') :: omap g l
                  | None => omap g l
                  end).
  { unfold g. simpl. by destruct (replies_to uts ex ut). }
  rewrite Hstep, filter_cons.
  destruct (replies_to uts ex ut) as [r'|] eqn:Hr.
  - rewrite map_cons, payloads_for_cons, IH. simpl.
    destruct (decide (ut_id ut = i /\ Some r' = Some r)) as [[-> [= ->]]|Hn].
    + by rewrite decide_True.
    + rewrite decide_False; [done|]. intros [[= ?] [= ?]]. apply Hn.
      split; congruence.
  - rewrite IH. rewrite decide_False; [done|]. by intros [_ ?].
Qed.

Lemma payloads_for_speaker_replies (u : User) (r : string)
    (d : list (User * list string)) :
  NoDup (dict_keys d) ->
  payloads_for (Usr u) (Utt r)
    (flat_map (fun e : User * list string =>
                 map (fun r => (Usr e.1, Utt r, ([] : Info))) e.2) d) =
  replicate
    (length (filter (fun x => x = r)
               (match dict_get u d with Some rs => rs | None => [] end))) [].
Proof.
  assert (Hrow : forall u' (rs : list string),
    payloads_for (Usr u) (Utt r)
      (map (fun r => (Usr u', Utt r, ([] : Info))) rs) =
    if decide (u' = u)
    then replicate (length (filter (fun x => x = r) rs)) []
    else []).
  { intros u' rs. induction rs as [|r' rs IH].
    - by destruct (decide (u' = u)).
    - rewrite map_cons, payloads_for_cons, IH, filter_cons.
      destruct (decide (u' = u)) as [->|Hne].
      + destruct (decide (r' = r)) as [->|Hr].
        * by rewrite decide_True.
        * rewrite decide_False; [done|]. intros [_ [= ?]]. done.
      + rewrite decide_False; [done|]. intros [[= ?] _]. done. }
  unfold dict_keys. induction d as [|[u' rs] d IH]; simpl; [done|].
  intros [Hu' Hnd]%NoDup_cons.
  rewrite payloads_for_app, Hrow, (IH Hnd).
  destruct (decide (u = u')) as [->|Hne].
  - rewrite decide_True by done.
    assert (Hnone : dict_get u' d = None).
    { apply dict_mem_false, dict_not_mem_keys. done. }
    rewrite Hnone. simpl. by rewrite app_nil_r.
  - rewrite decide_False by done. done.
Qed.

Lemma count_replies uts ex (u : User) (r : string) (l : list Utterance) :
  length (filter (fun x => x = r)
            (omap (fun ut => if decide (ut_user ut = u)
                             then replies_to uts ex ut else None) l)) =
  length (filter (fun ut => ut_user ut = u /\ replies_to uts ex ut = Some r)
                 l).
Proof.
  set (h := fun ut => if decide (ut_user ut = u)
                      then replies_to uts ex ut else None).
  induction l as [|ut l IH]; [done|].
  assert (Hstep : omap h (ut :: l) =
                  match h ut with
                  | Some r' => r' :: omap h l
                  | None => omap h l
                  end) by done.
  rewrite Hstep, (filter_cons (fun ut => _ /\ _)). unfold h at 1.
  destruct (decide (ut_user ut = u)) as [Hu|Hu].
  - destruct (replies_to uts ex ut) as [r'|] eqn:Hr.
    + rewrite filter_cons.
      destruct (decide (r' = r)) as [->|Hne].
      * rewrite decide_True by done. cbn [length]. by rewrite IH.
      * rewrite decide_False; [done|]. intros [_ [= ?]]. done.
    + rewrite decide_False; [done|]. by intros [_ ?].
  - rewrite decide_False; [done|]. by intros [? _].
Qed.

(** X15: In the built graph every reply edge has an empty payload.  There
    is one Node-to-Node edge instance from [i] to [r] per non-excluded
    utterance with id [i] whose reply-target [r] is in the collection
    and not excluded, one Hypernode-to-Node instance from an author to
    [r] per such utterance of that author, so several when the author
    replies to [r] more than once, and no edge from a Node to a
    Hypernode. *)
Theorem built_reply_edges uts ex :
  keyed_by_id uts ->
  exists G,
    _make_hypergraph None (Some uts) ex = Ok G /\
    (forall i r,
       edge_list (adj_out G) (Utt i) (Utt r) =
       replicate
         (length (filter (fun ut => ut_id ut = i /\
                                    replies_to uts ex ut = Some r) uts.*2))
         []) /\
    (forall u r,
       edge_list (adj_out G) (Usr u) (Utt r) =
       replicate
         (length (filter (fun ut => ut_user ut = u /\
                                    replies_to uts ex ut = Some r) uts.*2))
         []) /\
    (forall i u, edge_list (adj_out G) (Utt i) (Usr u) = [] /\
                 edge_list (adj_in G) (Usr u) (Utt i) = []).
Proof.
  intros Hkey.
  destruct (build_run_exact uts ex Hkey)
    as (a & G & Hrun & HG & (_ & _ & E3 & E4 & E5) & _ & _).
  destruct HG as (_ & _ & _ & _ & _ & Hlog).
  exists G. split; [by apply run_make_hypergraph|].
  split_and!.
  - intros i r. destruct (Hlog (Utt i) (Utt r)) as [Ho _].
    rewrite (stored_as_stored _ _ _ _ Ho).
    unfold edge_log. rewrite !payloads_for_app.
    rewrite (payloads_for_none (Utt i) (Utt r) (flat_map _ _)).
    2:{ intros e [[u rs] [_ He]]%list_elem_of_In%in_flat_map.
        apply (proj2 (list_elem_of_In _ _)), list_elem_of_fmap in He
          as [r' [-> _]].
        simpl. by intros [? _]. }
    rewrite (payloads_for_none (Utt i) (Utt r)
               (map _ (set_iter (speaker_target_pairs a)))).
    2:{ intros e [[[u v] t] [-> _]]%list_elem_of_fmap. simpl.
        by intros [? _]. }
    rewrite !app_nil_r, E3, payloads_for_reply_edges.
    by rewrite sort_by_perm.
  - intros u r. destruct (Hlog (Usr u) (Utt r)) as [Ho _].
    rewrite (stored_as_stored _ _ _ _ Ho).
    unfold edge_log. rewrite !payloads_for_app.
    rewrite (payloads_for_none (Usr u) (Utt r) (map _ (reply_edges a))).
    2:{ intros e [[i' r'] [-> _]]%list_elem_of_fmap. simpl.
        by intros [? _]. }
    rewrite (payloads_for_none (Usr u) (Utt r)
               (map _ (set_iter (speaker_target_pairs a)))).
    2:{ intros e [[[u' v] t] [-> _]]%list_elem_of_fmap. simpl.
        by intros [_ ?]. }
    rewrite app_nil_r, app_nil_l.
    etrans; [by apply payloads_for_speaker_replies|].
    rewrite E5, count_replies. by rewrite sort_by_perm.
  - intros i u.
    assert (Hnone : payloads_for (Utt i) (Usr u) (edge_log a) = []).
    { apply payloads_for_none. intros e He [H1 H2].
      destruct e as [[x y] p]. simpl in *. subst.
      unfold edge_log in He.
      rewrite !elem_of_app in He. destruct He as [He|[He|He]].
      - by apply list_elem_of_fmap in He as [[i' r'] [[=] _]].
      - apply list_elem_of_In, in_flat_map in He as [[u' rs] [_ He]].
        by apply (proj2 (list_elem_of_In _ _)), list_elem_of_fmap in He
          as [r' [[=] _]].
      - by apply list_elem_of_fmap in He as [[[u' v] t] [[=] _]]. }
    destruct (Hlog (Utt i) (Usr u)) as [Ho Hi].
    rewrite Hnone in Ho, Hi.
    by rewrite (stored_as_stored _ _ _ _ Ho), (stored_as_stored _ _ _ _ Hi).
Qed.


Lemma built_mirrored uts ex loc G : built uts ex loc G -> mirrored G.
Proof.
  intros (_ & _ & _ & _ & _ & Hlog) x y.
  destruct (Hlog x y) as [-> ->]. done.
Qed.

Lemma built_members_registered uts ex loc G C members c :
  built uts ex loc G -> (C, members) ∈ hypernodes G -> c ∈ members ->
  registered G c = true.
Proof.
  intros ((_ & L2 & _) & _ & N3 & Y3 & _) HC Hc.
  destruct (Y3 C members HC) as (u & ids & Hu & -> & ->).
  apply set_of_list_elem, list_elem_of_fmap in Hc as [i [-> Hi]].
  rewrite set_iter_perm in Hi.
  destruct (L2 u ids i Hu Hi) as (ut & Hut & Hne & _ & <-).
  unfold registered. apply orb_true_iff. left. apply N3. by exists ut.
Qed.
End BuilderRun.

(** ** The enumerations are computed *)

Section MotifTotals.
Context {K : Type} `{EqDecision K}.
Implicit Types (G : Hypergraph K).

Lemma dyadic_total G :
  reachable G -> exists ms, dyadic_interaction_motifs G = Ok ms.
Proof.
  intros HG. eexists. apply dyadic_complete.
  by apply reachable_adj_complete.
Qed.

Lemma outgoing_triads_total G :
  reachable G -> exists ms, outgoing_triad_motifs G = Ok ms.
Proof.
  intros HG. pose proof (reachable_adj_complete G HG) as Hc.
  unfold outgoing_triad_motifs. apply for_each_total. intros C1 HC1.
  assert (Hr1 : registered G C1 = true).
  { unfold registered. apply dict_mem_keys in HC1. rewrite HC1.
    apply orb_true_r. }
  destruct (Hc C1 Hr1) as [[out1 Hout1]%dict_mem_true _].
  rewrite (proj2 (getitem_Ok _ _ _) Hout1). simpl.
  apply for_each_total. intros [C2 C3] [H2 H3]%combinations2_members.
  destruct (key_stored _ C1 C2 out1 Hout1 H2) as [l2 Hl2].
  destruct (key_stored _ C1 C3 out1 Hout1 H3) as [l3 Hl3].
  destruct (stored_out_edges G C1 C2 l2 Hl2) as [Ho2 _].
  destruct (stored_out_edges G C1 C3 l3 Hl3) as [Ho3 _].
  rewrite Ho2. simpl.
  apply for_each_total. intros e1 _. rewrite Ho3. simpl.
  apply for_each_total. intros e2 _. by eexists.
Qed.

Lemma incoming_triads_total G :
  reachable G -> mirrored G ->
  exists ms, incoming_triad_motifs G = Ok ms.
Proof.
  intros HG Hm. pose proof (reachable_adj_complete G HG) as Hc.
  unfold incoming_triad_motifs. apply for_each_total. intros C1 HC1.
  assert (Hr1 : registered G C1 = true).
  { unfold registered. apply dict_mem_keys in HC1. rewrite HC1.
    apply orb_true_r. }
  destruct (Hc C1 Hr1) as [_ [in1 Hin1]%dict_mem_true].
  rewrite (proj2 (getitem_Ok _ _ _) Hin1). simpl.
  apply for_each_total. intros [C2 C3] [H2 H3]%combinations2_members.
  destruct (key_stored _ C1 C2 in1 Hin1 H2) as [l2 Hl2].
  destruct (key_stored _ C1 C3 in1 Hin1 H3) as [l3 Hl3].
  rewrite <- Hm in Hl2, Hl3.
  destruct (stored_out_edges G C2 C1 l2 Hl2) as [Ho2 _].
  destruct (stored_out_edges G C3 C1 l3 Hl3) as [Ho3 _].
  rewrite Ho2. simpl.
  apply for_each_total. intros e1 _. rewrite Ho3. simpl.
  apply for_each_total. intros e2 _. by eexists.
Qed.
End MotifTotals.


(** ** Degree features of a graph *)

Section DegreeFeatFacts.
Variable entropy : list Z -> npfloat.
Context `{!ArgSort}.
Implicit Types (G : Hypergraph vertex).

Lemma feat_name_inj_tiers fh th fh' th' ext n n' d d' :
  n ∈ dict_keys (stat_funcs entropy) ->
  n' ∈ dict_keys (stat_funcs entropy) ->
  d ∈ ["out"; "in"]%string -> d' ∈ ["out"; "in"]%string ->
  feat_name n d fh th ext = feat_name n' d' fh' th' ext ->
  n = n' /\ d = d' /\ fh = fh' /\ th = th'.
Proof.
  intros Hn Hn' Hd Hd'. unfold dict_keys, stat_funcs in Hn, Hn'.
  cbn [fmap list_fmap fst] in Hn, Hn'.
  repeat (apply elem_of_cons in Hd as [->|Hd]);
    [| |by apply elem_of_nil in Hd];
    (repeat (apply elem_of_cons in Hd' as [->|Hd']);
     [| |by apply elem_of_nil in Hd']);
    (repeat (apply elem_of_cons in Hn as [->|Hn]);
     [..|by apply elem_of_nil in Hn]);
    (repeat (apply elem_of_cons in Hn' as [->|Hn']);
     [..|by apply elem_of_nil in Hn']);
    intros Heq;
    first [discriminate Heq
          | destruct fh, th, fh', th'; first [done | discriminate Heq]].
Qed.


Lemma degree_block G fh th ext stats0 :
  reachable G -> tier G fh <> [] -> tier G th <> [] ->
  exists outs ins stats,
    outdegrees G fh th = Ok outs /\ indegrees G fh th = Ok ins /\
    stats_of_degrees entropy fh th ext
      (Z.of_nat <$> outs) (Z.of_nat <$> ins) stats0 = Ok stats /\
    (forall n, n ∈ dict_keys (stat_funcs entropy) ->
       (Some <$> stat_value entropy n (Z.of_nat <$> outs)) =
         Ok (dict_get (feat_name n "out" fh th ext) stats) /\
       (Some <$> stat_value entropy n (Z.of_nat <$> ins)) =
         Ok (dict_get (feat_name n "in" fh th ext) stats)) /\
    (forall k,
       (forall n d, n ∈ dict_keys (stat_funcs entropy) ->
                    d ∈ ["out"; "in"]%string ->
                    k <> feat_name n d fh th ext) ->
       dict_get k stats = dict_get k stats0).
Proof.
  intros HG Hfh Hth. pose proof (reachable_adj_complete G HG) as Hc.
  pose proof (degrees_of_complete G (adj_out G) fh th
                (fun k Hk => proj1 (Hc k Hk))) as Ho.
  pose proof (degrees_of_complete G (adj_in G) th fh
                (fun k Hk => proj2 (Hc k Hk))) as Hi.
  assert (Hne : forall (f : vertex -> nat) (l : list vertex),
            l <> [] -> Z.of_nat <$> map f l <> []).
  { by intros f [|x l] Hl. }
  eexists. eexists.
  destruct (fold_stats_link fh th ext
              (Z.of_nat <$> map (fun u => degree G th
                 (match dict_get u (adj_out G) with
                  | Some d => d | None => [] end)) (tier G fh))
              (Z.of_nat <$> map (fun u => degree G fh
                 (match dict_get u (adj_in G) with
                  | Some d => d | None => [] end)) (tier G th))
              (stat_funcs entropy) stats0)
    as (stats & Hrun & Hget & Hoth).
  - intros n f Hnf. split; eapply stat_funcs_nonempty; try done;
      by apply Hne.
  - apply stat_funcs_NoDup.
  - intros n n' d d'. apply feat_name_inj.
  - exists stats. split_and!; [exact Ho | exact Hi | exact Hrun | | exact Hoth].
    intros n [[n' f] [-> Hnf]]%list_elem_of_fmap. simpl.
    rewrite !(stat_value_elem entropy n' f) by done. by apply Hget.
Qed.


Lemma tier_nodes_nonempty G : nodes G <> [] -> tier G false <> [].
Proof. unfold tier, dict_keys. by destruct (nodes G). Qed.

Lemma tier_hypernodes_nonempty G : hypernodes G <> [] -> tier G true <> [].
Proof. unfold tier, dict_keys. by destruct (hypernodes G). Qed.

Lemma degree_feats_unfold G ext :
  degree_feats_of entropy G ext =
  (outs ← outdegrees G false false;
   ins ← indegrees G false false;
   stats ← stats_of_degrees entropy false false ext
             (Z.of_nat <$> outs) (Z.of_nat <$> ins) [];
   outs ← outdegrees G true false;
   ins ← indegrees G true false;
   stats ← stats_of_degrees entropy true false ext
             (Z.of_nat <$> outs) (Z.of_nat <$> ins) stats;
   outs ← outdegrees G true true;
   ins ← indegrees G true true;
   stats_of_degrees entropy true true ext
     (Z.of_nat <$> outs) (Z.of_nat <$> ins) stats).
Proof.
  unfold degree_feats_of. cbn [fold_result negb andb].
  destruct (outdegrees G false false) as [o1|]; [|done]. cbn [mbind result_bind].
  destruct (indegrees G false false) as [i1|]; [|done]. cbn [mbind result_bind].
  destruct (stats_of_degrees entropy false false ext _ _ [])
    as [s1|]; [|done]. cbn [mbind result_bind].
  destruct (outdegrees G true false) as [o2|]; [|done]. cbn [mbind result_bind].
  destruct (indegrees G true false) as [i2|]; [|done]. cbn [mbind result_bind].
  destruct (stats_of_degrees entropy true false ext _ _ s1)
    as [s2|]; [|done]. cbn [mbind result_bind].
  destruct (outdegrees G true true) as [o3|]; [|done]. cbn [mbind result_bind].
  destruct (indegrees G true true) as [i3|]; [|done]. cbn [mbind result_bind].
  by destruct (stats_of_degrees entropy true true ext _ _ s2).
Qed.

Lemma degree_feats_defined G ext ex :
  reachable G -> nodes G <> [] -> hypernodes G <> [] ->
  exists stats, _degree_feats entropy None (Some G) ext ex = Ok stats.
Proof.
  intros HG Hn Hh.
  pose proof (tier_nodes_nonempty G Hn) as Tn.
  pose proof (tier_hypernodes_nonempty G Hh) as Th.
  destruct (degree_block G false false ext [] HG Tn Tn)
    as (o1 & i1 & s1 & Ho1 & Hi1 & Hr1 & _).
  destruct (degree_block G true false ext s1 HG Th Tn)
    as (o2 & i2 & s2 & Ho2 & Hi2 & Hr2 & _).
  destruct (degree_block G true true ext s2 HG Th Th)
    as (o3 & i3 & s3 & Ho3 & Hi3 & Hr3 & _).
  exists s3. simpl. rewrite degree_feats_unfold, Ho1, Hi1. simpl.
  rewrite Hr1, Ho2, Hi2. simpl. rewrite Hr2, Ho3, Hi3. simpl. exact Hr3.
Qed.

Lemma degree_feats_no_nodes G ext ex :
  nodes G = [] ->
  _degree_feats entropy None (Some G) ext ex = Raise ValueError.
Proof.
  intros Hn. simpl. rewrite degree_feats_unfold.
  unfold outdegrees, indegrees, tier. by rewrite Hn.
Qed.

(** X16: On a graph reached through the public operations that has a Node
    and a Hypernode, [_degree_feats(G=G)] returns.  For each tier
    combination other than c->C and each statistic, the out- and the
    in-feature hold the statistic of the outdegree and of the indegree
    vector of that combination, and the features of one combination are
    not overwritten by those of another; no c->C feature is
    produced. *)
Theorem degree_feats_values G ext ex :
  reachable G -> nodes G <> [] -> hypernodes G <> [] ->
  exists stats,
    _degree_feats entropy None (Some G) ext ex = Ok stats /\
    (forall fh th n,
       (fh, th) <> (false, true) ->
       n ∈ dict_keys (stat_funcs entropy) ->
       exists outs ins,
         outdegrees G fh th = Ok outs /\ indegrees G fh th = Ok ins /\
         (Some <$> stat_value entropy n (Z.of_nat <$> outs)) =
           Ok (dict_get (feat_name n "out" fh th ext) stats) /\
         (Some <$> stat_value entropy n (Z.of_nat <$> ins)) =
           Ok (dict_get (feat_name n "in" fh th ext) stats)) /\
    (forall n d,
       n ∈ dict_keys (stat_funcs entropy) -> d ∈ ["out"; "in"]%string ->
       dict_get (feat_name n d false true ext) stats = None).
Proof.
  intros HG Hn Hh.
  pose proof (tier_nodes_nonempty G Hn) as Tn.
  pose proof (tier_hypernodes_nonempty G Hh) as Th.
  destruct (degree_block G false false ext [] HG Tn Tn)
    as (o1 & i1 & s1 & Ho1 & Hi1 & Hr1 & Hl1 & Hp1).
  destruct (degree_block G true false ext s1 HG Th Tn)
    as (o2 & i2 & s2 & Ho2 & Hi2 & Hr2 & Hl2 & Hp2).
  destruct (degree_block G true true ext s2 HG Th Th)
    as (o3 & i3 & s3 & Ho3 & Hi3 & Hr3 & Hl3 & Hp3).
  assert (Hout : "out"%string ∈ ["out"; "in"]%string) by left.
  assert (Hin : "in"%string ∈ ["out"; "in"]%string) by (right; left).
  assert (Hother : forall fh th fh' th' n d,
    (fh, th) <> (fh', th') ->
    n ∈ dict_keys (stat_funcs entropy) -> d ∈ ["out"; "in"]%string ->
    forall n' d', n' ∈ dict_keys (stat_funcs entropy) ->
                  d' ∈ ["out"; "in"]%string ->
                  feat_name n d fh th ext <> feat_name n' d' fh' th' ext).
  { intros fh th fh' th' n d Hne Hn1 Hd1 n' d' Hn2 Hd2 Heq.
    destruct (feat_name_inj_tiers fh th fh' th' ext n n' d d')
      as (_ & _ & -> & ->); done. }
  exists s3. split_and!.
  - simpl. rewrite degree_feats_unfold, Ho1, Hi1. simpl.
    rewrite Hr1, Ho2, Hi2. simpl. rewrite Hr2, Ho3, Hi3. simpl. exact Hr3.
  - intros fh th n Hne Hk. destruct fh, th; [| |done|].
    + exists o3, i3. split_and!; try done; by apply Hl3.
    + exists o2, i2. split_and!; try done.
      * rewrite Hp3 by (by apply Hother). by apply Hl2.
      * rewrite Hp3 by (by apply Hother). by apply Hl2.
    + exists o1, i1. split_and!; try done.
      * rewrite Hp3, Hp2 by (by apply Hother). by apply Hl1.
      * rewrite Hp3, Hp2 by (by apply Hother). by apply Hl1.
  - intros n d Hk Hd.
    by rewrite Hp3, Hp2, Hp1 by (by apply Hother).
Qed.

(** X17: On a graph without Nodes or without Hypernodes a degree vector is
    empty and [_degree_feats(G=G)] raises [ValueError], at [np.max]. *)
Theorem degree_feats_empty_tier G ext ex :
  reachable G -> nodes G = [] \/ hypernodes G = [] ->
  _degree_feats entropy None (Some G) ext ex = Raise ValueError.
Proof.
  intros HG Hempty. simpl. rewrite degree_feats_unfold.
  destruct (nodes G) as [|kv ns] eqn:Hn.
  - unfold outdegrees, indegrees, tier. by rewrite Hn.
  - destruct Hempty as [?|Hh]; [done|].
    assert (Tn : tier G false <> []).
    { apply tier_nodes_nonempty. by rewrite Hn. }
    destruct (degree_block G false false ext [] HG Tn Tn)
      as (o1 & i1 & s1 & Ho1 & Hi1 & Hr1 & _).
    rewrite Ho1, Hi1. simpl. rewrite Hr1.
    assert (Ho2 : outdegrees G true false = Ok []).
    { unfold outdegrees, tier. by rewrite Hh. }
    rewrite Ho2. simpl.
    destruct (indegrees G true false) as [i2|e] eqn:Hi2; simpl.
    + done.
    + pose proof (reachable_adj_complete G HG) as Hc.
      unfold indegrees in Hi2.
      rewrite (degrees_of_complete G (adj_in G) false true
                 (fun k Hk => proj2 (Hc k Hk))) in Hi2. done.
Qed.
End DegreeFeatFacts.


(** ** Motif features and feature retrieval *)

Section FeatureFacts.
Context `{!SetOrder string} `{!SetOrder (User * User * Z)} `{!UserMeta}.
Context `{!SetOrder vertex}.
Variable entropy : list Z -> npfloat.
Context `{!ArgSort}.
Implicit Types (uts thread : list (string * Utterance)) (ex : option string).
Implicit Types (G : Hypergraph vertex).

Lemma motif_stats_fresh {A} (motif : string) (ms : list A) (ext : string)
    (stats : list (string * featval)) :
  motif_feat_name "is-present" motif ext ∉ dict_keys stats ->
  motif_feat_name "count" motif ext ∉ dict_keys stats ->
  motif_stats motif (Ok ms) ext stats =
  Ok (stats ++
      [(motif_feat_name "is-present" motif ext,
        FBool (bool_decide (0 < length ms)));
       (motif_feat_name "count" motif ext, FInt (length ms))]).
Proof.
  intros Hp Hc. unfold motif_stats, motif_stat_funcs. simpl.
  rewrite (dict_set_fresh (motif_feat_name "is-present" motif ext))
    by by apply dict_not_mem_keys.
  rewrite dict_set_fresh; [by rewrite <- app_assoc|].
  apply dict_not_mem_keys. unfold dict_keys. rewrite fmap_app.
  intros [?|Hin]%elem_of_app; [done|].
  apply list_elem_of_singleton in Hin. discriminate Hin.
Qed.

(** The motif features, given what the five enumerations return. *)
Lemma motif_feats_of_eq G ext
    (r1 r2 r5 r4 : list (vertex * vertex * vertex * Info * Info))
    (r3 : list (vertex * vertex * Info * Info)) :
  reciprocity_motifs G = Ok r1 ->
  external_reciprocity_motifs G = Ok r2 ->
  dyadic_interaction_motifs G = Ok r3 ->
  incoming_triad_motifs G = Ok r4 ->
  outgoing_triad_motifs G = Ok r5 ->
  motif_feats_of G ext =
  Ok (flat_map (fun '(motif, n) =>
        [(motif_feat_name "is-present" motif ext,
          FBool (bool_decide (0 < n)));
         (motif_feat_name "count" motif ext, FInt n)])
      [("reciprocity motif", length r1);
       ("external reciprocity motif", length r2);
       ("dyadic interaction motif", length r3);
       ("incoming triads", length r4);
       ("outgoing triads", length r5)]%string).
Proof.
  unfold motif_feats_of. intros -> -> -> -> ->.
  rewrite motif_stats_fresh by by intros ?%elem_of_nil.
  cbn [mbind result_bind app].
  assert (Hfresh : forall (k : string) (l : list string),
            Forall (fun k' => k <> k') l -> k ∉ l).
  { intros k l Hl Hin. by apply (proj1 (Forall_forall _ _) Hl k). }
  rewrite motif_stats_fresh;
    [|apply Hfresh; repeat constructor; discriminate..].
  cbn [mbind result_bind app].
  rewrite motif_stats_fresh;
    [|apply Hfresh; repeat constructor; discriminate..].
  cbn [mbind result_bind app].
  rewrite motif_stats_fresh;
    [|apply Hfresh; repeat constructor; discriminate..].
  cbn [mbind result_bind app].
  rewrite motif_stats_fresh;
    [|apply Hfresh; repeat constructor; discriminate..].
  reflexivity.
Qed.


Lemma set_of_list_nil_inv {A} `{EqDecision A} (l : list A) :
  set_of_list l = [] -> l = [].
Proof.
  destruct l as [|x l]; [done|]. intros Hs.
  assert (Hx : x ∈ set_of_list (x :: l)) by (apply set_of_list_elem; left).
  rewrite Hs in Hx. by apply elem_of_nil in Hx.
Qed.

(** The graph of a collection keyed by id: it is reachable, it has a
    Node and a Hypernode exactly when an utterance is not excluded, and
    the five enumerations are computed on it. *)
Lemma built_graph_facts uts ex :
  keyed_by_id uts ->
  exists G,
    _make_hypergraph None (Some uts) ex = Ok G /\ reachable G /\
    (included ex uts.*2 = [] -> nodes G = []) /\
    (included ex uts.*2 <> [] -> nodes G <> [] /\ hypernodes G <> []) /\
    (exists r1, reciprocity_motifs G = Ok r1) /\
    (exists r2, external_reciprocity_motifs G = Ok r2) /\
    (exists r3, dyadic_interaction_motifs G = Ok r3) /\
    (exists r4, incoming_triad_motifs G = Ok r4) /\
    (exists r5, outgoing_triad_motifs G = Ok r5).
Proof.
  intros Hkey.
  destruct (build_run_exact uts ex Hkey)
    as (a & G & Hrun & HG & (E1 & _) & Hn & Hh).
  pose proof HG as (_ & Hr & _).
  assert (Hperm : included ex (sort_by ut_timestamp uts.*2) ≡ₚ
                  included ex uts.*2).
  { unfold included. by rewrite sort_by_perm. }
  exists G. split; [by apply run_make_hypergraph|]. split; [done|].
  split_and!.
  - intros Hnil. rewrite Hnil in Hperm.
    apply Permutation_nil_r in Hperm. rewrite Hperm in Hn.
    unfold dict_keys in Hn. by apply fmap_nil_inv in Hn.
  - intros Hne. split.
    + intros Hnil. rewrite Hnil in Hn. symmetry in Hn.
      apply set_of_list_nil_inv, fmap_nil_inv, fmap_nil_inv in Hn.
      rewrite Hn in Hperm. symmetry in Hperm.
      by apply Permutation_nil_r in Hperm.
    + intros Hnil. rewrite Hnil in Hh. symmetry in Hh.
      apply map_eq_nil in Hh.
      unfold dict_keys in E1. rewrite Hh in E1. symmetry in E1.
      apply set_of_list_nil_inv, fmap_nil_inv in E1.
      rewrite E1 in Hperm. symmetry in Hperm.
      by apply Permutation_nil_r in Hperm.
  - apply reciprocity_total; [done | by eapply built_mirrored |].
    intros C members c. by eapply built_members_registered.
  - by apply external_reciprocity_total.
  - by apply dyadic_total.
  - apply incoming_triads_total; [done | by eapply built_mirrored].
  - by apply outgoing_triads_total.
Qed.

(** X18: For a collection keyed by id, [_motif_feats(uts=uts)] builds the
    graph, the five enumerations are computed on it, and the result
    holds ten features in the order of the loop: for each motif,
    whether an instance is present and the number of instances;
    [_motif_feats(G=G)] on the built graph gives the same. *)
Theorem motif_feats_built uts ex ext :
  keyed_by_id uts ->
  exists G r1 r2 r3 r4 r5,
    _make_hypergraph None (Some uts) ex = Ok G /\
    reciprocity_motifs G = Ok r1 /\
    external_reciprocity_motifs G = Ok r2 /\
    dyadic_interaction_motifs G = Ok r3 /\
    incoming_triad_motifs G = Ok r4 /\
    outgoing_triad_motifs G = Ok r5 /\
    _motif_feats (Some uts) None ext ex = _motif_feats None (Some G) ext None /\
    _motif_feats None (Some G) ext None =
    Ok (flat_map (fun '(motif, n) =>
          [(motif_feat_name "is-present" motif ext,
            FBool (bool_decide (0 < n)));
           (motif_feat_name "count" motif ext, FInt n)])
        [("reciprocity motif", length r1);
         ("external reciprocity motif", length r2);
         ("dyadic interaction motif", length r3);
         ("incoming triads", length r4);
         ("outgoing triads", length r5)]%string).
Proof.
  intros Hkey.
  destruct (built_graph_facts uts ex Hkey)
    as (G & Hrun & _ & _ & _ & [r1 H1] & [r2 H2] & [r3 H3] & [r4 H4]
        & [r5 H5]).
  exists G, r1, r2, r3, r4, r5. split_and!; try done.
  - unfold _motif_feats. by rewrite Hrun.
  - by apply motif_feats_of_eq.
Qed.


Lemma included_all (l : list Utterance) : included None l = l.
Proof. unfold included. by apply filter_all. Qed.

(** The features of one thread. *)
Lemma thread_stats_defined root thread :
  keyed_by_id thread -> included (Some root) thread.*2 <> [] ->
  exists stats, thread_stats entropy root thread = Ok stats.
Proof.
  intros Hkey Hmid.
  destruct (built_graph_facts thread None Hkey)
    as (G & Hrun & Hr & _ & Hne & [r1 H1] & [r2 H2] & [r3 H3] & [r4 H4]
        & [r5 H5]).
  destruct (built_graph_facts thread (Some root) Hkey)
    as (G' & Hrun' & Hr' & _ & Hne' & [r1' H1'] & [r2' H2'] & [r3' H3']
        & [r4' H4'] & [r5' H5']).
  destruct Hne as [Hn Hh].
  { rewrite included_all. intros Hnil. apply Hmid.
    unfold included. by rewrite Hnil. }
  destruct (Hne' Hmid) as [Hn' Hh'].
  destruct (degree_feats_defined entropy G EmptyString None Hr Hn Hh)
    as (d & Hd).
  destruct (degree_feats_defined entropy G' "mid-thread " None Hr' Hn' Hh')
    as (d' & Hd').
  unfold thread_stats. rewrite Hrun, Hrun'. cbn [mbind result_bind].
  rewrite Hd. cbn [mbind result_bind].
  unfold _motif_feats.
  rewrite (motif_feats_of_eq G _ r1 r2 r5 r4 r3) by done.
  cbn [mbind result_bind]. rewrite Hd'. cbn [mbind result_bind].
  rewrite (motif_feats_of_eq G' _ r1' r2' r5' r4' r3') by done.
  by eexists.
Qed.

Lemma thread_stats_no_mid_thread root thread :
  keyed_by_id thread -> included (Some root) thread.*2 = [] ->
  thread_stats entropy root thread = Raise ValueError.
Proof.
  intros Hkey Hmid.
  destruct (built_graph_facts thread None Hkey)
    as (G & Hrun & Hr & Hnil & Hne & [r1 H1] & [r2 H2] & [r3 H3] & [r4 H4]
        & [r5 H5]).
  destruct (built_graph_facts thread (Some root) Hkey)
    as (G' & Hrun' & Hr' & Hnil' & _).
  unfold thread_stats. rewrite Hrun, Hrun'. cbn [mbind result_bind].
  destruct (decide (included None thread.*2 = [])) as [Hall|Hall].
  - by rewrite (degree_feats_no_nodes entropy G _ None (Hnil Hall)).
  - destruct (Hne Hall) as [Hn Hh].
    destruct (degree_feats_defined entropy G EmptyString None Hr Hn Hh)
      as (d & Hd).
    rewrite Hd. cbn [mbind result_bind].
    unfold _motif_feats.
    rewrite (motif_feats_of_eq G _ r1 r2 r5 r4 r3) by done.
    cbn [mbind result_bind].
    by rewrite (degree_feats_no_nodes entropy G' _ None (Hnil' Hmid)).
Qed.


Lemma long_thread_has_mid root thread :
  keyed_by_id thread -> NoDup (dict_keys thread) -> 2 <= length thread ->
  included (Some root) thread.*2 <> [].
Proof.
  intros Hkey Hnd Hlen.
  destruct thread as [|[k1 u1] [|[k2 u2] rest]]; simpl in Hlen; [lia..|].
  assert (H1 : ut_id u1 = k1) by (apply Hkey; left).
  assert (H2 : ut_id u2 = k2) by (apply Hkey; right; left).
  unfold dict_keys in Hnd. simpl in Hnd.
  apply NoDup_cons in Hnd as [Hk1 _].
  assert (Hne : ut_id u1 <> ut_id u2).
  { rewrite H1, H2. intros Heq. apply Hk1. rewrite Heq. by left. }
  unfold included. simpl. rewrite !filter_cons.
  destruct (decide (Some (ut_id u1) <> Some root)) as [|Hr1]; [done|].
  destruct (decide (Some (ut_id u2) <> Some root)) as [|Hr2]; [done|].
  apply dec_stable in Hr1. apply dec_stable in Hr2. congruence.
Qed.

Lemma retrieve_feats_fold threads min
    (acc : list (string * list (string * featval))) :
  NoDup (dict_keys acc ++ dict_keys threads) ->
  (forall root thread, (root, thread) ∈ threads ->
     (min <= Z.of_nat (length thread))%Z ->
     keyed_by_id thread /\ included (Some root) thread.*2 <> []) ->
  exists fs,
    fold_result (fun threads_stats '(root, thread) =>
        if (Z.of_nat (length thread) <? min)%Z then Ok threads_stats
        else
          stats ← thread_stats entropy root thread;
          Ok (dict_set root stats threads_stats))
      threads acc = Ok (acc ++ fs) /\
    Forall2 (fun p q => q.1 = p.1 /\ thread_stats entropy p.1 p.2 = Ok q.2)
      (filter (fun p => (min <= Z.of_nat (length p.2))%Z) threads) fs.
Proof.
  revert acc. induction threads as [|[root thread] threads IH];
    intros acc Hnd Hok.
  - exists []. split; [by rewrite app_nil_r | constructor].
  - cbn [fold_result]. rewrite filter_cons. cbn [snd].
    unfold dict_keys in Hnd. rewrite fmap_cons in Hnd. cbn [fst] in Hnd.
    destruct (Z.of_nat (length thread) <? min)%Z eqn:Hlen.
    + apply Z.ltb_lt in Hlen. rewrite decide_False by lia.
      cbn [mbind result_bind]. apply IH.
      * apply NoDup_app in Hnd as (Ha & Hd & [_ Ht]%NoDup_cons).
        apply NoDup_app. split_and!; [done| |done].
        intros x Hx Hx'. apply (Hd x Hx). by right.
      * intros r t Hin. apply Hok. by right.
    + apply Z.ltb_ge in Hlen. rewrite decide_True by lia.
      destruct (Hok root thread) as [Hkey Hmid]; [by left | lia |].
      destruct (thread_stats_defined root thread Hkey Hmid) as [stats Hst].
      rewrite Hst. cbn [mbind result_bind].
      assert (Hfresh : dict_mem root acc = false).
      { apply dict_not_mem_keys. intros Hin.
        apply NoDup_app in Hnd as (_ & Hd & _). apply (Hd root Hin). by left. }
      rewrite (dict_set_fresh root stats acc Hfresh).
      destruct (IH (acc ++ [(root, stats)])) as (fs & Hrun & Hfs).
      * unfold dict_keys. rewrite fmap_app, <- app_assoc. done.
      * intros r t Hin. apply Hok. by right.
      * exists ((root, stats) :: fs). split.
        -- by rewrite Hrun, <- app_assoc.
        -- by constructor.
Qed.

(** X19: [retrieve_feats] ignores the threads shorter than
    [min_thread_len]: it returns, or raises, what it does on the
    remaining threads. *)
Theorem retrieve_feats_skips_short_threads threads min :
  retrieve_feats entropy threads min =
  retrieve_feats entropy
    (filter (fun p => (min <= Z.of_nat (length p.2))%Z) threads) min.
Proof.
  unfold retrieve_feats.
  generalize ([] : list (string * list (string * featval))).
  induction threads as [|[root thread] threads IH]; intros acc; [done|].
  rewrite filter_cons. cbn [snd fold_result].
  destruct (Z.of_nat (length thread) <? min)%Z eqn:Hlen.
  - apply Z.ltb_lt in Hlen. rewrite decide_False by lia.
    cbn [mbind result_bind]. apply IH.
  - apply Z.ltb_ge in Hlen. rewrite decide_True by lia.
    cbn [fold_result]. rewrite (proj2 (Z.ltb_ge _ _) Hlen).
    destruct (thread_stats entropy root thread); [|done].
    cbn [mbind result_bind]. apply IH.
Qed.

(** X20: When the threads are dicts keyed by utterance id and
    [min_thread_len] is at least 2, [retrieve_feats] returns, with one
    entry per thread that is long enough, in the order of the threads:
    the features of that thread under its root id. *)
Theorem retrieve_feats_values threads min :
  NoDup (dict_keys threads) ->
  (forall root thread, (root, thread) ∈ threads ->
     keyed_by_id thread /\ NoDup (dict_keys thread)) ->
  (2 <= min)%Z ->
  exists fs,
    retrieve_feats entropy threads min = Ok fs /\
    Forall2 (fun p q => q.1 = p.1 /\ thread_stats entropy p.1 p.2 = Ok q.2)
      (filter (fun p => (min <= Z.of_nat (length p.2))%Z) threads) fs.
Proof.
  intros Hnd Hthreads Hmin.
  destruct (retrieve_feats_fold threads min []) as (fs & Hrun & Hfs).
  - done.
  - intros root thread Hin Hlen.
    destruct (Hthreads root thread Hin) as [Hkey Hk].
    split; [done|]. apply long_thread_has_mid; [done..|lia].
  - by exists fs.
Qed.

(** X21: A thread that is long enough and has no utterance besides its root
    makes [retrieve_feats] raise [ValueError] when it is reached: its
    mid-thread graph is empty.  Reaching it needs [min_thread_len] to
    be at most the length of such a thread, so at most 1 for a dict
    keyed by id. *)
Theorem retrieve_feats_no_mid_thread short root thread rest min :
  (forall r t, (r, t) ∈ short -> (Z.of_nat (length t) < min)%Z) ->
  (min <= Z.of_nat (length thread))%Z ->
  keyed_by_id thread -> included (Some root) thread.*2 = [] ->
  retrieve_feats entropy (short ++ (root, thread) :: rest) min =
  Raise ValueError.
Proof.
  intros Hshort Hlen Hkey Hmid. unfold retrieve_feats.
  generalize ([] : list (string * list (string * featval))).
  induction short as [|[r t] short IH]; intros acc.
  - cbn [app fold_result]. rewrite (proj2 (Z.ltb_ge _ _) Hlen).
    by rewrite thread_stats_no_mid_thread.
  - cbn [app fold_result].
    assert (Hrt : (Z.of_nat (length t) < min)%Z) by (apply (Hshort r); left).
    rewrite (proj2 (Z.ltb_lt _ _) Hrt).
    cbn [mbind result_bind]. apply IH.
    intros r' t' Hin. apply (Hshort r' t'). by right.
Qed.
End FeatureFacts.


(** ** The inputs of the graph builder *)

Section BuilderInputs.
Context `{!SetOrder string} `{!SetOrder (User * User * Z)} `{!UserMeta}.

Lemma corpus_dict_keyed (c : list Utterance) :
  keyed_by_id (foldl (fun d utt => dict_set (ut_id utt) utt d) [] c).
Proof.
  assert (Hgen : forall d, keyed_by_id d ->
            keyed_by_id (foldl (fun d utt => dict_set (ut_id utt) utt d) d c)).
  { induction c as [|utt c IH]; intros d Hd; simpl; [done|].
    apply IH. intros k ut Hin.
    apply elem_of_dict_set in Hin as [Hin|[-> ->]]; [by apply Hd | done]. }
  apply Hgen. by intros k ut ?%elem_of_nil.
Qed.

(** X22: [_make_hypergraph] raises [RuntimeError] when it is given
    neither a corpus nor utterances; given only a corpus it never
    raises, for any excluded id: the dict it builds from the utterances
    of the corpus is keyed by utterance id, and the graph is the one it
    returns for that dict; when utterances are given the corpus is not
    read. *)
Theorem make_hypergraph_inputs ex :
  _make_hypergraph None None ex = Raise RuntimeError /\
  (forall c, exists G,
     _make_hypergraph (Some c) None ex = Ok G /\
     _make_hypergraph None
       (Some (foldl (fun d utt => dict_set (ut_id utt) utt d) [] c)) ex =
       Ok G) /\
  (forall c uts,
     _make_hypergraph (Some c) (Some uts) ex =
     _make_hypergraph None (Some uts) ex).
Proof.
  split; [done|]. split; [|done].
  intros c.
  destruct (make_hypergraph_built _ ex (corpus_dict_keyed c))
    as (loc & G & Hrun & _).
  by exists G.
Qed.
End BuilderInputs.

(** ** Instances on the sample graphs and threads *)

Section FurtherSamples.
Import Samples MoreSamples.
Open Scope string_scope.

Lemma add_edge_atomic_witness :
  reachable (graph_of ops_ab) /\
  ((registered (graph_of ops_ab) "a" = true /\
    registered (graph_of ops_ab) "b" = true /\
    payload_ok (graph_of ops_ab) "a" "b" None /\
    exists G', add_edge "a" "b" None (graph_of ops_ab) = (Ok tt, G') /\
               reachable G') \/
   ((registered (graph_of ops_ab) "a" = false \/
     registered (graph_of ops_ab) "b" = false \/
     ~ payload_ok (graph_of ops_ab) "a" "b" None) /\
    exists e, add_edge "a" "b" None (graph_of ops_ab) =
                (Raise e, graph_of ops_ab) /\ e <> KeyError)).
Proof.
  assert (Hr : reachable (graph_of ops_ab))
    by (apply graph_of_reachable; vm_compute; reflexivity).
  split; [exact Hr|].
  exact (add_edge_atomic (graph_of ops_ab) "a" "b" None Hr).
Defined.

Lemma add_edge_appends_witness :
  add_edge "a" "b" None (graph_of ops_ab) =
    (Ok tt, (add_edge "a" "b" None (graph_of ops_ab)).2) /\
  out_edges (add_edge "a" "b" None (graph_of ops_ab)).2 "a" "b" =
    Ok (edge_list (adj_out (graph_of ops_ab)) "a" "b" ++ [[]])%list.
Proof.
  assert (H : add_edge "a" "b" None (graph_of ops_ab) =
              (Ok tt, (add_edge "a" "b" None (graph_of ops_ab)).2))
    by (vm_compute; reflexivity).
  split; [exact H|].
  exact (proj1 (proj2 (proj2 (add_edge_appends _ _ "a" "b" None H)))).
Defined.

Lemma neighbour_queries_witness :
  reachable (graph_of ops_ab) /\
  registered (graph_of ops_ab) "a" = true /\
  registered (graph_of ops_ab) "x" = false /\
  (exists d,
     outgoing_nodes (graph_of ops_ab) "a" = Ok d /\
     forall v l, dict_get v d = Some l <->
                 in_tier (graph_of ops_ab) false v = true /\
                 stored (adj_out (graph_of ops_ab)) "a" v = Some l) /\
  incoming_hypernodes (graph_of ops_ab) "x" = Raise AssertionError.
Proof.
  assert (Hr : reachable (graph_of ops_ab))
    by (apply graph_of_reachable; vm_compute; reflexivity).
  assert (Ha : registered (graph_of ops_ab) "a" = true)
    by (vm_compute; reflexivity).
  assert (Hx : registered (graph_of ops_ab) "x" = false)
    by (vm_compute; reflexivity).
  split; [exact Hr|]. split; [exact Ha|]. split; [exact Hx|]. split.
  - exact (proj1 (neighbour_queries (graph_of ops_ab)
                    (adj_out (graph_of ops_ab)) false "a" Hr
                    (or_introl eq_refl)) Ha).
  - exact (proj2 (neighbour_queries (graph_of ops_ab)
                    (adj_in (graph_of ops_ab)) true "x" Hr
                    (or_intror eq_refl)) Hx).
Defined.

Lemma edges_lookup_witness :
  reachable (graph_of ops_ab) /\
  edges (graph_of ops_ab) = edge_items (adj_out (graph_of ops_ab)) /\
  dict_get ("a", "b") (edges (graph_of ops_ab)) =
    stored (adj_out (graph_of ops_ab)) "a" "b".
Proof.
  assert (Hr : reachable (graph_of ops_ab))
    by (apply graph_of_reachable; vm_compute; reflexivity).
  split; [exact Hr|].
  exact (edges_lookup (graph_of ops_ab) "a" "b" Hr).
Defined.

Lemma degree_vectors_computed_witness :
  reachable (graph_of ops_ab_again) /\
  exists outs ins,
    outdegrees (graph_of ops_ab_again) false false = Ok outs /\
    indegrees (graph_of ops_ab_again) false false = Ok ins /\
    length outs = length (tier (graph_of ops_ab_again) false) /\
    length ins = length (tier (graph_of ops_ab_again) false).
Proof.
  assert (Hr : reachable (graph_of ops_ab_again))
    by (apply graph_of_reachable; vm_compute; reflexivity).
  split; [exact Hr|].
  exact (degree_vectors_computed (graph_of ops_ab_again) false false Hr).
Defined.

Lemma dyadic_instances_witness :
  reachable (graph_of ops_dyadic) /\
  exists ms,
    dyadic_interaction_motifs (graph_of ops_dyadic) = Ok ms /\
    (forall C1 C2 e1 e2,
       (C1, C2, e1, e2) ∈ ms <->
       dict_mem C1 (hypernodes (graph_of ops_dyadic)) = true /\
       dict_mem C2 (hypernodes (graph_of ops_dyadic)) = true /\
       e1 ∈ edge_list (adj_out (graph_of ops_dyadic)) C1 C2 /\
       e2 ∈ edge_list (adj_out (graph_of ops_dyadic)) C2 C1) /\
    (forall C1 C2 e1 e2,
       (C1, C2, e1, e2) ∈ ms -> (C2, C1, e2, e1) ∈ ms).
Proof.
  assert (Hr : reachable (graph_of ops_dyadic))
    by (apply graph_of_reachable; vm_compute; reflexivity).
  split; [exact Hr|].
  exact (dyadic_instances (graph_of ops_dyadic) Hr).
Defined.

(** The two instances of the sample graph, each the mirror image of the
    other. *)
Example ops_dyadic_motifs :
  dyadic_interaction_motifs (graph_of ops_dyadic) =
  Ok [("A", "B", timestamp_payload 1, timestamp_payload 2);
      ("B", "A", timestamp_payload 2, timestamp_payload 1)].
Proof. by vm_compute. Qed.

Lemma outgoing_triad_instances_witness :
  reachable (graph_of ops_hypernode_out) /\
  exists ms,
    outgoing_triad_motifs (graph_of ops_hypernode_out) = Ok ms /\
    forall C1 C2 C3 e1 e2,
      (C1, C2, C3, e1, e2) ∈ ms <->
      dict_mem C1 (hypernodes (graph_of ops_hypernode_out)) = true /\
      (C2, C3) ∈ combinations2
                   (dict_keys
                      (adjacent (adj_out (graph_of ops_hypernode_out)) C1)) /\
      e1 ∈ edge_list (adj_out (graph_of ops_hypernode_out)) C1 C2 /\
      e2 ∈ edge_list (adj_out (graph_of ops_hypernode_out)) C1 C3.
Proof.
  assert (Hr : reachable (graph_of ops_hypernode_out))
    by (apply graph_of_reachable; vm_compute; reflexivity).
  split; [exact Hr|].
  exact (outgoing_triad_instances (graph_of ops_hypernode_out) Hr).
Defined.

Lemma incoming_triad_instances_witness :
  reachable_fresh (graph_of ops_nodes_into_hypernode) /\
  exists ms,
    incoming_triad_motifs (graph_of ops_nodes_into_hypernode) = Ok ms /\
    forall C1 C2 C3 e1 e2,
      (C1, C2, C3, e1, e2) ∈ ms <->
      dict_mem C1 (hypernodes (graph_of ops_nodes_into_hypernode)) = true /\
      (C2, C3) ∈ combinations2
                   (dict_keys
                      (adjacent (adj_in (graph_of ops_nodes_into_hypernode))
                                C1)) /\
      e1 ∈ edge_list (adj_out (graph_of ops_nodes_into_hypernode)) C2 C1 /\
      e2 ∈ edge_list (adj_out (graph_of ops_nodes_into_hypernode)) C3 C1.
Proof.
  assert (Hf : reachable_fresh (graph_of ops_nodes_into_hypernode))
    by (apply (graph_of_fresh ops_nodes_into_hypernode);
        vm_compute; reflexivity).
  split; [exact Hf|].
  exact (incoming_triad_instances (graph_of ops_nodes_into_hypernode) Hf).
Defined.

Lemma ops_reciprocity_members C members c :
  (C, members) ∈ hypernodes (graph_of ops_reciprocity) -> c ∈ members ->
  registered (graph_of ops_reciprocity) c = true.
Proof.
  change (hypernodes (graph_of ops_reciprocity)) with [("A", ["n1"])].
  intros [= -> ->]%list_elem_of_singleton ->%list_elem_of_singleton.
  vm_compute. reflexivity.
Defined.

Lemma reciprocity_instances_witness :
  reachable_fresh (graph_of ops_reciprocity) /\
  exists ms,
    @reciprocity_motifs _ _ (insertion_order _) (graph_of ops_reciprocity)
      = Ok ms /\
    forall C1 c1 c2 e1 e2,
      (C1, c1, c2, e1, e2) ∈ ms <->
      (exists members,
         (C1, members) ∈ hypernodes (graph_of ops_reciprocity) /\
         c1 ∈ members) /\
      dict_mem c2 (nodes (graph_of ops_reciprocity)) = true /\
      dict_mem c2 (adjacent (adj_in (graph_of ops_reciprocity)) c1) = true /\
      e1 ∈ edge_list (adj_out (graph_of ops_reciprocity)) C1 c2 /\
      e2 ∈ edge_list (adj_out (graph_of ops_reciprocity)) c2 c1.
Proof.
  assert (Hf : reachable_fresh (graph_of ops_reciprocity))
    by (apply (graph_of_fresh ops_reciprocity); vm_compute; reflexivity).
  split; [exact Hf|].
  exact (@reciprocity_instances _ _ (insertion_order _)
           (graph_of ops_reciprocity) Hf ops_reciprocity_members).
Defined.

Lemma reciprocity_unregistered_member_witness :
  reachable (graph_of ops_ghost_member) /\
  registered (graph_of ops_ghost_member) "ghost" = false /\
  @reciprocity_motifs _ _ (insertion_order _) (graph_of ops_ghost_member)
    = Raise KeyError.
Proof.
  assert (Hr : reachable (graph_of ops_ghost_member))
    by (apply graph_of_reachable; vm_compute; reflexivity).
  assert (Hg : registered (graph_of ops_ghost_member) "ghost" = false)
    by (vm_compute; reflexivity).
  split; [exact Hr|]. split; [exact Hg|].
  apply (@reciprocity_unregistered_member _ _ (insertion_order _)
           (graph_of ops_ghost_member) "A" ["ghost"] "ghost" Hr);
    [ change (hypernodes (graph_of ops_ghost_member)) with [("A", ["ghost"])];
      left
    | left
    | exact Hg ].
Defined.

Lemma external_reciprocity_instances_witness :
  reachable (graph_of ops_external) /\
  exists ms,
    @external_reciprocity_motifs _ _ (insertion_order _)
      (graph_of ops_external) = Ok ms /\
    forall C3 c2 c1 e1 e2,
      (C3, c2, c1, e1, e2) ∈ ms <->
      (exists members,
         dict_get C3 (hypernodes (graph_of ops_external)) = Some members /\
         c1 ∉ members) /\
      dict_mem c2 (nodes (graph_of ops_external)) = true /\
      dict_mem c1 (nodes (graph_of ops_external)) = true /\
      e1 ∈ edge_list (adj_out (graph_of ops_external)) C3 c2 /\
      e2 ∈ edge_list (adj_out (graph_of ops_external)) c2 c1.
Proof.
  assert (Hr : reachable (graph_of ops_external))
    by (apply graph_of_reachable; vm_compute; reflexivity).
  split; [exact Hr|].
  exact (@external_reciprocity_instances _ _ (insertion_order _)
           (graph_of ops_external) Hr).
Defined.

(** The one instance of the sample graph: from the Hypernode to its
    member and on to the Node outside it. *)
Example ops_external_motifs :
  @external_reciprocity_motifs _ _ (insertion_order _)
    (graph_of ops_external) =
  Ok [("A", "n2", "n1", [], [])].
Proof. by vm_compute. Qed.


Lemma built_vertices_witness :
  keyed_by_id thread_same_ts /\
  exists G,
    make thread_same_ts = Ok G /\
    dict_keys (nodes G) =
      set_of_list
        (Utt <$> (ut_id <$> included None
                              (sort_by ut_timestamp thread_same_ts.*2))) /\
    dict_keys (hypernodes G) =
      Usr <$> set_of_list
                (ut_user <$> included None
                               (sort_by ut_timestamp thread_same_ts.*2)) /\
    forall u members,
      dict_get (Usr u) (hypernodes G) = Some members ->
      NoDup members /\
      members ≡ₚ
        Utt <$> set_of_list
                  (ut_id <$> filter (fun ut => ut_user ut = u)
                     (included None
                        (sort_by ut_timestamp thread_same_ts.*2))).
Proof.
  split; [exact thread_same_ts_keyed|].
  exact (@built_vertices (insertion_order _) (insertion_order _) no_meta
           thread_same_ts None thread_same_ts_keyed).
Defined.

(** The Nodes and the Hypernodes of the sample thread, and the members
    of alice's Hypernode. *)
Example thread_same_ts_vertices :
  (G ← make thread_same_ts;
   Ok (dict_keys (nodes G), dict_keys (hypernodes G),
       dict_get (Usr alice) (hypernodes G))) =
  Ok ([Utt "m1"; Utt "m2"; Utt "m3"; Utt "m4"], [Usr bob; Usr alice],
      Some [Utt "m2"; Utt "m3"; Utt "m4"]).
Proof. by vm_compute. Qed.

Lemma built_nodes_in_timestamp_order_witness :
  keyed_by_id thread_same_ts /\
  exists G l,
    make thread_same_ts = Ok G /\
    dict_keys (nodes G) = set_of_list (Utt <$> (ut_id <$> l)) /\
    l ≡ₚ included None thread_same_ts.*2 /\
    StronglySorted (fun x y => (ut_timestamp x <= ut_timestamp y)%Z) l /\
    forall t, filter (fun ut => ut_timestamp ut = t) l =
              filter (fun ut => ut_timestamp ut = t)
                     (included None thread_same_ts.*2).
Proof.
  split; [exact thread_same_ts_keyed|].
  exact (@built_nodes_in_timestamp_order (insertion_order _)
           (insertion_order _) no_meta thread_same_ts None
             thread_same_ts_keyed).
Defined.

Lemma built_reply_edges_witness :
  keyed_by_id thread_same_ts /\
  exists G,
    make thread_same_ts = Ok G /\
    (forall i r,
       edge_list (adj_out G) (Utt i) (Utt r) =
       replicate
         (length (filter (fun ut => ut_id ut = i /\
                                    replies_to thread_same_ts None ut = Some r)
                         thread_same_ts.*2))
         []) /\
    (forall u r,
       edge_list (adj_out G) (Usr u) (Utt r) =
       replicate
         (length (filter (fun ut => ut_user ut = u /\
                                    replies_to thread_same_ts None ut = Some r)
                         thread_same_ts.*2))
         []) /\
    (forall i u, edge_list (adj_out G) (Utt i) (Usr u) = [] /\
                 edge_list (adj_in G) (Usr u) (Utt i) = []).
Proof.
  split; [exact thread_same_ts_keyed|].
  exact (@built_reply_edges (insertion_order _) (insertion_order _) no_meta
           thread_same_ts None thread_same_ts_keyed).
Defined.

(** alice replies to ["m1"] three times: three edge instances from her
    Hypernode to that Node, one from each of her utterances. *)
Example thread_same_ts_reply_edges :
  (G ← make thread_same_ts;
   Ok (edge_list (adj_out G) (Usr alice) (Utt "m1"),
       edge_list (adj_out G) (Utt "m3") (Utt "m1"))) =
  Ok ([[]; []; []], [[]]).
Proof. by vm_compute. Qed.

Lemma graph_replies_reachable : reachable graph_replies.
Proof.
  apply (run_reachable ops_replies init); [constructor|].
  vm_compute. reflexivity.
Defined.

Lemma degree_feats_values_witness :
  reachable graph_replies /\ nodes graph_replies <> [] /\
  hypernodes graph_replies <> [] /\
  exists stats,
    _degree_feats no_entropy None (Some graph_replies) no_ext None =
      Ok stats /\
    (forall fh th n,
       (fh, th) <> (false, true) ->
       n ∈ dict_keys (stat_funcs no_entropy) ->
       exists outs ins,
         outdegrees graph_replies fh th = Ok outs /\
         indegrees graph_replies fh th = Ok ins /\
         (Some <$> stat_value no_entropy n (Z.of_nat <$> outs)) =
           Ok (dict_get (feat_name n "out" fh th no_ext) stats) /\
         (Some <$> stat_value no_entropy n (Z.of_nat <$> ins)) =
           Ok (dict_get (feat_name n "in" fh th no_ext) stats)) /\
    (forall n d,
       n ∈ dict_keys (stat_funcs no_entropy) -> d ∈ ["out"; "in"] ->
       dict_get (feat_name n d false true no_ext) stats = None).
Proof.
  assert (Hn : nodes graph_replies <> []) by (vm_compute; discriminate).
  assert (Hh : hypernodes graph_replies <> []) by (vm_compute; discriminate).
  split; [exact graph_replies_reachable|].
  split; [exact Hn|]. split; [exact Hh|].
  exact (degree_feats_values no_entropy graph_replies no_ext None
           graph_replies_reachable Hn Hh).
Defined.

(** The degree vectors of the sample graph, and three of its
    features. *)
Example graph_replies_degrees :
  outdegrees graph_replies false false = Ok [0; 1; 1] /\
  indegrees graph_replies false false = Ok [2; 0; 0] /\
  outdegrees graph_replies true false = Ok [0; 2] /\
  indegrees graph_replies true true = Ok [1; 0] /\
  (stats ← _degree_feats no_entropy None (Some graph_replies) no_ext None;
   Ok (dict_get "max[indegree over c->c responses]" stats,
       dict_get "2nd-largest[outdegree over c->c responses]" stats,
       dict_get "mean[outdegree over C->c responses]" stats)) =
  Ok (Some (NInt 2), Some (NInt 1), Some (NFloat (Quot 2 2))).
Proof. by vm_compute. Qed.

Lemma init_reachable : reachable (init : Hypergraph vertex).
Proof. constructor. Defined.

Lemma degree_feats_empty_tier_witness :
  reachable (init : Hypergraph vertex) /\
  nodes (init : Hypergraph vertex) = [] /\
  _degree_feats no_entropy None (Some init) no_ext None = Raise ValueError.
Proof.
  split; [exact init_reachable|]. split; [reflexivity|].
  exact (degree_feats_empty_tier no_entropy init no_ext None
           init_reachable (or_introl eq_refl)).
Defined.

Lemma motif_feats_built_witness :
  keyed_by_id thread_same_ts /\
  exists G r1 r2 r3 r4 r5,
    make thread_same_ts = Ok G /\
    @reciprocity_motifs _ _ (insertion_order _) G = Ok r1 /\
    @external_reciprocity_motifs _ _ (insertion_order _) G = Ok r2 /\
    dyadic_interaction_motifs G = Ok r3 /\
    incoming_triad_motifs G = Ok r4 /\
    outgoing_triad_motifs G = Ok r5 /\
    @_motif_feats (insertion_order _) (insertion_order _) no_meta
      (insertion_order _)
      (Some thread_same_ts) None " over mid-thread" None =
    @_motif_feats (insertion_order _) (insertion_order _) no_meta
      (insertion_order _)
      None (Some G) " over mid-thread" None /\
    @_motif_feats (insertion_order _) (insertion_order _) no_meta
      (insertion_order _)
      None (Some G) " over mid-thread" None =
    Ok (flat_map (fun '(motif, n) =>
          [(motif_feat_name "is-present" motif " over mid-thread",
            FBool (bool_decide (0 < n)));
           (motif_feat_name "count" motif " over mid-thread", FInt n)])
        [("reciprocity motif", length r1);
         ("external reciprocity motif", length r2);
         ("dyadic interaction motif", length r3);
         ("incoming triads", length r4);
         ("outgoing triads", length r5)]).
Proof.
  split; [exact thread_same_ts_keyed|].
  exact (@motif_feats_built (insertion_order _) (insertion_order _) no_meta
           (insertion_order _) thread_same_ts None " over mid-thread"
           thread_same_ts_keyed).
Defined.

(** The motif features of the sample thread. *)
Example thread_same_ts_motif_feats :
  @_motif_feats (insertion_order _) (insertion_order _) no_meta
    (insertion_order _)
    (Some thread_same_ts) None no_ext None =
  Ok [("is-present[reciprocity motif]", FBool false);
      ("count[reciprocity motif]", FInt 0);
      ("is-present[external reciprocity motif]", FBool false);
      ("count[external reciprocity motif]", FInt 0);
      ("is-present[dyadic interaction motif]", FBool false);
      ("count[dyadic interaction motif]", FInt 0);
      ("is-present[incoming triads]", FBool false);
      ("count[incoming triads]", FInt 0);
      ("is-present[outgoing triads]", FBool true);
      ("count[outgoing triads]", FInt 6)].
Proof. by vm_compute. Qed.

Lemma thread_ab_keyed : keyed_by_id thread_ab.
Proof. apply keyed_by_id_Forall. repeat constructor. Defined.

Lemma threads_ab_dicts root thread :
  (root, thread) ∈ threads_ab ->
  keyed_by_id thread /\ NoDup (dict_keys thread).
Proof.
  intros [= -> ->]%list_elem_of_singleton.
  split; [exact thread_ab_keyed|].
  apply NoDup_cons. split; [|apply NoDup_singleton].
  by intros [=]%list_elem_of_singleton.
Defined.

Lemma retrieve_feats_values_witness :
  NoDup (dict_keys threads_ab) /\ (2 <= 2)%Z /\
  exists fs,
    @retrieve_feats (insertion_order _) (insertion_order _) no_meta
      (insertion_order _) no_entropy stable_argsort threads_ab 2 = Ok fs /\
    Forall2 (fun p q => q.1 = p.1 /\
               @thread_stats (insertion_order _) (insertion_order _) no_meta
                 (insertion_order _) no_entropy stable_argsort p.1 p.2 = Ok q.2)
      (filter (fun p => (2 <= Z.of_nat (length p.2))%Z) threads_ab) fs.
Proof.
  assert (Hnd : NoDup (dict_keys threads_ab)) by apply NoDup_singleton.
  assert (Hmin : (2 <= 2)%Z) by lia.
  split; [exact Hnd|]. split; [exact Hmin|].
  exact (@retrieve_feats_values (insertion_order _) (insertion_order _) no_meta
           (insertion_order _) no_entropy stable_argsort threads_ab 2 Hnd
           threads_ab_dicts Hmin).
Defined.

Lemma thread_root_only_keyed : keyed_by_id thread_root_only.
Proof. apply keyed_by_id_Forall. repeat constructor. Defined.

Lemma retrieve_feats_no_mid_thread_witness :
  (1 <= Z.of_nat (length thread_root_only))%Z /\
  keyed_by_id thread_root_only /\
  included (Some "m1") thread_root_only.*2 = [] /\
  @retrieve_feats (insertion_order _) (insertion_order _) no_meta
    (insertion_order _) no_entropy stable_argsort [("m1", thread_root_only)] 1 =
  Raise ValueError.
Proof.
  assert (Hlen : (1 <= Z.of_nat (length thread_root_only))%Z)
    by (simpl; lia).
  assert (Hmid : included (Some "m1") thread_root_only.*2 = [])
    by reflexivity.
  split; [exact Hlen|]. split; [exact thread_root_only_keyed|].
  split; [exact Hmid|].
  apply (@retrieve_feats_no_mid_thread (insertion_order _)
           (insertion_order _) no_meta (insertion_order _) no_entropy
             stable_argsort
           [] "m1" thread_root_only [] 1);
    [by intros r t ?%elem_of_nil | exact Hlen
    | exact thread_root_only_keyed | exact Hmid].
Defined.
End FurtherSamples.
